(** * Survival-3D: creature AI and resource-node lifecycle

    A shallow embedding of [src/resources.js] (class [ResourceSystem]) and
    [src/creatures.js] (class [CreatureSystem]), of the inventory they call
    into ([src/inventory.js]) and of the player's gathering and combat that
    call them ([src/unnamed/part_001]), followed by the properties of these
    subsystems and of their interplay.

    Conventions of the embedding.
    - A JavaScript number is a [number]: an exact rational or [NaN].  A field
      the source leaves [undefined] and then uses in arithmetic or in a
      comparison is [NaN], which is what JavaScript makes of it.  Rounding
      and the infinities of IEEE doubles are not modelled.
    - An object held in an array and passed around by reference (a resource
      node, a creature) is named by its index in that array.
    - What the source takes from outside the repository (three.js vectors,
      [Math], the terrain ray cast) is a field of the class [Runtime], and
      for the placement of the resource nodes of the class [Terrain].
    - [console.log] lines and calls into collaborators are recorded as
      [Event]s of a trace.
    - [setTimeout] is a queue of pending callbacks, which run when their
      time has come.
    - Each object counts the values of [Math.random()] that its calls draw,
      and those that a collaborator draws during them.
    - Meshes, health bars and indicator rings are not modelled, and of the
      particles of a gather only the loop that makes them, which the call
      goes through before it returns.  Memory is not bounded. *)

From Stdlib Require Import QArith Qround Qabs ZArith NArith Lia Lqa String List Bool.
From stdpp Require Import base list.

Open Scope Q_scope.

(** ** JavaScript numbers *)

Inductive number : Type :=
| Fin (q : Q)
| NaN.

Definition Qltb (a b : Q) : bool := negb (Qle_bool b a).

Module Num.

Definition add (a b : number) : number :=
  match a, b with Fin x, Fin y => Fin (x + y) | _, _ => NaN end.

Definition sub (a b : number) : number :=
  match a, b with Fin x, Fin y => Fin (x - y) | _, _ => NaN end.

Definition mul (a b : number) : number :=
  match a, b with Fin x, Fin y => Fin (x * y) | _, _ => NaN end.

(** [a < b]; false as soon as one side is [NaN]. *)
Definition ltb (a b : number) : bool :=
  match a, b with Fin x, Fin y => Qltb x y | _, _ => false end.

(** [a <= b]. *)
Definition leb (a b : number) : bool :=
  match a, b with Fin x, Fin y => Qle_bool x y | _, _ => false end.

(** [a > b] and [a >= b]. *)
Definition gtb (a b : number) : bool := ltb b a.
Definition geb (a b : number) : bool := leb b a.

(** [Math.floor]. *)
Definition floor (a : number) : number :=
  match a with Fin x => Fin (inject_Z (Qfloor x)) | NaN => NaN end.

Definition ofZ (z : Z) : number := Fin (inject_Z z).

(** The propositional readings of the comparisons. *)
Definition lt (a b : number) : Prop :=
  match a, b with Fin x, Fin y => x < y | _, _ => False end.

Definition le (a b : number) : Prop :=
  match a, b with Fin x, Fin y => x <= y | _, _ => False end.

End Num.

(** ** three.js vectors *)

Record Vector3 : Type := mkVector3 { vx : number; vy : number; vz : number }.

Definition subVectors (a b : Vector3) : Vector3 :=
  mkVector3 (Num.sub (vx a) (vx b)) (Num.sub (vy a) (vy b)) (Num.sub (vz a) (vz b)).

Definition multiplyScalar (v : Vector3) (s : number) : Vector3 :=
  mkVector3 (Num.mul (vx v) s) (Num.mul (vy v) s) (Num.mul (vz v) s).

(** ** What the source takes from outside the repository *)

Class Runtime : Type := {
  (** [random n] is the value of the [n]-th call of [Math.random()]. *)
  random : nat -> number;
  cos : number -> number;
  sin : number -> number;
  atan2 : number -> number -> number;
  PI : number;
  (** [THREE.Vector3.distanceTo] and [THREE.Vector3.normalize]. *)
  distanceTo : Vector3 -> Vector3 -> number;
  normalize : Vector3 -> Vector3;
  (** [terrain.getHeightAt(x, z)]. *)
  getHeightAt : number -> number -> number
}.

(** ** The search shared by [getClosestNode] and [getClosestCreature]

    Both functions are the same loop: skip the entries that are out of play,
    keep the entry whose distance is strictly below the best so far. *)

Fixpoint closestFrom `{Runtime} {A : Type} (skip : A -> bool) (posOf : A -> Vector3)
    (pos : Vector3) (items : list A) (i : nat)
    (closest : option nat) (closestDist : number) : option nat :=
  match items with
  | [] => closest
  | item :: rest =>
      if skip item then closestFrom skip posOf pos rest (S i) closest closestDist
      else
        let dist := distanceTo pos (posOf item) in
        if Num.ltb dist closestDist
        then closestFrom skip posOf pos rest (S i) (Some i) dist
        else closestFrom skip posOf pos rest (S i) closest closestDist
  end.

(** ** [src/resources.js] *)

Module ResourceSystem.

Record Drop : Type := mkDrop { dropType : string; amount : number }.

Record ResourceNode : Type := mkNode {
  type : string;
  position : Vector3;
  health : Z;
  maxHealth : Z;
  canGather : bool;
  respawnTime : Z;
  (** the handle [setTimeout] returned, [null] before the first depletion *)
  respawnTimer : option nat
}.

(** A pending [setTimeout(() => this.respawnNode(node), delay)]. *)
Record Timer : Type := mkTimer {
  timerId : nat;
  deadline : Z;
  timerNode : nat
}.

(** The resource system together with the part of the browser it relies
    on: the clock in milliseconds and the queue of pending timers. *)
Record t : Type := mkSystem {
  resourceNodes : list ResourceNode;
  clock : Z;
  timers : list Timer;
  nextTimerId : nat
}.

Definition empty : t := mkSystem [] 0 [] 0.

Definition getMaxHealth (ty : string) : Z :=
  if String.eqb ty "tree" then 5
  else if String.eqb ty "rock" then 8
  else if String.eqb ty "plant" then 2
  else 3.

(** [createResourceNode(type, x, y, z)]: the new node is pushed at the end
    of [resourceNodes]; the result is its index. *)
Definition createResourceNode (ty : string) (x y z : number) (s : t) : t * nat :=
  let node := mkNode ty (mkVector3 x y z) (getMaxHealth ty) (getMaxHealth ty)
                     true 60000 None in
  (mkSystem (resourceNodes s ++ [node]) (clock s) (timers s) (nextTimerId s),
   length (resourceNodes s)).

Definition getResourceDrop (ty : string) : option Drop :=
  if String.eqb ty "tree" then Some (mkDrop "wood" (Num.ofZ 1))
  else if String.eqb ty "rock" then Some (mkDrop "stone" (Num.ofZ 1))
  else if String.eqb ty "plant" then Some (mkDrop "fiber" (Num.ofZ 2))
  else None.

Definition setNode (i : nat) (n : ResourceNode) (s : t) : t :=
  mkSystem (<[i := n]> (resourceNodes s)) (clock s) (timers s) (nextTimerId s).

(** [depleteNode(node)]: the node stops being gatherable and a respawn
    timer is armed [respawnTime] milliseconds from now. *)
Definition depleteNode (i : nat) (s : t) : t :=
  match resourceNodes s !! i with
  | None => s
  | Some node =>
      let id := nextTimerId s in
      let node' := mkNode (type node) (position node) (health node)
                          (maxHealth node) false (respawnTime node) (Some id) in
      mkSystem (<[i := node']> (resourceNodes s)) (clock s)
               (timers s ++ [mkTimer id (clock s + respawnTime node) i])
               (S id)
  end.

(** What [respawnNode] writes into the node: [health = maxHealth] and
    [canGather = true]. *)
Definition respawned (node : ResourceNode) : ResourceNode :=
  mkNode (type node) (position node) (maxHealth node) (maxHealth node) true
         (respawnTime node) (respawnTimer node).

(** [respawnNode(node)]. *)
Definition respawnNode (i : nat) (s : t) : t :=
  match resourceNodes s !! i with
  | None => s
  | Some node => setNode i (respawned node) s
  end.

(** [const damageDealt = amountMultiplier >= 2 ? 2 : 1]. *)
Definition damageDealt (amountMultiplier : number) : Z :=
  if Num.geb amountMultiplier (Num.ofZ 2) then 2%Z else 1%Z.

(** What a call [gatherResource(node, amountMultiplier)] that returns leaves
    behind: the system, and the value returned.  (Whether the call returns is
    [gatherResourceWithin] below.)  An index that names no node of the system
    stands for no call at all. *)
Definition gatherResource (i : nat) (amountMultiplier : number) (s : t)
  : t * option Drop :=
  match resourceNodes s !! i with
  | None => (s, None)
  | Some node =>
      if negb (canGather node) then (s, None)
      else
        let node1 := mkNode (type node) (position node)
                            (health node - damageDealt amountMultiplier)%Z
                            (maxHealth node)
                            (canGather node) (respawnTime node)
                            (respawnTimer node) in
        let s1 := setNode i node1 s in
        let s2 := if (health node1 <=? 0)%Z then depleteNode i s1 else s1 in
        let baseDrop := getResourceDrop (type node) in
        (s2,
         match baseDrop with
         | Some d =>
             Some (mkDrop (dropType d)
                          (Num.floor (Num.mul (amount d) amountMultiplier)))
         | None => None
         end)
  end.

(** The counter of a [for] loop is a double: [i++] adds 1 exactly below
    2^53 and leaves 2^53 where it is (2^53 + 1 is no double and is rounded
    back to 2^53). *)
Definition increment (i : Z) : Z := if (i <? 2 ^ 53)%Z then (i + 1)%Z else i.

(** The loop of [spawnGatherParticles(node, count)],
    [for (let i = 0; i < count; i++) { ...; this.particlePool.push(particle) }],
    from the counter [i] on, with [pushed] particles made so far (each takes
    three values of [Math.random()]).  The result is the number of
    particles when the loop ends, and [None] when it has not ended after
    [fuel] tests of its condition. *)
Fixpoint spawnGatherParticlesFrom (fuel : nat) (i : Z) (count : number) (pushed : nat)
  : option nat :=
  match fuel with
  | O => None
  | S k =>
      if Num.ltb (Num.ofZ i) count
      then spawnGatherParticlesFrom k (increment i) count (S pushed)
      else Some pushed
  end.

Definition spawnGatherParticles (fuel : nat) (count : number) : option nat :=
  spawnGatherParticlesFrom fuel 0 count 0.

(** [Math.floor(10 * amountMultiplier)], the count that [gatherResource]
    passes to [spawnGatherParticles]. *)
Definition particleCount (amountMultiplier : number) : number :=
  Num.floor (Num.mul (Fin 10) amountMultiplier).

(** The call [gatherResource(node, amountMultiplier)] as it runs.  On a
    gatherable node it goes through the loop of [spawnGatherParticles]
    before it depletes the node and returns: the result is [None] when the
    call has not returned after [fuel] rounds of that loop. *)
Definition gatherResourceWithin (fuel : nat) (i : nat) (amountMultiplier : number)
    (s : t) : option (t * option Drop) :=
  match resourceNodes s !! i with
  | None => Some (s, None)
  | Some node =>
      if negb (canGather node) then Some (s, None)
      else
        match spawnGatherParticles fuel (particleCount amountMultiplier) with
        | Some _ => Some (gatherResource i amountMultiplier s)
        | None => None
        end
  end.


(** The browser's timer queue: when the clock has reached [now], every
    timer whose deadline has come runs its callback, oldest first, and
    leaves the queue. *)
Fixpoint fireTimers (now : Z) (pending : list Timer) (s : t) : t :=
  match pending with
  | [] => s
  | tm :: rest =>
      if (deadline tm <=? now)%Z
      then fireTimers now rest (respawnNode (timerNode tm) s)
      else fireTimers now rest s
  end.

(** [dt] milliseconds pass. *)
Definition advance (dt : N) (s : t) : t :=
  let now := (clock s + Z.of_N dt)%Z in
  let s' := fireTimers now (timers s) s in
  mkSystem (resourceNodes s') now
           (List.filter (fun tm => (now <? deadline tm)%Z) (timers s))
           (nextTimerId s').

(** [getClosestNode(position, maxDistance)]. *)
Definition getClosestNode `{Runtime} (pos : Vector3) (maxDistance : number)
    (s : t) : option nat :=
  closestFrom (fun node => negb (canGather node)) position pos
              (resourceNodes s) 0 None maxDistance.

(** The life of a resource system: nodes are created, the player gathers,
    time passes. *)
Inductive Action : Type :=
| Create (ty : string) (x y z : number)
| Gather (i : nat) (amountMultiplier : number)
| Advance (dt : N).

Definition step (a : Action) (s : t) : t :=
  match a with
  | Create ty x y z => fst (createResourceNode ty x y z s)
  | Gather i m => fst (gatherResource i m s)
  | Advance dt => advance dt s
  end.

Fixpoint run (acts : list Action) (s : t) : t :=
  match acts with
  | [] => s
  | a :: rest => run rest (step a s)
  end.

(** The time that passes during a list of actions. *)
Fixpoint elapsed (acts : list Action) : Z :=
  match acts with
  | [] => 0%Z
  | Advance dt :: rest => (Z.of_N dt + elapsed rest)%Z
  | _ :: rest => elapsed rest
  end.

(** What holds of every node of a system that was built by [run]: the
    maximum health is positive, the respawn delay is the constant 60000, a
    gatherable node has health left, and a depleted node has health 0 or -1
    (the last hit is not clamped). *)
Definition nodeInvariant (n : ResourceNode) : Prop :=
  (1 <= maxHealth n)%Z
  /\ respawnTime n = 60000%Z
  /\ if canGather n then (1 <= health n <= maxHealth n)%Z
     else (-1 <= health n <= 0)%Z.

(** Every pending timer is the respawn of a depleted node, no node has two,
    and none is overdue. *)
Definition timersInvariant (s : t) : Prop :=
  List.NoDup (map timerNode (timers s))
  /\ forall tm, In tm (timers s) ->
       (clock s < deadline tm)%Z
       /\ exists n, resourceNodes s !! timerNode tm = Some n /\ canGather n = false.

Definition invariant (s : t) : Prop :=
  (forall i n, resourceNodes s !! i = Some n -> nodeInvariant n)
  /\ timersInvariant s.

(** Node [i] is depleted and waits for its one respawn timer, which is due
    at [due]. *)
Definition awaitingRespawn (i : nat) (due : Z) (s : t) : Prop :=
  (clock s < due)%Z
  /\ (exists n, resourceNodes s !! i = Some n /\ canGather n = false)
  /\ (exists tm, In tm (timers s) /\ timerNode tm = i /\ deadline tm = due)
  /\ (forall tm, In tm (timers s) -> timerNode tm = i -> deadline tm = due).

(** Some timer of [pending] is due at [now] and respawns node [j]. *)
Definition dueFor (now : Z) (j : nat) (pending : list Timer) : bool :=
  existsb (fun tm => (deadline tm <=? now)%Z && (timerNode tm =? j)%nat) pending.

End ResourceSystem.

(** ** [src/creatures.js] *)

Module Species.

Inductive Behavior : Type := passive | neutral | aggressive.

(** [a === b] on behavior names. *)
Definition eqb (a b : Behavior) : bool :=
  match a, b with
  | passive, passive | neutral, neutral | aggressive, aggressive => true
  | _, _ => false
  end.

Record DropItem : Type := mkDropItem {
  itemType : string;
  itemAmount : number;
  chance : number
}.

(** A species definition.  [emoji], [color] and [size] only feed the mesh and
    the log lines and are left out.  [fleeSpeed] and [attackCooldown] are
    [NaN] where the source leaves them [undefined]. *)
Record t : Type := mkSpecies {
  id : string;
  name : string;
  health : number;
  maxHealth : number;
  speed : number;
  damage : number;
  attackRange : number;
  detectionRange : number;
  behavior : Behavior;
  aggroOnHit : bool;
  wanderSpeed : number;
  fleeSpeed : number;
  attackCooldown : number;
  dropItems : list DropItem;
  spawnWeight : number
}.

Definition rabbit : t :=
  mkSpecies "rabbit" "Rabbit" (Fin 10) (Fin 10) (Fin 8) (Fin 0) (Fin 0) (Fin 15)
            passive false (Fin 3) (Fin 10) NaN
            [mkDropItem "meat" (Fin 1) (Fin 1)]
            (Fin 30).

Definition deer : t :=
  mkSpecies "deer" "Deer" (Fin 25) (Fin 25) (Fin 10) (Fin 0) (Fin 0) (Fin 20)
            passive false (Fin 4) (Fin 12) NaN
            [mkDropItem "meat" (Fin 3) (Fin 1); mkDropItem "hide" (Fin 1) (Fin 0.8)]
            (Fin 20).

Definition wolf : t :=
  mkSpecies "wolf" "Wolf" (Fin 40) (Fin 40) (Fin 12) (Fin 10) (Fin 2) (Fin 25)
            aggressive true (Fin 5) NaN (Fin 1500)
            [mkDropItem "meat" (Fin 2) (Fin 1); mkDropItem "fang" (Fin 1) (Fin 0.5)]
            (Fin 15).

Definition boar : t :=
  mkSpecies "boar" "Boar" (Fin 50) (Fin 50) (Fin 9) (Fin 8) (Fin 1.8) (Fin 15)
            neutral true (Fin 3) NaN (Fin 2000)
            [mkDropItem "meat" (Fin 4) (Fin 1); mkDropItem "hide" (Fin 2) (Fin 0.7)]
            (Fin 18).

Definition bear : t :=
  mkSpecies "bear" "Bear" (Fin 100) (Fin 100) (Fin 8) (Fin 20) (Fin 2.5) (Fin 30)
            aggressive true (Fin 4) NaN (Fin 2500)
            [mkDropItem "meat" (Fin 8) (Fin 1); mkDropItem "hide" (Fin 3) (Fin 1);
             mkDropItem "fang" (Fin 2) (Fin 0.8)]
            (Fin 8).

End Species.

Module CreatureSystem.

Inductive State : Type := idle | wander | chase | attack | flee.

(** What [creature.target] can hold besides [null]: the player's position
    vector (shared with the player, so it follows the player) or the object
    that was passed to [damageCreature] as the attacker. *)
Inductive Ref : Type :=
| PlayerPosition
| Object (o : nat).

Record Creature : Type := mkCreature {
  id : number;
  species : string;
  speciesData : Species.t;
  position : Vector3;
  velocity : Vector3;
  rotation : number;
  health : number;
  maxHealth : number;
  isDead : bool;
  state : State;
  target : option Ref;
  lastAttackTime : number;
  stateTimer : number;
  wanderTarget : option Vector3
}.

(** What the creature system reads from its surroundings during one call. *)
Record Env : Type := mkEnv {
  (** [this.player.position] *)
  playerPosition : Vector3;
  (** [Date.now()] *)
  now : number;
  (** [window.game?.inventory] is there *)
  inventoryPresent : bool;
  (** how many values of [Math.random()] the call
      [window.game.inventory.createGroundItem(type, ...)] takes: one for the
      id of the item it makes, none when it makes no item of the type *)
  groundItemDraws : string -> nat;
  (** [window.game?.player] is there and has [takeDamage] *)
  playerPresent : bool
}.

Inductive Event : Type :=
(** the log line of [spawnCreature] *)
| Spawned (speciesId : string) (x z : number)
(** the log line of [damageCreature]: damage taken, health left *)
| TookDamage (creature : number) (damage health : number)
(** the log line of [killCreature] *)
| Died (creature : number)
(** [window.game.inventory.createGroundItem(type, amount, x, z)] *)
| CreateGroundItem (itemType : string) (amount x z : number)
(** the log line of [performAttack] *)
| Attacks (creature : number) (damage : number)
(** [window.game.player.takeDamage(damage)] *)
| PlayerTakeDamage (damage : number).

(** The effects a call leaves behind: how many times [Math.random()] has been
    called, and the events so far, newest first, each with the value of
    [Date.now()] at which it happened. *)
Record Effects : Type := mkEffects {
  randomCalls : nat;
  trace : list (number * Event)
}.

Definition mathRandom `{Runtime} (e : Effects) : number * Effects :=
  (random (randomCalls e), mkEffects (S (randomCalls e)) (trace e)).

Definition emit (env : Env) (ev : Event) (e : Effects) : Effects :=
  mkEffects (randomCalls e) ((now env, ev) :: trace e).

(** A collaborator draws [k] values of [Math.random()] during a call into
    it. *)
Definition drawn (k : nat) (e : Effects) : Effects :=
  mkEffects (randomCalls e + k) (trace e).

Definition maxCreatures : nat := 15.
Definition spawnRadius : number := Fin 80.
Definition despawnRadius : number := Fin 100.

Definition initializeSpecies : list Species.t :=
  [Species.rabbit; Species.deer; Species.wolf; Species.boar; Species.bear].

(** *** Field updates *)

Definition setPosition (p : Vector3) (c : Creature) : Creature :=
  mkCreature (id c) (species c) (speciesData c) p (velocity c) (rotation c)
             (health c) (maxHealth c) (isDead c) (state c) (target c)
             (lastAttackTime c) (stateTimer c) (wanderTarget c).

Definition setVelocity (v : Vector3) (c : Creature) : Creature :=
  mkCreature (id c) (species c) (speciesData c) (position c) v (rotation c)
             (health c) (maxHealth c) (isDead c) (state c) (target c)
             (lastAttackTime c) (stateTimer c) (wanderTarget c).

Definition setRotation (r : number) (c : Creature) : Creature :=
  mkCreature (id c) (species c) (speciesData c) (position c) (velocity c) r
             (health c) (maxHealth c) (isDead c) (state c) (target c)
             (lastAttackTime c) (stateTimer c) (wanderTarget c).

Definition setHealth (h : number) (c : Creature) : Creature :=
  mkCreature (id c) (species c) (speciesData c) (position c) (velocity c)
             (rotation c) h (maxHealth c) (isDead c) (state c) (target c)
             (lastAttackTime c) (stateTimer c) (wanderTarget c).

Definition setIsDead (b : bool) (c : Creature) : Creature :=
  mkCreature (id c) (species c) (speciesData c) (position c) (velocity c)
             (rotation c) (health c) (maxHealth c) b (state c) (target c)
             (lastAttackTime c) (stateTimer c) (wanderTarget c).

Definition setState (st : State) (c : Creature) : Creature :=
  mkCreature (id c) (species c) (speciesData c) (position c) (velocity c)
             (rotation c) (health c) (maxHealth c) (isDead c) st (target c)
             (lastAttackTime c) (stateTimer c) (wanderTarget c).

Definition setTarget (tg : option Ref) (c : Creature) : Creature :=
  mkCreature (id c) (species c) (speciesData c) (position c) (velocity c)
             (rotation c) (health c) (maxHealth c) (isDead c) (state c) tg
             (lastAttackTime c) (stateTimer c) (wanderTarget c).

Definition setLastAttackTime (tm : number) (c : Creature) : Creature :=
  mkCreature (id c) (species c) (speciesData c) (position c) (velocity c)
             (rotation c) (health c) (maxHealth c) (isDead c) (state c) (target c)
             tm (stateTimer c) (wanderTarget c).

Definition setStateTimer (tm : number) (c : Creature) : Creature :=
  mkCreature (id c) (species c) (speciesData c) (position c) (velocity c)
             (rotation c) (health c) (maxHealth c) (isDead c) (state c) (target c)
             (lastAttackTime c) tm (wanderTarget c).

Definition setWanderTarget (w : option Vector3) (c : Creature) : Creature :=
  mkCreature (id c) (species c) (speciesData c) (position c) (velocity c)
             (rotation c) (health c) (maxHealth c) (isDead c) (state c) (target c)
             (lastAttackTime c) (stateTimer c) w.

(** [creature.velocity.x = x; creature.velocity.z = z]. *)
Definition setVelocityXZ (x z : number) (c : Creature) : Creature :=
  setVelocity (mkVector3 x (vy (velocity c)) z) c.

(** *** Spawning *)

(** One attempt of [findSpawnPosition]: the point drawn with the random
    values number [n] and [n + 1]. *)
Definition spawnCandidate `{Runtime} (n : nat) : Vector3 :=
  let angle := Num.mul (Num.mul (random n) PI) (Fin 2) in
  let distance := Num.add (Fin 20) (Num.mul (random (S n)) spawnRadius) in
  let x := Num.mul (cos angle) distance in
  let z := Num.mul (sin angle) distance in
  mkVector3 x (getHeightAt x z) z.

(** [height > -1 && height < 15]. *)
Definition onLand (height : number) : bool :=
  Num.gtb height (Fin (-1)) && Num.ltb height (Fin 15).

Fixpoint findSpawnPositionFrom `{Runtime} (attemptsLeft : nat) (e : Effects)
  : option Vector3 * Effects :=
  match attemptsLeft with
  | O => (None, e)
  | S k =>
      let p := spawnCandidate (randomCalls e) in
      let e' := mkEffects (S (S (randomCalls e))) (trace e) in
      if onLand (vy p) then (Some p, e') else findSpawnPositionFrom k e'
  end.

(** [findSpawnPosition()]: at most 20 attempts. *)
Definition findSpawnPosition `{Runtime} (e : Effects) : option Vector3 * Effects :=
  findSpawnPositionFrom 20 e.

(** [spawnCreature(species, position)]. *)
Definition spawnCreature `{Runtime} (sp : Species.t) (pos : Vector3) (env : Env)
    (e : Effects) : Creature * Effects :=
  let (r1, e1) := mathRandom e in
  let (r2, e2) := mathRandom e1 in
  let creature :=
    mkCreature (Num.add (now env) r1) (Species.id sp) sp pos
               (mkVector3 (Fin 0) (Fin 0) (Fin 0))
               (Num.mul (Num.mul r2 PI) (Fin 2))
               (Species.health sp) (Species.maxHealth sp) false
               idle None (Fin 0) (Fin 0) None in
  (creature, emit env (Spawned (Species.id sp) (vx pos) (vz pos)) e2).

(** The loop of [spawnRandomCreature] that walks the species with the drawn
    value: the first species at which the running value is [<= 0], else the
    species selected so far. *)
Fixpoint selectSpecies (r : number) (l : list Species.t) (selected : option Species.t)
  : option Species.t :=
  match l with
  | [] => selected
  | sp :: rest =>
      let r' := Num.sub r (Species.spawnWeight sp) in
      if Num.leb r' (Fin 0) then Some sp else selectSpecies r' rest selected
  end.

Definition totalWeight (l : list Species.t) : number :=
  fold_left (fun sum sp => Num.add sum (Species.spawnWeight sp)) l (Fin 0).

(** [spawnRandomCreature()]. *)
Definition spawnRandomCreature `{Runtime} (env : Env)
    (cs : list Creature) (e : Effects) : list Creature * Effects :=
  let (r, e1) := mathRandom e in
  let selectedSpecies :=
    selectSpecies (Num.mul r (totalWeight initializeSpecies)) initializeSpecies
                  (head initializeSpecies) in
  let (spawnPos, e2) := findSpawnPosition e1 in
  match spawnPos, selectedSpecies with
  | Some pos, Some sp =>
      let (c, e3) := spawnCreature sp pos env e2 in (cs ++ [c], e3)
  | _, _ => (cs, e2)
  end.

Fixpoint spawnInitialCreaturesFrom `{Runtime} (n : nat) (env : Env)
    (cs : list Creature) (e : Effects) : list Creature * Effects :=
  match n with
  | O => (cs, e)
  | S k => let (cs', e') := spawnRandomCreature env cs e in
           spawnInitialCreaturesFrom k env cs' e'
  end.

(** *** Combat *)

(** [dropLoot(creature)]: one independent roll per entry of the drop table.
    The inventory draws the id of an item it makes before the next roll. *)
Fixpoint dropLootFrom `{Runtime} (drops : list Species.DropItem) (c : Creature)
    (env : Env) (e : Effects) : Effects :=
  match drops with
  | [] => e
  | d :: rest =>
      let (r, e1) := mathRandom e in
      let e2 :=
        if Num.ltb r (Species.chance d) && inventoryPresent env
        then drawn (groundItemDraws env (Species.itemType d))
                   (emit env (CreateGroundItem (Species.itemType d)
                                               (Species.itemAmount d)
                                               (vx (position c)) (vz (position c)))
                         e1)
        else e1 in
      dropLootFrom rest c env e2
  end.

Definition dropLoot `{Runtime} (c : Creature) (env : Env) (e : Effects) : Effects :=
  dropLootFrom (Species.dropItems (speciesData c)) c env e.

(** [killCreature(creature)].  The fade-out it starts ends, some frames
    later, with the removal of the creature; that is [fadeOutDone] below. *)
Definition killCreature `{Runtime} (c : Creature) (env : Env) (e : Effects)
  : Creature * Effects :=
  let c1 := setHealth (Fin 0) (setIsDead true c) in
  let e1 := emit env (Died (id c1)) e in
  (c1, dropLoot c1 env e1).

(** The reaction to a hit, in [damageCreature]. *)
Definition reactToDamage (attacker : option Ref) (c : Creature) : Creature :=
  let sp := speciesData c in
  if Species.eqb (Species.behavior sp) Species.passive
     || (Species.eqb (Species.behavior sp) Species.neutral && Species.aggroOnHit sp)
  then setStateTimer (Fin 5000) (setState flee c)
  else if Species.eqb (Species.behavior sp) Species.neutral
          || Species.eqb (Species.behavior sp) Species.aggressive
  then setTarget (Some (match attacker with
                        | Some a => a
                        | None => PlayerPosition
                        end))
                 (setState chase c)
  else c.

(** [damageCreature(creature, damage, attacker = null)]. *)
Definition damageCreature `{Runtime} (c : Creature) (damage : number)
    (attacker : option Ref) (env : Env) (e : Effects) : Creature * Effects :=
  if isDead c then (c, e)
  else
    let c1 := setHealth (Num.sub (health c) damage) c in
    let e1 := emit env (TookDamage (id c1) damage (health c1)) e in
    let c2 := reactToDamage attacker c1 in
    if Num.leb (health c2) (Fin 0) then killCreature c2 env e1 else (c2, e1).

(** *** The state machine *)

Definition updateIdle `{Runtime} (c : Creature) (distanceToPlayer deltaTime : number)
    (env : Env) (e : Effects) : Creature * Effects :=
  let sp := speciesData c in
  if Species.eqb (Species.behavior sp) Species.aggressive
     && Num.ltb distanceToPlayer (Species.detectionRange sp)
  then (setTarget (Some PlayerPosition) (setState chase c), e)
  else
    let (r, e1) := mathRandom e in
    if Num.ltb r (Fin 0.01)
    then let (r2, e2) := mathRandom e1 in
         (setStateTimer (Num.add (Fin 3000) (Num.mul r2 (Fin 5000)))
                        (setState wander c), e2)
    else (c, e1).

(** The new wander target of [updateWander]. *)
Definition pickWanderTarget `{Runtime} (c : Creature) (e : Effects)
  : Creature * Effects :=
  let (r1, e1) := mathRandom e in
  let angle := Num.mul (Num.mul r1 PI) (Fin 2) in
  let (r2, e2) := mathRandom e1 in
  let distance := Num.add (Fin 5) (Num.mul r2 (Fin 10)) in
  (setWanderTarget
     (Some (mkVector3 (Num.add (vx (position c)) (Num.mul (cos angle) distance))
                      (Fin 0)
                      (Num.add (vz (position c)) (Num.mul (sin angle) distance))))
     c, e2).

Definition updateWander `{Runtime} (c : Creature) (distanceToPlayer deltaTime : number)
    (env : Env) (e : Effects) : Creature * Effects :=
  let sp := speciesData c in
  if Species.eqb (Species.behavior sp) Species.aggressive
     && Num.ltb distanceToPlayer (Species.detectionRange sp)
  then (setTarget (Some PlayerPosition) (setState chase c), e)
  else
    (* [!creature.wanderTarget || Math.random() < 0.02] *)
    let (repick, e0) :=
      match wanderTarget c with
      | None => (true, e)
      | Some _ => let (r, e') := mathRandom e in (Num.ltb r (Fin 0.02), e')
      end in
    let (c1, e1) := if repick then pickWanderTarget c e0 else (c, e0) in
    match wanderTarget c1 with
    | Some w =>
        let direction := normalize (subVectors w (position c1)) in
        (setRotation (atan2 (vx direction) (vz direction))
           (setVelocityXZ (Num.mul (vx direction) (Species.wanderSpeed sp))
                          (Num.mul (vz direction) (Species.wanderSpeed sp)) c1),
         e1)
    | None => (c1, e1)
    end.

Definition updateChase `{Runtime} (c : Creature) (distanceToPlayer deltaTime : number)
    (env : Env) (e : Effects) : Creature * Effects :=
  let sp := speciesData c in
  if Num.ltb distanceToPlayer (Species.attackRange sp)
  then (setState attack c, e)
  else if Num.gtb distanceToPlayer (Num.mul (Species.detectionRange sp) (Fin 1.5))
  then (setTarget None (setState idle c), e)
  else
    let direction := normalize (subVectors (playerPosition env) (position c)) in
    (setRotation (atan2 (vx direction) (vz direction))
       (setVelocityXZ (Num.mul (vx direction) (Species.speed sp))
                      (Num.mul (vz direction) (Species.speed sp)) c),
     e).

(** [performAttack(creature)]. *)
Definition performAttack (c : Creature) (env : Env) (e : Effects) : Effects :=
  let sp := speciesData c in
  let e1 := emit env (Attacks (id c) (Species.damage sp)) e in
  if playerPresent env then emit env (PlayerTakeDamage (Species.damage sp)) e1
  else e1.

Definition updateAttack `{Runtime} (c : Creature) (distanceToPlayer deltaTime : number)
    (env : Env) (e : Effects) : Creature * Effects :=
  let sp := speciesData c in
  if Num.gtb distanceToPlayer (Num.mul (Species.attackRange sp) (Fin 1.2))
  then (setState chase c, e)
  else
    let c1 := setVelocityXZ (Fin 0) (Fin 0) c in
    let direction := normalize (subVectors (playerPosition env) (position c1)) in
    let c2 := setRotation (atan2 (vx direction) (vz direction)) c1 in
    if Num.gtb (Num.sub (now env) (lastAttackTime c2)) (Species.attackCooldown sp)
    then (setLastAttackTime (now env) c2, performAttack c2 env e)
    else (c2, e).

Definition updateFlee `{Runtime} (c : Creature) (distanceToPlayer deltaTime : number)
    (env : Env) (e : Effects) : Creature * Effects :=
  let sp := speciesData c in
  let direction := normalize (subVectors (position c) (playerPosition env)) in
  (setRotation (atan2 (vx direction) (vz direction))
     (setVelocityXZ (Num.mul (vx direction) (Species.fleeSpeed sp))
                    (Num.mul (vz direction) (Species.fleeSpeed sp)) c),
   e).

Definition applyMovement `{Runtime} (c : Creature) (deltaTime : number) : Creature :=
  let x := Num.add (vx (position c)) (Num.mul (vx (velocity c)) deltaTime) in
  let z := Num.add (vz (position c)) (Num.mul (vz (velocity c)) deltaTime) in
  setVelocity (multiplyScalar (velocity c) (Fin 0.9))
              (setPosition (mkVector3 x (getHeightAt x z) z) c).

(** The first lines of [updateCreature]: the state timer runs down and, when
    it runs out, the state falls back to idle. *)
Definition tickStateTimer (c : Creature) (deltaTime : number) : Creature :=
  if Num.gtb (stateTimer c) (Fin 0)
  then
    let c1 := setStateTimer (Num.sub (stateTimer c) (Num.mul deltaTime (Fin 1000))) c in
    if Num.leb (stateTimer c1) (Fin 0) then setState idle c1 else c1
  else c.

(** [updateCreature(creature, deltaTime)]. *)
Definition updateCreature `{Runtime} (c : Creature) (deltaTime : number)
    (env : Env) (e : Effects) : Creature * Effects :=
  let c1 := tickStateTimer c deltaTime in
  let distanceToPlayer := distanceTo (position c1) (playerPosition env) in
  let (c2, e2) :=
    match state c1 with
    | idle => updateIdle c1 distanceToPlayer deltaTime env e
    | wander => updateWander c1 distanceToPlayer deltaTime env e
    | chase => updateChase c1 distanceToPlayer deltaTime env e
    | attack => updateAttack c1 distanceToPlayer deltaTime env e
    | flee => updateFlee c1 distanceToPlayer deltaTime env e
    end in
  (applyMovement c2 deltaTime, e2).

(** [update(deltaTime)]: the loop over the creatures, in order. *)
Fixpoint updateFrom `{Runtime} (cs : list Creature) (deltaTime : number)
    (env : Env) (e : Effects) : list Creature * Effects :=
  match cs with
  | [] => ([], e)
  | c :: rest =>
      if isDead c
      then let (rest', e') := updateFrom rest deltaTime env e in (c :: rest', e')
      else
        let (c', e1) := updateCreature c deltaTime env e in
        let (rest', e') := updateFrom rest deltaTime env e1 in
        (c' :: rest', e')
  end.

(** *** The creature system *)

Record t : Type := mkSystem {
  creatures : list Creature;
  effects : Effects
}.

(** The constructor: no creature, then [spawnInitialCreatures()]. *)
Definition create `{Runtime} (env : Env) (e : Effects) : t :=
  let (cs, e') := spawnInitialCreaturesFrom maxCreatures env [] e in
  mkSystem cs e'.

(** [getClosestCreature(position, maxDistance)]. *)
Definition getClosestCreature `{Runtime} (pos : Vector3) (maxDistance : number)
    (s : t) : option nat :=
  closestFrom isDead position pos (creatures s) 0 None maxDistance.

(** [update(deltaTime)]. *)
Definition update `{Runtime} (deltaTime : number) (env : Env) (s : t) : t :=
  let (cs, e) := updateFrom (creatures s) deltaTime env (effects s) in
  mkSystem cs e.

(** [damageCreature] on the creature at index [i]. *)
Definition damageCreatureAt `{Runtime} (i : nat) (damage : number)
    (attacker : option Ref) (env : Env) (s : t) : t :=
  match creatures s !! i with
  | None => s
  | Some c =>
      let (c', e) := damageCreature c damage attacker env (effects s) in
      mkSystem (<[i := c']> (creatures s)) e
  end.

(** The end of the fade-out that [killCreature] starts: the dead creature is
    spliced out of [creatures].  (The replacement spawns ten seconds later:
    [SpawnRandom] below.) *)
Definition fadeOutDone (i : nat) (s : t) : t :=
  match creatures s !! i with
  | Some c => if isDead c then mkSystem (delete i (creatures s)) (effects s) else s
  | None => s
  end.

(** What can happen to a creature system.  The callbacks of the browser
    ([FadeOutDone], [SpawnRandom]) are allowed at any time, which includes
    the times at which the browser runs them. *)
Inductive Action : Type :=
| SpawnRandom (env : Env)
| Damage (i : nat) (damage : number) (attacker : option Ref) (env : Env)
| Update (deltaTime : number) (env : Env)
| FadeOutDone (i : nat).

Definition step `{Runtime} (a : Action) (s : t) : t :=
  match a with
  | SpawnRandom env =>
      let (cs, e) := spawnRandomCreature env (creatures s) (effects s) in
      mkSystem cs e
  | Damage i damage attacker env => damageCreatureAt i damage attacker env s
  | Update deltaTime env => update deltaTime env s
  | FadeOutDone i => fadeOutDone i s
  end.

Fixpoint run `{Runtime} (acts : list Action) (s : t) : t :=
  match acts with
  | [] => s
  | a :: rest => run rest (step a s)
  end.

(** *** One creature over time *)

Inductive CreatureStep : Type :=
| Tick (deltaTime : number) (env : Env)
| Hit (damage : number) (attacker : option Ref) (env : Env).

(** What [update] and [damageCreature] do to one creature. *)
Definition stepCreature `{Runtime} (st : CreatureStep) (c : Creature) (e : Effects)
  : Creature * Effects :=
  match st with
  | Tick deltaTime env => if isDead c then (c, e) else updateCreature c deltaTime env e
  | Hit damage attacker env => damageCreature c damage attacker env e
  end.

Fixpoint runCreature `{Runtime} (steps : list CreatureStep) (c : Creature)
    (e : Effects) : Creature * Effects :=
  match steps with
  | [] => (c, e)
  | st :: rest => let (c', e') := stepCreature st c e in runCreature rest c' e'
  end.

(** The times of the calls of [performAttack] in a trace, newest first. *)
Fixpoint attackTimes (tr : list (number * Event)) : list number :=
  match tr with
  | [] => []
  | (tm, Attacks _ _) :: rest => tm :: attackTimes rest
  | _ :: rest => attackTimes rest
  end.

(** Between two successive times of a list (newest first) more than
    [cooldown] passes. *)
Fixpoint spacedBy (cooldown : number) (times : list number) : Prop :=
  match times with
  | newer :: (older :: _) as rest =>
      Num.lt cooldown (Num.sub newer older) /\ spacedBy cooldown rest
  | _ => True
  end.

(** The cooldown has been kept so far: the attacks of the trace are spaced
    by [cooldown], and [lastAttackTime] is the time of the newest of them, or
    still [first] if there is none. *)
Definition cadence (first cooldown : number) (c : Creature)
    (tr : list (number * Event)) : Prop :=
  spacedBy cooldown (attackTimes tr)
  /\ lastAttackTime c = match attackTimes tr with
                        | newest :: _ => newest
                        | [] => first
                        end.

(** What a call does to the attacks of the trace and to [lastAttackTime]:
    nothing, or one attack at the time of the call, after more than the
    cooldown since the last one. *)
Definition attacksAtMostOnce (env : Env) (c : Creature) (e : Effects)
    (r : Creature * Effects) : Prop :=
  speciesData (fst r) = speciesData c
  /\ ((attackTimes (trace (snd r)) = attackTimes (trace e)
       /\ lastAttackTime (fst r) = lastAttackTime c)
      \/ (attackTimes (trace (snd r)) = now env :: attackTimes (trace e)
          /\ lastAttackTime (fst r) = now env
          /\ Num.lt (Species.attackCooldown (speciesData c))
                    (Num.sub (now env) (lastAttackTime c)))).

(** [Math.random()] returns values in [[0, 1)]. *)
Definition randomInUnitInterval `{Runtime} : Prop :=
  forall n, exists r, random n = Fin r /\ 0 <= r /\ r < 1.

(** A dead creature has health 0. *)
Definition deadAtZero (c : Creature) : Prop :=
  isDead c = true -> health c = Fin 0.

(** [c'] is [c] up to what the state machine may change: identity, species,
    health and death are the same. *)
Definition sameVitals (c' c : Creature) : Prop :=
  id c' = id c /\ speciesData c' = speciesData c /\ health c' = health c
  /\ maxHealth c' = maxHealth c /\ isDead c' = isDead c.

(** The state timer does not run out during a tick of [deltaTime]: it is
    not running, or it is still positive afterwards. *)
Definition timerQuiet (c : Creature) (deltaTime : number) : Prop :=
  Num.gtb (stateTimer c) (Fin 0) = false
  \/ Num.leb (Num.sub (stateTimer c) (Num.mul deltaTime (Fin 1000))) (Fin 0) = false.

End CreatureSystem.

(** ** A concrete runtime for examples

    A runtime on which the definitions compute.  Its distance is the taxicab
    distance and its [normalize] divides by the taxicab length; for points
    that differ in one coordinate only, as all the points of the examples do,
    these are the Euclidean distance and the unit vector (fractions are kept
    in lowest terms).  Its [cos] and
    [sin] are exact at angle 0 and are a point of the unit circle elsewhere.
    The terrain is flat at [height]; [rnd] gives the values of
    [Math.random()]. *)

Module Demo.

Definition distance (a b : Vector3) : number :=
  match subVectors a b with
  | mkVector3 (Fin x) (Fin y) (Fin z) => Fin (Qred (Qabs x + Qabs y + Qabs z))
  | _ => NaN
  end.

Definition unit (v : Vector3) : Vector3 :=
  match v with
  | mkVector3 (Fin x) (Fin y) (Fin z) =>
      let l := Qabs x + Qabs y + Qabs z in
      if Qeq_bool l 0 then v
      else mkVector3 (Fin (Qred (x / l))) (Fin (Qred (y / l))) (Fin (Qred (z / l)))
  | _ => mkVector3 NaN NaN NaN
  end.

Definition cosine (a : number) : number :=
  match a with
  | Fin q => if Qeq_bool q 0 then Fin 1 else Fin (3 # 5)
  | NaN => NaN
  end.

Definition sine (a : number) : number :=
  match a with
  | Fin q => if Qeq_bool q 0 then Fin 0 else Fin (4 # 5)
  | NaN => NaN
  end.

Definition runtime (rnd : nat -> number) (height : number) : Runtime :=
  {| random := rnd;
     cos := cosine;
     sin := sine;
     atan2 := fun _ _ => Fin 0;
     PI := Fin 3.14159;
     distanceTo := distance;
     normalize := unit;
     getHeightAt := fun _ _ => height |}.

(** [Math.random()] returns 0 at every call. *)
Definition zeros (n : nat) : number := Fin 0.

(** [Math.random()] returns 0, 0.9, 0, 0.9, ... *)
Definition alternating (n : nat) : number :=
  if Nat.even n then Fin 0 else Fin 0.9.

Definition origin : Vector3 := mkVector3 (Fin 0) (Fin 0) (Fin 0).

Definition onXAxis (x : Q) : Vector3 := mkVector3 (Fin x) (Fin 0) (Fin 0).

(** The game is running, the player stands at [x] on the x axis, and the
    clock shows [time]. *)
Definition envAt (x time : Q) : CreatureSystem.Env :=
  CreatureSystem.mkEnv (onXAxis x) (Fin time) true (fun _ => 1%nat) true.

Definition noEffects : CreatureSystem.Effects := CreatureSystem.mkEffects 0 [].

(** Flat land at height 0, [Math.random()] always 0. *)
Definition calm : Runtime := runtime zeros (Fin 0).

(** Flat land at height 0, [Math.random()] alternating between 0 and 0.9. *)
Definition lively : Runtime := runtime alternating (Fin 0).

(** A tree, gathered three times with a stone axe (multiplier 2). *)
Definition axeOnTree : list ResourceSystem.Action :=
  [ResourceSystem.Create "tree" (Fin 3) (Fin 0) (Fin 4);
   ResourceSystem.Gather 0 (Fin 2);
   ResourceSystem.Gather 0 (Fin 2);
   ResourceSystem.Gather 0 (Fin 2)].

(** A freshly spawned creature of a species, at the origin. *)
Definition fresh (sp : Species.t) : CreatureSystem.Creature :=
  fst (CreatureSystem.spawnCreature (H := calm) sp origin (envAt 37 1000) noEffects).

(** A rabbit (health 10) killed by one hit of 10. *)
Definition deadRabbit : CreatureSystem.Creature :=
  fst (CreatureSystem.damageCreature (H := calm) (fresh Species.rabbit) (Fin 10)
         (Some (CreatureSystem.Object 0)) (envAt 3 1000) noEffects).

(** The first steps of a wolf, the player standing at distance 37: one tick
    sends it wandering (state timer 3000), then a hit makes it chase, the
    timer still running. *)
Definition wolfProvoked : list CreatureSystem.CreatureStep :=
  [CreatureSystem.Tick (Fin 0.1) (envAt 37 1000);
   CreatureSystem.Hit (Fin 1) (Some (CreatureSystem.Object 0)) (envAt 37 1100)].

(** The wolf after one tick of chase: at 1.2 on the x axis, timer 2900. *)
Definition wolfChasing : CreatureSystem.Creature :=
  fst (CreatureSystem.runCreature (H := calm)
         (wolfProvoked ++ [CreatureSystem.Tick (Fin 0.1) (envAt 37 1200)])
         (fresh Species.wolf) noEffects).

(** The wolf after 29 ticks of chase, of 0.1 s each: at 34.8 on the x axis,
    still chasing, with 100 ms left on the state timer. *)
Definition wolfLateInChase : CreatureSystem.Creature :=
  fst (CreatureSystem.runCreature (H := calm)
         (wolfProvoked ++ repeat (CreatureSystem.Tick (Fin 0.1) (envAt 37 1200)) 29)
         (fresh Species.wolf) noEffects).

(** A rabbit, hit for 4 and then for 6, with ticks in between and after. *)
Definition rabbitHunt : list CreatureSystem.CreatureStep :=
  [CreatureSystem.Hit (Fin 4) (Some (CreatureSystem.Object 0)) (envAt 2 1000);
   CreatureSystem.Tick (Fin 0.1) (envAt 2 1100);
   CreatureSystem.Hit (Fin 6) (Some (CreatureSystem.Object 0)) (envAt 2 1200);
   CreatureSystem.Tick (Fin 0.1) (envAt 2 1300)].

(** A wolf with the player at distance 1: the first tick makes it chase,
    the second puts it in the attack state. *)
Definition wolfAttacking : CreatureSystem.Creature :=
  fst (CreatureSystem.runCreature (H := calm)
         [CreatureSystem.Tick (Fin 0.016) (envAt 1 10000);
          CreatureSystem.Tick (Fin 0.016) (envAt 1 10016)]
         (fresh Species.wolf) noEffects).

(** A boar (health 50) hit for 5, the player standing at distance 2. *)
Definition boarHit : CreatureSystem.Creature :=
  fst (CreatureSystem.damageCreature (H := calm) (fresh Species.boar) (Fin 5)
         (Some (CreatureSystem.Object 0)) (envAt 2 1000) noEffects).

End Demo.

(** ** Further vocabulary for resource nodes *)

Module NodeLifecycle.

Import ResourceSystem.

(** [k] calls of [gatherResource] on the same node with the same multiplier,
    with what each call returned, first call first. *)
Fixpoint gatherRepeatedly (k : nat) (i : nat) (amountMultiplier : number) (s : t)
  : t * list (option Drop) :=
  match k with
  | O => (s, [])
  | S k' =>
      let (s1, d) := gatherResource i amountMultiplier s in
      let (s2, ds) := gatherRepeatedly k' i amountMultiplier s1 in
      (s2, d :: ds)
  end.

(** Every depleted node has a respawn timer pending. *)
Definition timersCover (s : t) : Prop :=
  forall i n, resourceNodes s !! i = Some n -> canGather n = false ->
    exists tm, In tm (timers s) /\ timerNode tm = i.

(** No pending timer is further away than the respawn delay. *)
Definition timersDueSoon (s : t) : Prop :=
  forall tm, In tm (timers s) -> (deadline tm <= clock s + 60000)%Z.

End NodeLifecycle.

(** ** Further vocabulary for creatures *)

Module CreatureLife.

Import CreatureSystem.

(** The spawn weight of a species as a rational (0 if it is not a number). *)
Definition weightOf (sp : Species.t) : Q :=
  match Species.spawnWeight sp with Fin w => w | NaN => 0 end.

(** The sum of the spawn weights of a list of species. *)
Fixpoint weightSum (l : list Species.t) : Q :=
  match l with
  | [] => 0
  | sp :: rest => weightOf sp + weightSum rest
  end.

(** The spawn weight of a species is a number, and not negative. *)
Definition weighted (sp : Species.t) : Prop :=
  exists w, Species.spawnWeight sp = Fin w /\ 0 <= w.

(** What [spawnCreature] makes of a species at a position on land. *)
Definition freshlySpawned `{Runtime} (c : Creature) : Prop :=
  In (speciesData c) initializeSpecies
  /\ species c = Species.id (speciesData c)
  /\ health c = Species.health (speciesData c)
  /\ maxHealth c = Species.maxHealth (speciesData c)
  /\ isDead c = false
  /\ state c = idle
  /\ target c = None
  /\ velocity c = mkVector3 (Fin 0) (Fin 0) (Fin 0)
  /\ vy (position c) = getHeightAt (vx (position c)) (vz (position c))
  /\ onLand (vy (position c)) = true.

(** The number of [SpawnRandom] actions in a list. *)
Fixpoint spawnCount (acts : list Action) : nat :=
  match acts with
  | [] => 0
  | SpawnRandom _ :: rest => S (spawnCount rest)
  | _ :: rest => spawnCount rest
  end.

(** The number of creatures that the [FadeOutDone] actions of a list remove
    when the list is run from [s]. *)
Fixpoint removals `{Runtime} (acts : list Action) (s : t) : nat :=
  match acts with
  | [] => 0
  | a :: rest =>
      (length (creatures s) - length (creatures (step a s))) + removals rest (step a s)
  end.

(** The number of [Died] lines in a trace. *)
Fixpoint diedCount (tr : list (number * Event)) : nat :=
  match tr with
  | [] => 0
  | (_, Died _) :: rest => S (diedCount rest)
  | _ :: rest => diedCount rest
  end.

(** The ground items a trace asks the inventory to create, as pairs of item
    type and amount, newest first. *)
Fixpoint droppedItems (tr : list (number * Event)) : list (string * number) :=
  match tr with
  | [] => []
  | (_, CreateGroundItem ty a _ _) :: rest => (ty, a) :: droppedItems rest
  | _ :: rest => droppedItems rest
  end.

Definition dropOf (d : Species.DropItem) : string * number :=
  (Species.itemType d, Species.itemAmount d).

(** The values of [Math.random()] that the inventory draws for the ground
    items a trace asks it to create. *)
Definition idDraws (env : Env) (tr : list (number * Event)) : nat :=
  list_sum (map (fun item => groundItemDraws env (fst item)) (droppedItems tr)).

(** Every hit of a list of steps deals a damage that is a number and is not
    negative. *)
Definition hitsNonnegative (steps : list CreatureStep) : Prop :=
  Forall (fun st => match st with
                    | Hit (Fin d) _ _ => 0 <= d
                    | Hit NaN _ _ => False
                    | Tick _ _ => True
                    end) steps.

(** Two numbers are the same value (fractions are compared by value). *)
Definition sameNumber (a b : number) : Prop :=
  match a, b with
  | Fin x, Fin y => x == y
  | NaN, NaN => True
  | _, _ => False
  end.

(** A species that flees when hit: passive, or neutral with [aggroOnHit]. *)
Definition peaceful (sp : Species.t) : Prop :=
  Species.behavior sp = Species.passive
  \/ (Species.behavior sp = Species.neutral /\ Species.aggroOnHit sp = true).

(** A run of ticks, given by their lengths in seconds and what the
    surroundings are at each. *)
Definition ticksOf (l : list (Q * Env)) : list CreatureStep :=
  map (fun te => Tick (Fin (fst te)) (snd te)) l.

(** The game time in seconds that a run of ticks covers. *)
Fixpoint totalTime (l : list (Q * Env)) : Q :=
  match l with
  | [] => 0
  | te :: rest => fst te + totalTime rest
  end.

(** The creature is alive and fleeing, with [t] milliseconds left on its
    state timer. *)
Definition fleeing (t : Q) (c : Creature) : Prop :=
  isDead c = false /\ state c = flee
  /\ exists q, stateTimer c = Fin q /\ q == t.

(** What [update] makes of a creature [c]: the same creature as far as
    identity, species, health and death go; untouched if it is dead; standing
    on the terrain if it is alive. *)
Definition updated `{Runtime} (c' c : Creature) : Prop :=
  sameVitals c' c
  /\ (isDead c = true -> c' = c)
  /\ (isDead c = false ->
      vy (position c') = getHeightAt (vx (position c')) (vz (position c'))).

End CreatureLife.

(** ** JavaScript idioms of the inventory and of the player *)

Module Js.

(** [x || d] where [x] is a number that may be missing: [d] when [x] is
    [undefined], [NaN] or 0. *)
Definition orElse (x : option number) (d : number) : number :=
  match x with
  | Some (Fin q) => if Qeq_bool q 0 then d else Fin q
  | _ => d
  end.

(** [a === b] on numbers. *)
Definition strictEq (a b : number) : bool :=
  match a, b with Fin x, Fin y => Qeq_bool x y | _, _ => false end.

(** [Math.min(a, b)]. *)
Definition min (a b : number) : number :=
  match a, b with
  | Fin x, Fin y => if Qle_bool x y then Fin x else Fin y
  | _, _ => NaN
  end.

(** [Math.max(a, b)]. *)
Definition max (a b : number) : number :=
  match a, b with
  | Fin x, Fin y => if Qle_bool x y then Fin y else Fin x
  | _, _ => NaN
  end.

(** [Math.abs(a)]. *)
Definition abs (a : number) : number :=
  match a with Fin x => Fin (Qabs x) | NaN => NaN end.

(** [a / b] for a divisor that is not 0 (a quotient by 0 is an infinity,
    which [number] does not have; the one division of the source divides by
    [x || 1]). *)
Definition div (a b : number) : number :=
  match a, b with
  | Fin x, Fin y => if Qeq_bool y 0 then NaN else Fin (x / y)
  | _, _ => NaN
  end.

(** An object used as a table, and a [Map], with string keys: the entries
    in insertion order.  [get] is [Map.get], and the lookup of an own key of
    an object. *)
Fixpoint get {A : Type} (k : string) (m : list (string * A)) : option A :=
  match m with
  | [] => None
  | (k', v) :: rest => if String.eqb k k' then Some v else get k rest
  end.

(** The names that every object inherits from [Object.prototype].  What
    they hold (functions, and [Object.prototype] itself for [__proto__]) is
    truthy, and has none of the fields of an item definition. *)
Definition objectPrototype : list string :=
  ["constructor"; "__defineGetter__"; "__defineSetter__"; "hasOwnProperty";
   "__lookupGetter__"; "__lookupSetter__"; "isPrototypeOf"; "propertyIsEnumerable";
   "toString"; "valueOf"; "__proto__"; "toLocaleString"]%string.

Definition inherited (k : string) : bool := existsb (String.eqb k) objectPrototype.

(** [obj[k]] is truthy, for an object literal [obj] whose own values are
    objects: [k] is one of its own keys, or a name it inherits. *)
Definition has {A : Type} (k : string) (obj : list (string * A)) : bool :=
  match get k obj with
  | Some _ => true
  | None => inherited k
  end.

(** [Map.set]: the value of an existing key is replaced where it is, a new
    key goes to the end. *)
Fixpoint set {A : Type} (k : string) (v : A) (m : list (string * A))
  : list (string * A) :=
  match m with
  | [] => [(k, v)]
  | (k', v') :: rest =>
      if String.eqb k k' then (k, v) :: rest else (k', v') :: set k v rest
  end.

(** [Map.delete]. *)
Fixpoint delete {A : Type} (k : string) (m : list (string * A))
  : list (string * A) :=
  match m with
  | [] => []
  | (k', v') :: rest =>
      if String.eqb k k' then delete k rest else (k', v') :: delete k rest
  end.

End Js.

(** ** [src/inventory.js]

    The class [Inventory]: the stacks of the player ([items], a [Map] from
    item type to count), the items lying on the ground, and the hotbar
    selection.  The DOM (slots, messages, prompts), the meshes of ground
    items and [localStorage] are not modelled. *)

Module Inventory.

(** The [type] and [toolType] of an item definition. *)
Inductive ItemClass : Type := resource | tool | material | placeable.

Inductive ToolType : Type := pickaxe | axe | light.

Record Bonus : Type := mkBonus {
  amountMultiplier : number;
  speedMultiplier : number
}.

(** An item definition.  [icon], [color] and [description] only feed the
    display and are left out.  [gatherBonus] is empty where the source has
    none. *)
Record ItemData : Type := mkItemData {
  name : string;
  type : ItemClass;
  toolType : option ToolType;
  gatherBonus : list (string * Bonus)
}.

(** [this.itemData], as the constructor fills it.  ([registerLootItem] of the
    creature system adds meat, hide and fang if they are missing; they never
    are.) *)
Definition itemData : list (string * ItemData) :=
  [("wood"%string, mkItemData "Wood" resource None []);
   ("stone"%string, mkItemData "Stone" resource None []);
   ("fiber"%string, mkItemData "Fiber" resource None []);
   ("meat"%string, mkItemData "Meat" resource None []);
   ("hide"%string, mkItemData "Hide" resource None []);
   ("fang"%string, mkItemData "Fang" resource None []);
   ("wooden_pickaxe"%string,
    mkItemData "Wooden Pickaxe" tool (Some pickaxe)
               [("rock"%string, mkBonus (Fin 1.5) (Fin 1.5))]);
   ("stone_axe"%string,
    mkItemData "Stone Axe" tool (Some axe) [("tree"%string, mkBonus (Fin 2) (Fin 2))]);
   ("stone_pickaxe"%string,
    mkItemData "Stone Pickaxe" tool (Some pickaxe)
               [("rock"%string, mkBonus (Fin 2) (Fin 2.5))]);
   ("rope"%string, mkItemData "Rope" material None []);
   ("torch"%string, mkItemData "Torch" tool (Some light) []);
   ("campfire"%string, mkItemData "Campfire" placeable None [])].

Record GroundItem : Type := mkGroundItem {
  id : number;
  itemType : string;
  amount : number;
  position : Vector3;
  bobTimer : number
}.

(** The inventory, and with it how many values of [Math.random()] its
    methods have drawn. *)
Record t : Type := mkInventory {
  items : list (string * number);
  selectedSlot : nat;
  groundItems : list GroundItem;
  randomCalls : nat
}.

(** What the inventory reads from its surroundings during one call. *)
Record Env : Type := mkEnv {
  (** [window.game?.player], by its position *)
  player : option Vector3;
  (** [window.game?.scene] and [window.game?.terrain] are there *)
  world : bool;
  (** [Date.now()] *)
  now : number
}.

Definition maxStackSize : number := Fin 99.
Definition pickupRange : number := Fin 3.

(** The inventory of the constructor when nothing has been saved. *)
Definition empty : t := mkInventory [] 0 [] 0.

Definition setItems (m : list (string * number)) (inv : t) : t :=
  mkInventory m (selectedSlot inv) (groundItems inv) (randomCalls inv).

Definition setGroundItems (l : list GroundItem) (inv : t) : t :=
  mkInventory (items inv) (selectedSlot inv) l (randomCalls inv).

Definition setRandomCalls (n : nat) (inv : t) : t :=
  mkInventory (items inv) (selectedSlot inv) (groundItems inv) n.

Definition setSelectedSlot (n : nat) (inv : t) : t :=
  mkInventory (items inv) n (groundItems inv) (randomCalls inv).

Definition setAmount (a : number) (item : GroundItem) : GroundItem :=
  mkGroundItem (id item) (itemType item) a (position item) (bobTimer item).

Definition setBobTimer (b : number) (item : GroundItem) : GroundItem :=
  mkGroundItem (id item) (itemType item) (amount item) (position item) b.

(** [getSelectedItem()]: the entry of [items] at the selected slot. *)
Definition getSelectedItem (inv : t) : option (string * number) :=
  items inv !! selectedSlot inv.

(** [getSelectedTool()].  (What [itemData] inherits under a name has no
    [type], so it is no tool.) *)
Definition getSelectedTool (inv : t) : option ItemData :=
  match getSelectedItem inv with
  | None => None
  | Some (ty, _) =>
      match Js.get ty itemData with
      | Some data => match type data with tool => Some data | _ => None end
      | None => None
      end
  end.

(** [getItemCount(itemType)]. *)
Definition getItemCount (itemType : string) (inv : t) : number :=
  Js.orElse (Js.get itemType (items inv)) (Fin 0).

(** [hasItem(itemType, amount)]. *)
Definition hasItem (itemType : string) (amount : number) (inv : t) : bool :=
  Num.geb (Js.orElse (Js.get itemType (items inv)) (Fin 0)) amount.

(** [hasRoom(itemType, amount)]. *)
Definition hasRoom (itemType : string) (amount : number) (inv : t) : bool :=
  let currentAmount := Js.orElse (Js.get itemType (items inv)) (Fin 0) in
  Num.leb (Num.add currentAmount amount) maxStackSize.

(** [getRoomFor(itemType)]. *)
Definition getRoomFor (itemType : string) (inv : t) : number :=
  let currentAmount := Js.orElse (Js.get itemType (items inv)) (Fin 0) in
  Num.sub maxStackSize currentAmount.

(** [createGroundItem(itemType, amount, x, z)]. *)
Definition createGroundItem `{Runtime} (itemType : string) (amount x z : number)
    (env : Env) (inv : t) : t :=
  if negb (Js.has itemType itemData) then inv
  else if negb (world env) then inv
  else
    let y := getHeightAt x z in
    let groundItem :=
      mkGroundItem (Num.add (now env) (random (randomCalls inv))) itemType amount
                   (mkVector3 x (Num.add y (Fin 0.5)) z) (Fin 0) in
    mkInventory (items inv) (selectedSlot inv) (groundItems inv ++ [groundItem])
                (S (randomCalls inv)).

(** [dropItemOnGround(itemType, amount)]: in front of the player, scattered. *)
Definition dropItemOnGround `{Runtime} (itemType : string) (amount : number)
    (env : Env) (inv : t) : t :=
  match player env with
  | None => inv
  | Some playerPos =>
      let forwardOffset := Fin 2 in
      let r1 := random (randomCalls inv) in
      let r2 := random (S (randomCalls inv)) in
      let offsetX :=
        Num.add (Num.mul (Num.sub r1 (Fin 0.5)) (Fin 1.5)) forwardOffset in
      let offsetZ := Num.mul (Num.sub r2 (Fin 0.5)) (Fin 1.5) in
      createGroundItem itemType amount
                       (Num.add (vx playerPos) offsetX) (Num.add (vz playerPos) offsetZ)
                       env (setRandomCalls (S (S (randomCalls inv))) inv)
  end.

(** [addItem(itemType, amount)], with what it returns. *)
Definition addItem `{Runtime} (itemType : string) (amount : number) (env : Env)
    (inv : t) : bool * t :=
  if negb (Js.has itemType itemData) then (false, inv)
  else
    let currentAmount := Js.orElse (Js.get itemType (items inv)) (Fin 0) in
    let roomAvailable := Num.sub maxStackSize currentAmount in
    if Num.leb roomAvailable (Fin 0)
    then (false, dropItemOnGround itemType amount env inv)
    else if Num.gtb amount roomAvailable
    then
      let inv1 := setItems (Js.set itemType maxStackSize (items inv)) inv in
      let leftover := Num.sub amount roomAvailable in
      (true, dropItemOnGround itemType leftover env inv1)
    else
      let newAmount := Num.add currentAmount amount in
      (true, setItems (Js.set itemType newAmount (items inv)) inv).

(** [removeItem(itemType, amount)], with what it returns. *)
Definition removeItem (itemType : string) (amount : number) (inv : t) : bool * t :=
  let currentAmount := Js.orElse (Js.get itemType (items inv)) (Fin 0) in
  if Num.ltb currentAmount amount then (false, inv)
  else
    let newAmount := Num.sub currentAmount amount in
    (true,
     setItems (if Js.strictEq newAmount (Fin 0)
               then Js.delete itemType (items inv)
               else Js.set itemType newAmount (items inv)) inv).

(** [dropSelectedItem(amount)]; [None] is the amount ["all"]. *)
Definition dropSelectedItem `{Runtime} (amount : option number) (env : Env) (inv : t)
  : t :=
  match getSelectedItem inv with
  | None => inv
  | Some (ty, count) =>
      let dropCount :=
        match amount with
        | None => count
        | Some a => Js.min a count
        end in
      let (removed, inv1) := removeItem ty dropCount inv in
      if removed then dropItemOnGround ty dropCount env inv1 else inv1
  end.

(** [attemptPickup(item, index)], the item being the one at [index]. *)
Definition attemptPickup (index : nat) (inv : t) : t :=
  match groundItems inv !! index with
  | None => inv
  | Some item =>
      let roomAvailable := getRoomFor (itemType item) inv in
      if Num.leb roomAvailable (Fin 0)
      then setRandomCalls (S (randomCalls inv)) inv
      else
        let amountToPickup := Js.min (amount item) roomAvailable in
        let currentAmount := Js.orElse (Js.get (itemType item) (items inv)) (Fin 0) in
        let items' :=
          Js.set (itemType item) (Num.add currentAmount amountToPickup) (items inv) in
        let item' := setAmount (Num.sub (amount item) amountToPickup) item in
        let groundItems' :=
          if Num.leb (amount item') (Fin 0)
          then base.delete index (groundItems inv)
          else <[index := item']> (groundItems inv) in
        mkInventory items' (selectedSlot inv) groundItems' (randomCalls inv)
  end.

(** The body of the loop of [updateGroundItems], for the item at index [i]. *)
Definition visitGroundItem `{Runtime} (i : nat) (deltaTime : number)
    (playerPos : Vector3) (inv : t) : t :=
  match groundItems inv !! i with
  | None => inv
  | Some item =>
      let item1 :=
        setBobTimer (Num.add (bobTimer item) (Num.mul deltaTime (Fin 3))) item in
      let inv1 := setGroundItems (<[i := item1]> (groundItems inv)) inv in
      if Num.ltb (distanceTo playerPos (position item1)) pickupRange
      then attemptPickup i inv1
      else inv1
  end.

(** The loop of [updateGroundItems]: the indices below [n], from the last
    down to the first. *)
Fixpoint updateGroundItemsFrom `{Runtime} (n : nat) (deltaTime : number)
    (playerPos : Vector3) (inv : t) : t :=
  match n with
  | O => inv
  | S i =>
      updateGroundItemsFrom i deltaTime playerPos
        (visitGroundItem i deltaTime playerPos inv)
  end.

(** [updateGroundItems(deltaTime)]. *)
Definition updateGroundItems `{Runtime} (deltaTime : number) (env : Env) (inv : t)
  : t :=
  match player env with
  | None => inv
  | Some playerPos =>
      updateGroundItemsFrom (length (groundItems inv)) deltaTime playerPos inv
  end.

(** What can be done to an inventory. *)
Inductive Action : Type :=
| AddItem (itemType : string) (amount : number)
| RemoveItem (itemType : string) (amount : number)
| DropSelected (amount : option number)
| SelectSlot (slot : nat)
| CreateGroundItem (itemType : string) (amount x z : number)
| UpdateGroundItems (deltaTime : number).

Definition step `{Runtime} (a : Action * Env) (inv : t) : t :=
  let (act, env) := a in
  match act with
  | AddItem ty amount => snd (addItem ty amount env inv)
  | RemoveItem ty amount => snd (removeItem ty amount inv)
  | DropSelected amount => dropSelectedItem amount env inv
  | SelectSlot slot => setSelectedSlot slot inv
  | CreateGroundItem ty amount x z => createGroundItem ty amount x z env inv
  | UpdateGroundItems deltaTime => updateGroundItems deltaTime env inv
  end.

Fixpoint run `{Runtime} (acts : list (Action * Env)) (inv : t) : t :=
  match acts with
  | [] => inv
  | a :: rest => run rest (step a inv)
  end.

(** The count of a stack as a rational. *)
Definition held (itemType : string) (inv : t) : Q :=
  match getItemCount itemType inv with Fin q => q | NaN => 0 end.

Definition amountOf (item : GroundItem) : Q :=
  match amount item with Fin q => q | NaN => 0 end.

(** What a ground item counts for an item type: its amount if it is of that
    type. *)
Definition share (itemType : string) (item : GroundItem) : Q :=
  if String.eqb itemType (Inventory.itemType item) then amountOf item else 0.

(** How much of an item type lies on the ground. *)
Fixpoint lying (itemType : string) (l : list GroundItem) : Q :=
  match l with
  | [] => 0
  | item :: rest => share itemType item + lying itemType rest
  end.

Definition onGround (itemType : string) (inv : t) : Q :=
  lying itemType (groundItems inv).

Definition total (itemType : string) (inv : t) : Q :=
  held itemType inv + onGround itemType inv.

(** Every amount on the ground is a number, and not negative. *)
Definition groundAmounts (inv : t) : Prop :=
  Forall (fun item => exists a, amount item = Fin a /\ 0 <= a) (groundItems inv).

(** Every stack holds a number between 0 and [maxStackSize]. *)
Definition stacksWithin (inv : t) : Prop :=
  Forall (fun kv : string * number =>
            exists q, snd kv = Fin q /\ 0 <= q /\ q <= 99) (items inv).

(** Every stack and every item on the ground is of an item type that
    [itemData] has a property for, its own or an inherited one. *)
Definition knownTypes (inv : t) : Prop :=
  Forall (fun kv : string * number => Js.has (fst kv) itemData = true) (items inv)
  /\ Forall (fun item => Js.has (itemType item) itemData = true) (groundItems inv).

(** The game is running: the player, the scene and the terrain are there. *)
Definition running (env : Env) : Prop :=
  is_Some (player env) /\ world env = true.

Definition isRunning (env : Env) : bool :=
  match player env with Some _ => world env | None => false end.

(** [this.itemData[itemType]] is truthy. *)
Definition isKnown (itemType : string) : bool := Js.has itemType itemData.

(** What [dropItemOnGround] puts on the ground of an amount [a]: all of it
    when the game is running and the item type is known, else nothing. *)
Definition amountDropped (itemType : string) (a : Q) (env : Env) : Q :=
  if isRunning env && isKnown itemType then a else 0.

(** The ground item is within pickup range of [playerPos]. *)
Definition inReach `{Runtime} (playerPos : Vector3) (item : GroundItem) : Prop :=
  Num.lt (distanceTo playerPos (position item)) pickupRange.

(** The amounts an action passes are numbers and are not negative. *)
Definition amountsNonnegative (act : Action) : Prop :=
  match act with
  | AddItem _ (Fin a) | RemoveItem _ (Fin a) | DropSelected (Some (Fin a))
  | CreateGroundItem _ (Fin a) _ _ => 0 <= a
  | AddItem _ NaN | RemoveItem _ NaN | DropSelected (Some NaN)
  | CreateGroundItem _ NaN _ _ => False
  | DropSelected None | SelectSlot _ | UpdateGroundItems _ => True
  end.

End Inventory.

(** ** The player: gathering, combat and death

    The part of the class [Player] ([src/unnamed/part_001]) that calls into
    the resource system, the creature system and the inventory, and its
    health with the respawn that follows a death.  Movement, collisions and
    the DOM are not modelled. *)

Module Player.

(** What a pending [setTimeout] of the player does when it runs: the one of
    the constructor places the player, the one of [die()] also restores the
    health. *)
Inductive Callback : Type := Spawn | Respawn.

Record t : Type := mkPlayer {
  position : Vector3;
  health : number;
  maxHealth : number;
  lastGatherTime : number;
  (** the node held in [nearestResource], by its index *)
  nearestResource : option nat;
  lastAttackTime : number;
  (** the pending [setTimeout] callbacks of the player, oldest first, each
      with the milliseconds left until it runs *)
  timers : list (Z * Callback);
  (** how many values of [Math.random()] the player's methods have drawn *)
  randomCalls : nat
}.

Definition gatherRange : number := Fin 5.
Definition gatherCooldown : number := Fin 500.
Definition attackDamage : number := Fin 10.
Definition attackRange : number := Fin 3.
Definition attackCooldown : number := Fin 1000.
Definition respawnDelay : Z := 3000.

(** The player of the constructor, which places the player 400 ms later. *)
Definition initial : t :=
  mkPlayer (mkVector3 (Fin 0) (Fin 50) (Fin 0)) (Fin 100) (Fin 100) (Fin 0) None (Fin 0)
           [(400%Z, Spawn)] 0.

Definition setPosition (v : Vector3) (p : t) : t :=
  mkPlayer v (health p) (maxHealth p) (lastGatherTime p) (nearestResource p)
           (lastAttackTime p) (timers p) (randomCalls p).

Definition setHealth (h : number) (p : t) : t :=
  mkPlayer (position p) h (maxHealth p) (lastGatherTime p) (nearestResource p)
           (lastAttackTime p) (timers p) (randomCalls p).

Definition setLastGatherTime (tm : number) (p : t) : t :=
  mkPlayer (position p) (health p) (maxHealth p) tm (nearestResource p)
           (lastAttackTime p) (timers p) (randomCalls p).

Definition setNearestResource (n : option nat) (p : t) : t :=
  mkPlayer (position p) (health p) (maxHealth p) (lastGatherTime p) n
           (lastAttackTime p) (timers p) (randomCalls p).

Definition setLastAttackTime (tm : number) (p : t) : t :=
  mkPlayer (position p) (health p) (maxHealth p) (lastGatherTime p)
           (nearestResource p) tm (timers p) (randomCalls p).

Definition setTimers (l : list (Z * Callback)) (p : t) : t :=
  mkPlayer (position p) (health p) (maxHealth p) (lastGatherTime p)
           (nearestResource p) (lastAttackTime p) l (randomCalls p).

Definition setRandomCalls (n : nat) (p : t) : t :=
  mkPlayer (position p) (health p) (maxHealth p) (lastGatherTime p)
           (nearestResource p) (lastAttackTime p) (timers p) n.

(** The loop of [findSpawnPosition()], by the attempts that are left, from
    the [n]-th value of [Math.random()] on: a point of land between the
    heights 0 and 10 around which the terrain rises or falls by less than 3
    within 3 units (the two nested tests of the source are one conjunction
    here); after the last attempt, the world centre.  The result is the
    position, 3 above the terrain, and the number of values drawn by
    then. *)
Fixpoint findSpawnPositionFrom `{Runtime} (attemptsLeft : nat) (n : nat)
  : Vector3 * nat :=
  match attemptsLeft with
  | O =>
      let height := getHeightAt (Fin 0) (Fin 0) in
      (mkVector3 (Fin 0) (Num.add height (Fin 3)) (Fin 0), n)
  | S k =>
      let x := Num.mul (Num.sub (random n) (Fin 0.5)) (Fin 60) in
      let z := Num.mul (Num.sub (random (S n)) (Fin 0.5)) (Fin 60) in
      let height := getHeightAt x z in
      let h1 := getHeightAt (Num.add x (Fin 3)) z in
      let h2 := getHeightAt (Num.sub x (Fin 3)) z in
      let h3 := getHeightAt x (Num.add z (Fin 3)) in
      let h4 := getHeightAt x (Num.sub z (Fin 3)) in
      let maxDiff :=
        Js.max (Js.max (Js.max (Js.abs (Num.sub height h1))
                               (Js.abs (Num.sub height h2)))
                       (Js.abs (Num.sub height h3)))
               (Js.abs (Num.sub height h4)) in
      if Num.gtb height (Fin 0) && Num.ltb height (Fin 10) && Num.ltb maxDiff (Fin 3)
      then (mkVector3 x (Num.add height (Fin 3)) z, S (S n))
      else findSpawnPositionFrom k (S (S n))
  end.

(** [findSpawnPosition()]: at most 50 attempts. *)
Definition findSpawnPosition `{Runtime} (n : nat) : Vector3 * nat :=
  findSpawnPositionFrom 50 n.

(** A callback of the player runs: the player is placed anew, and after
    [die()] is back at full health. *)
Definition runCallback `{Runtime} (cb : Callback) (p : t) : t :=
  let p1 := match cb with
            | Respawn => setHealth (maxHealth p) p
            | Spawn => p
            end in
  let (pos, n) := findSpawnPosition (randomCalls p1) in
  setRandomCalls n (setPosition pos p1).

(** [die()]: the respawn is set for 3000 ms later. *)
Definition die (p : t) : t := setTimers (timers p ++ [(respawnDelay, Respawn)]) p.

(** [takeDamage(damage)], and whether it ended in [die()]. *)
Definition takeDamage (damage : number) (p : t) : t * bool :=
  let h := Num.sub (health p) damage in
  let h' := if Num.ltb h (Fin 0) then Fin 0 else h in
  let p1 := setHealth h' p in
  if Num.leb h' (Fin 0) then (die p1, true) else (p1, false).

(** [dt] milliseconds pass: the callbacks whose time has come run, oldest
    first, and leave the queue. *)
Definition advance `{Runtime} (dt : N) (p : t) : t :=
  let left := map (fun tc : Z * Callback => ((fst tc - Z.of_N dt)%Z, snd tc)) (timers p) in
  let due := List.filter (fun tc : Z * Callback => (fst tc <=? 0)%Z) left in
  let pending := List.filter (fun tc : Z * Callback => (0 <? fst tc)%Z) left in
  fold_left (fun q tc => runCallback (snd tc) q) due (setTimers pending p).

Fixpoint takeDamages (damages : list number) (p : t) : t :=
  match damages with
  | [] => p
  | d :: rest => takeDamages rest (fst (takeDamage d p))
  end.

Record Bonuses : Type := mkBonuses {
  amountMultiplier : number;
  speedMultiplier : number;
  tool : option Inventory.ItemData
}.

(** [getGatheringBonuses(resourceType)].  (A resource type that is a name
    [gatherBonus] inherits finds no multipliers there, which gives 1 and 1
    as well.) *)
Definition getGatheringBonuses (resourceType : string) (inv : Inventory.t) : Bonuses :=
  let tool := Inventory.getSelectedTool inv in
  match tool with
  | Some data =>
      match Js.get resourceType (Inventory.gatherBonus data) with
      | Some bonus =>
          mkBonuses (Js.orElse (Some (Inventory.amountMultiplier bonus)) (Fin 1))
                    (Js.orElse (Some (Inventory.speedMultiplier bonus)) (Fin 1))
                    tool
      | None => mkBonuses (Fin 1) (Fin 1) tool
      end
  | None => mkBonuses (Fin 1) (Fin 1) tool
  end.

(** The damage of a hit, in [attemptAttack]: an axe adds half, a pickaxe a
    fifth. *)
Definition hitDamage (inv : Inventory.t) : number :=
  match Inventory.getSelectedTool inv with
  | Some data =>
      match Inventory.toolType data with
      | Some Inventory.axe => Num.mul attackDamage (Fin 1.5)
      | Some Inventory.pickaxe => Num.mul attackDamage (Fin 1.2)
      | _ => attackDamage
      end
  | None => attackDamage
  end.

(** The sum of a list of damages. *)
Fixpoint sumOf (l : list Q) : Q :=
  match l with
  | [] => 0
  | d :: rest => d + sumOf rest
  end.

End Player.

(** ** The game while it runs

    The player, the resource system, the inventory and the creature system
    as [window.game] holds them once the game loop runs: every
    [window.game?.x] test of the source succeeds, the player of the creature
    system and of the inventory is the player, and a call that the creature
    system makes into the inventory or the player (recorded as an event of
    its trace) reaches them.  One call of the game loop happens at one time
    [now]: that is what [Date.now()] returns throughout the call. *)

Module Game.

Record t : Type := mkGame {
  player : Player.t;
  resourceSystem : ResourceSystem.t;
  inventory : Inventory.t;
  creatureSystem : CreatureSystem.t;
  (** how many times [die()] has been called *)
  deaths : nat
}.

Definition setPlayer (p : Player.t) (g : t) : t :=
  mkGame p (resourceSystem g) (inventory g) (creatureSystem g) (deaths g).

Definition setInventory (inv : Inventory.t) (g : t) : t :=
  mkGame (player g) (resourceSystem g) inv (creatureSystem g) (deaths g).

Definition setResourceSystem (rs : ResourceSystem.t) (g : t) : t :=
  mkGame (player g) rs (inventory g) (creatureSystem g) (deaths g).

Definition setCreatureSystem (cs : CreatureSystem.t) (g : t) : t :=
  mkGame (player g) (resourceSystem g) (inventory g) cs (deaths g).

(** The player object, as the attacker that [attemptAttack] passes. *)
Definition thePlayer : CreatureSystem.Ref := CreatureSystem.Object 0.

(** What the inventory and the creature system see of the game at time
    [now]. *)
Definition inventoryEnv (now : number) (g : t) : Inventory.Env :=
  Inventory.mkEnv (Some (Player.position (player g))) true now.

Definition creatureEnv (now : number) (g : t) : CreatureSystem.Env :=
  CreatureSystem.mkEnv (Player.position (player g)) now true
                       (fun ty => if Inventory.isKnown ty then 1%nat else 0%nat) true.

(** The calls that the creature system made into its collaborators between
    two of its states, oldest first. *)
Definition newEvents (before after : CreatureSystem.t) : list CreatureSystem.Event :=
  map snd
      (rev (take (length (CreatureSystem.trace (CreatureSystem.effects after))
                  - length (CreatureSystem.trace (CreatureSystem.effects before)))
                 (CreatureSystem.trace (CreatureSystem.effects after)))).

(** One such call reaches its collaborator. *)
Definition deliver `{Runtime} (now : number) (g : t) (ev : CreatureSystem.Event) : t :=
  match ev with
  | CreatureSystem.CreateGroundItem ty amount x z =>
      setInventory
        (Inventory.createGroundItem ty amount x z (inventoryEnv now g) (inventory g)) g
  | CreatureSystem.PlayerTakeDamage damage =>
      let (p, died) := Player.takeDamage damage (player g) in
      mkGame p (resourceSystem g) (inventory g) (creatureSystem g)
             (if died then S (deaths g) else deaths g)
  | _ => g
  end.

Definition deliverAll `{Runtime} (now : number) (evs : list CreatureSystem.Event)
    (g : t) : t :=
  fold_left (deliver now) evs g.

(** [attemptGather()] at time [now]. *)
Definition attemptGather `{Runtime} (now : number) (g : t) : t :=
  let p := player g in
  match Player.nearestResource p with
  | None => g
  | Some i =>
      match ResourceSystem.resourceNodes (resourceSystem g) !! i with
      | None => g
      | Some node =>
          let bonuses :=
            Player.getGatheringBonuses (ResourceSystem.type node) (inventory g) in
          let effectiveCooldown :=
            Js.div Player.gatherCooldown (Player.speedMultiplier bonuses) in
          if Num.ltb (Num.sub now (Player.lastGatherTime p)) effectiveCooldown
          then g
          else
            let (rs, resource) :=
              ResourceSystem.gatherResource i (Player.amountMultiplier bonuses)
                                            (resourceSystem g) in
            match resource with
            | Some drop =>
                let inv :=
                  snd (Inventory.addItem (ResourceSystem.dropType drop)
                                         (ResourceSystem.amount drop)
                                         (inventoryEnv now g) (inventory g)) in
                mkGame (Player.setLastGatherTime now p) rs inv (creatureSystem g)
                       (deaths g)
            | None => setResourceSystem rs g
            end
      end
  end.

(** [updateResourceGathering()], with whether the gather key is down. *)
Definition updateResourceGathering `{Runtime} (gatherKey : bool) (now : number)
    (g : t) : t :=
  let nearest :=
    ResourceSystem.getClosestNode (Player.position (player g)) Player.gatherRange
                                  (resourceSystem g) in
  let g1 := setPlayer (Player.setNearestResource nearest (player g)) g in
  match nearest with
  | Some _ => if gatherKey then attemptGather now g1 else g1
  | None => g1
  end.

(** [attemptAttack()] at time [now]. *)
Definition attemptAttack `{Runtime} (now : number) (g : t) : t :=
  let p := player g in
  if Num.ltb (Num.sub now (Player.lastAttackTime p)) Player.attackCooldown
  then g
  else
    match CreatureSystem.getClosestCreature (Player.position p) Player.attackRange
                                            (creatureSystem g) with
    | None => g
    | Some target =>
        let damage := Player.hitDamage (inventory g) in
        let cs :=
          CreatureSystem.damageCreatureAt target damage (Some thePlayer)
                                          (creatureEnv now g) (creatureSystem g) in
        deliverAll now (newEvents (creatureSystem g) cs)
                   (mkGame (Player.setLastAttackTime now p) (resourceSystem g)
                           (inventory g) cs (deaths g))
    end.

(** [creatureSystem.update(deltaTime)] in the game loop. *)
Definition updateCreatures `{Runtime} (deltaTime now : number) (g : t) : t :=
  let cs := CreatureSystem.update deltaTime (creatureEnv now g) (creatureSystem g) in
  deliverAll now (newEvents (creatureSystem g) cs) (setCreatureSystem cs g).

(** [inventory.updateGroundItems(deltaTime)] in the game loop. *)
Definition updateGroundItems `{Runtime} (deltaTime now : number) (g : t) : t :=
  setInventory
    (Inventory.updateGroundItems deltaTime (inventoryEnv now g) (inventory g)) g.

(** What can happen in the running game.  The player's position and the
    hotbar slot are changed by input; the rest are the calls of the game
    loop and the callbacks of the browser. *)
Inductive Action : Type :=
| Move (pos : Vector3)
| SelectSlot (slot : nat)
| Gathering (gatherKey : bool) (now : number)
| Attack (now : number)
| Creatures (deltaTime now : number)
| GroundItems (deltaTime now : number)
| Wait (dt : N)
| FadeOutDone (i : nat)
| SpawnRandom (now : number).

Definition step `{Runtime} (a : Action) (g : t) : t :=
  match a with
  | Move pos => setPlayer (Player.setPosition pos (player g)) g
  | SelectSlot slot => setInventory (Inventory.setSelectedSlot slot (inventory g)) g
  | Gathering gatherKey now => updateResourceGathering gatherKey now g
  | Attack now => attemptAttack now g
  | Creatures deltaTime now => updateCreatures deltaTime now g
  | GroundItems deltaTime now => updateGroundItems deltaTime now g
  | Wait dt =>
      setPlayer (Player.advance dt (player g))
                (setResourceSystem (ResourceSystem.advance dt (resourceSystem g)) g)
  | FadeOutDone i =>
      setCreatureSystem (CreatureSystem.fadeOutDone i (creatureSystem g)) g
  | SpawnRandom now =>
      setCreatureSystem
        (CreatureSystem.step (CreatureSystem.SpawnRandom (creatureEnv now g))
                             (creatureSystem g)) g
  end.

Fixpoint run `{Runtime} (acts : list Action) (g : t) : t :=
  match acts with
  | [] => g
  | a :: rest => run rest (step a g)
  end.

(** The damages of the [takeDamage] calls among the calls of the creature
    system. *)
Fixpoint damagesOf (evs : list CreatureSystem.Event) : list number :=
  match evs with
  | [] => []
  | CreatureSystem.PlayerTakeDamage damage :: rest => damage :: damagesOf rest
  | _ :: rest => damagesOf rest
  end.

(** The times at which creatures took a hit, newest first. *)
Fixpoint hitTimes (tr : list (number * CreatureSystem.Event)) : list number :=
  match tr with
  | [] => []
  | (tm, CreatureSystem.TookDamage _ _ _) :: rest => tm :: hitTimes rest
  | _ :: rest => hitTimes rest
  end.

(** Between two successive times of a list (newest first) no less than
    [cooldown] passes. *)
Fixpoint apartBy (cooldown : number) (times : list number) : Prop :=
  match times with
  | newer :: (older :: _) as rest =>
      ~ Num.lt (Num.sub newer older) cooldown /\ apartBy cooldown rest
  | _ => True
  end.

End Game.

(** ** The resource nodes of the world ([src/environment.js])

    The class [EnvironmentGenerator] places the trees, rocks and plants.
    What it takes from the terrain is a field of the class [Terrain]. *)

Class Terrain : Type := {
  (** [this.terrain.mesh] is there *)
  meshPresent : bool;
  (** the first hit of a ray cast straight down onto the terrain mesh at
      [(x, z)]: its height, and the normal of the surface in world space *)
  raycast : number -> number -> option (number * Vector3);
  (** how many values of [Math.random()] the mesh of a new node of a type
      takes *)
  meshRandomCalls : string -> nat
}.

Module Environment.

Record TerrainInfo : Type := mkInfo { height : number; normal : Vector3 }.

Definition waterLevel : number := Fin (-2.5).

(** [this.terrain.terrainSize]. *)
Definition terrainSize : number := Fin 200.

Definition treeCount : nat := 40.
Definition rockCount : nat := 30.
Definition plantCount : nat := 50.

(** [getTerrainInfo(x, z)]. *)
Definition getTerrainInfo `{Terrain} (x z : number) : option TerrainInfo :=
  if meshPresent
  then match raycast x z with
       | Some (h, n) => Some (mkInfo h n)
       | None => None
       end
  else None.

(** [THREE.Vector3.dot]. *)
Definition dot (a b : Vector3) : number :=
  Num.add (Num.add (Num.mul (vx a) (vx b)) (Num.mul (vy a) (vy b)))
          (Num.mul (vz a) (vz b)).

(** [calculateSlope(normal)]. *)
Definition calculateSlope (normal : Vector3) : number :=
  let worldUp := mkVector3 (Fin 0) (Fin 1) (Fin 0) in
  Num.sub (Fin 1) (dot normal worldUp).

(** [isValidPlacement(x, z, objectType)]. *)
Definition isValidPlacement `{Terrain} (x z : number) (objectType : string) : bool :=
  match getTerrainInfo x z with
  | None => false
  | Some info =>
      let height := height info in
      let slope := calculateSlope (normal info) in
      if String.eqb objectType "tree"
      then
        if Num.ltb height (Num.add waterLevel (Fin 2)) then false
        else if Num.gtb height (Fin 12) then false
        else if Num.gtb slope (Fin 0.25) then false
        else true
      else if String.eqb objectType "rock"
      then
        if Num.ltb height (Num.add waterLevel (Fin 0.5)) then false
        else if Num.gtb slope (Fin 0.5) then false
        else true
      else if String.eqb objectType "plant"
      then
        if Num.ltb height (Num.add waterLevel (Fin 1.5)) then false
        else if Num.gtb height (Fin 10) then false
        else if Num.gtb slope (Fin 0.35) then false
        else true
      else false
  end.

(** The resource system while the world is generated, and how many values
    of [Math.random()] have been drawn. *)
Record t : Type := mkWorld {
  resourceSystem : ResourceSystem.t;
  randomCalls : nat
}.

(** The loop of [generateTrees], [generateRocks] and [generatePlants]:
    [while (placed < count && attempts < maxAttempts)], by the attempts and
    the placements that are left. *)
Fixpoint placeFrom `{Runtime} `{Terrain} (attemptsLeft toPlace : nat)
    (objectType : string) (spread : number) (w : t) : t :=
  match attemptsLeft with
  | O => w
  | S k =>
      match toPlace with
      | O => w
      | S m =>
          let x :=
            Num.mul (Num.mul (Num.sub (random (randomCalls w)) (Fin 0.5)) terrainSize)
                    spread in
          let z :=
            Num.mul (Num.mul (Num.sub (random (S (randomCalls w))) (Fin 0.5))
                             terrainSize)
                    spread in
          let w1 := mkWorld (resourceSystem w) (S (S (randomCalls w))) in
          if isValidPlacement x z objectType
          then
            match getTerrainInfo x z with
            | Some info =>
                let rs :=
                  fst (ResourceSystem.createResourceNode objectType x (height info) z
                                                         (resourceSystem w1)) in
                placeFrom k m objectType spread
                          (mkWorld rs (randomCalls w1 + meshRandomCalls objectType))
            | None => placeFrom k toPlace objectType spread w1
            end
          else placeFrom k toPlace objectType spread w1
      end
  end.

Definition generateTrees `{Runtime} `{Terrain} (w : t) : t :=
  placeFrom (treeCount * 20) treeCount "tree" (Fin 0.6) w.

Definition generateRocks `{Runtime} `{Terrain} (w : t) : t :=
  placeFrom (rockCount * 20) rockCount "rock" (Fin 0.7) w.

Definition generatePlants `{Runtime} `{Terrain} (w : t) : t :=
  placeFrom (plantCount * 20) plantCount "plant" (Fin 0.65) w.

(** [generateResourceNodes()]. *)
Definition generateResourceNodes `{Runtime} `{Terrain} (w : t) : t :=
  if meshPresent
  then generatePlants (generateRocks (generateTrees w))
  else w.




End Environment.

(** ** A concrete game for examples *)

Module Play.

(** The game is running, the player stands at the origin, and the clock
    shows [time]. *)
Definition here (time : Q) : Inventory.Env :=
  Inventory.mkEnv (Some Demo.origin) true (Fin time).

(** 120 wood arrive at once, 50 are used, 10 are dropped, and the player
    walks over the ground. *)
Definition woodcutting : list (Inventory.Action * Inventory.Env) :=
  [(Inventory.AddItem "wood" (Fin 120), here 1000);
   (Inventory.RemoveItem "wood" (Fin 50), here 2000);
   (Inventory.DropSelected (Some (Fin 10)), here 3000);
   (Inventory.UpdateGroundItems (Fin 0.016), here 4000)].

(** 99 wood in the stack and 21 on the ground, then 50 taken out. *)
Definition woodOnGround : Inventory.t :=
  Inventory.run (H := Demo.calm)
    [(Inventory.AddItem "wood" (Fin 120), here 1000);
     (Inventory.RemoveItem "wood" (Fin 50), here 2000)]
    Inventory.empty.

(** The player at 1 on the x axis with a stone axe selected, a tree in
    [nearestResource], and a creature of a species at the origin. *)
Definition gameWith (sp : Species.t) : Game.t :=
  Game.mkGame
    (Player.mkPlayer (Demo.onXAxis 1) (Fin 100) (Fin 100) (Fin 0) (Some 0%nat) (Fin 0)
                     [] 0)
    (ResourceSystem.run [ResourceSystem.Create "tree" (Fin 3) (Fin 0) (Fin 0)]
                        ResourceSystem.empty)
    (Inventory.mkInventory [("stone_axe"%string, Fin 1)] 0 [] 0)
    (CreatureSystem.mkSystem [Demo.fresh sp] Demo.noEffects)
    0.

Definition game : Game.t := gameWith Species.rabbit.

(** The attack key is down at three times, with a game frame in between. *)
Definition threeAttacks : list Game.Action :=
  [Game.Attack (Fin 1000);
   Game.Creatures (Fin 0.016) (Fin 1016);
   Game.Attack (Fin 1500);
   Game.GroundItems (Fin 0.016) (Fin 1516);
   Game.Attack (Fin 2100)].

(** Flat terrain at height 0, and four values of [Math.random()] per
    mesh. *)
Definition flat : Terrain :=
  {| meshPresent := true;
     raycast := fun _ _ => Some (Fin 0, mkVector3 (Fin 0) (Fin 1) (Fin 0));
     meshRandomCalls := fun _ => 4%nat |}.

(** The world generated on it. *)
Definition world : Environment.t :=
  @Environment.generateResourceNodes Demo.calm flat
    (Environment.mkWorld ResourceSystem.empty 0).

End Play.

(** * Properties *)

(** ** Comparisons of numbers *)

Lemma Qltb_lt (a b : Q) : Qltb a b = true <-> a < b.
Proof.
  unfold Qltb. rewrite negb_true_iff, <- not_true_iff_false, Qle_bool_iff.
  split; [apply Qnot_le_lt | apply Qlt_not_le].
Qed.

Lemma ltb_lt (a b : number) : Num.ltb a b = true <-> Num.lt a b.
Proof.
  destruct a, b; simpl; try (split; [discriminate | contradiction]).
  apply Qltb_lt.
Qed.

Lemma leb_le (a b : number) : Num.leb a b = true <-> Num.le a b.
Proof.
  destruct a, b; simpl; try (split; [discriminate | contradiction]).
  apply Qle_bool_iff.
Qed.

Lemma ltb_irrefl (a : number) : Num.ltb a a = false.
Proof.
  apply not_true_iff_false. rewrite ltb_lt. destruct a; simpl; [lra | tauto].
Qed.

Lemma ltb_trans (a b c : number) :
  Num.ltb a b = true -> Num.ltb b c = true -> Num.ltb a c = true.
Proof.
  rewrite !ltb_lt. destruct a, b, c; simpl; try tauto. lra.
Qed.

Lemma ltb_asym (a b : number) : Num.ltb a b = true -> Num.ltb b a = false.
Proof.
  intros Hab. apply not_true_iff_false. revert Hab. rewrite !ltb_lt.
  destruct a, b; simpl; try tauto. lra.
Qed.

(** ** Resource nodes *)

Section ResourceNodes.

Import ResourceSystem.

(** *** Reading and writing one node *)

Lemma setNode_lookup_eq i n s :
  (i < length (resourceNodes s))%nat ->
  resourceNodes (setNode i n s) !! i = Some n.
Proof. intros Hi. simpl. now apply list_lookup_insert_eq. Qed.

Lemma setNode_lookup_ne i j n s :
  i <> j -> resourceNodes (setNode i n s) !! j = resourceNodes s !! j.
Proof. intros Hij. simpl. now apply list_lookup_insert_ne. Qed.

Lemma depleteNode_lookup_eq i s node :
  resourceNodes s !! i = Some node ->
  resourceNodes (depleteNode i s) !! i =
    Some (mkNode (type node) (position node) (health node) (maxHealth node)
                 false (respawnTime node) (Some (nextTimerId s))).
Proof.
  intros Hn. unfold depleteNode. rewrite Hn. simpl.
  apply list_lookup_insert_eq. now apply lookup_lt_Some in Hn.
Qed.

Lemma depleteNode_lookup_ne i j s :
  i <> j -> resourceNodes (depleteNode i s) !! j = resourceNodes s !! j.
Proof.
  intros Hij. unfold depleteNode.
  destruct (resourceNodes s !! i); [simpl; now apply list_lookup_insert_ne | reflexivity].
Qed.

Lemma respawnNode_lookup_eq i s node :
  resourceNodes s !! i = Some node ->
  resourceNodes (respawnNode i s) !! i =
    Some (respawned node).
Proof.
  intros Hn. unfold respawnNode. rewrite Hn.
  apply setNode_lookup_eq. now apply lookup_lt_Some in Hn.
Qed.

Lemma respawnNode_lookup_ne i j s :
  i <> j -> resourceNodes (respawnNode i s) !! j = resourceNodes s !! j.
Proof.
  intros Hij. unfold respawnNode.
  destruct (resourceNodes s !! i); [now apply setNode_lookup_ne | reflexivity].
Qed.

(** The node a gather leaves at index [i], and the drop it returns. *)
Lemma gatherResource_gatherable i m s node :
  resourceNodes s !! i = Some node ->
  canGather node = true ->
  let h := (health node - damageDealt m)%Z in
  resourceNodes (fst (gatherResource i m s)) !! i =
    Some (mkNode (type node) (position node) h (maxHealth node)
                 (negb (h <=? 0)%Z) (respawnTime node)
                 (if (h <=? 0)%Z then Some (nextTimerId s) else respawnTimer node))
  /\ snd (gatherResource i m s) =
       match getResourceDrop (type node) with
       | Some d => Some (mkDrop (dropType d) (Num.floor (Num.mul (amount d) m)))
       | None => None
       end.
Proof.
  intros Hn Hg h. unfold gatherResource. rewrite Hn, Hg. simpl negb. cbv iota.
  cbn [health]. fold h.
  assert (Hi : (i < length (resourceNodes s))%nat) by now apply lookup_lt_Some in Hn.
  split; [| reflexivity].
  destruct (h <=? 0)%Z eqn:Hh; cbn [fst negb].
  - erewrite depleteNode_lookup_eq by (now apply setNode_lookup_eq).
    reflexivity.
  - now rewrite setNode_lookup_eq by assumption.
Qed.

Lemma gatherResource_other i j m s :
  i <> j ->
  resourceNodes (fst (gatherResource i m s)) !! j = resourceNodes s !! j.
Proof.
  intros Hij. unfold gatherResource.
  destruct (resourceNodes s !! i) as [node|] eqn:Hn; [| reflexivity].
  destruct (canGather node); simpl; [| reflexivity].
  match goal with |- context [if ?c then _ else _] => destruct c end; simpl.
  - rewrite depleteNode_lookup_ne by assumption. now apply list_lookup_insert_ne.
  - now apply list_lookup_insert_ne.
Qed.

Lemma gatherResource_depleted i m s node :
  resourceNodes s !! i = Some node ->
  canGather node = false ->
  gatherResource i m s = (s, None).
Proof. intros Hn Hg. unfold gatherResource. now rewrite Hn, Hg. Qed.

End ResourceNodes.

(** *** One gather *)

Section Gather.

Import ResourceSystem.









End Gather.

(** *** The closest gatherable node *)

Section Closest.

Context `{Runtime}.


Lemma closestFrom_spec {A : Type} (skip : A -> bool) (posOf : A -> Vector3)
    (pos : Vector3) (items : list A) :
  forall (i : nat) (closest : option nat) (closestDist : number),
    (closestFrom skip posOf pos items i closest closestDist = closest
     /\ forall k item, items !! k = Some item -> skip item = false ->
          Num.ltb (distanceTo pos (posOf item)) closestDist = false)
    \/ (exists k item,
          closestFrom skip posOf pos items i closest closestDist = Some (i + k)%nat
          /\ items !! k = Some item
          /\ skip item = false
          /\ Num.ltb (distanceTo pos (posOf item)) closestDist = true
          /\ forall k' item', items !! k' = Some item' -> skip item' = false ->
               Num.ltb (distanceTo pos (posOf item'))
                       (distanceTo pos (posOf item)) = false).
Proof.
  induction items as [| n rest IH]; intros i closest cd.
  - left. split; [reflexivity |]. intros k item Hk. discriminate.
  - cbn [closestFrom].
    destruct (skip n) eqn:Hg.
    + (* an entry out of play is skipped *)
      destruct (IH (S i) closest cd)
        as [[Hr Hall] | (k & item & Hr & Hk & Hgk & Hltk & Hmin)].
      * left. split; [exact Hr |].
        intros [| k'] item' Hk' Hg'.
        -- injection Hk' as <-. congruence.
        -- now apply (Hall k').
      * right. exists (S k), item. rewrite Hr.
        repeat split; try assumption.
        -- f_equal. lia.
        -- intros [| k'] item' Hk' Hg'.
           ++ injection Hk' as <-. congruence.
           ++ now apply (Hmin k').
    + destruct (Num.ltb (distanceTo pos (posOf n)) cd) eqn:Hlt.
      * (* the head becomes the candidate *)
        right.
        destruct (IH (S i) (Some i) (distanceTo pos (posOf n)))
          as [[Hr Hall] | (k & item & Hr & Hk & Hgk & Hltk & Hmin)].
        -- exists 0%nat, n. rewrite Hr, Nat.add_0_r.
           repeat split; try assumption.
           intros [| k'] item' Hk' Hg'.
           ++ injection Hk' as <-. apply ltb_irrefl.
           ++ now apply (Hall k').
        -- exists (S k), item. rewrite Hr.
           repeat split; try assumption.
           ++ f_equal. lia.
           ++ now apply ltb_trans with (distanceTo pos (posOf n)).
           ++ intros [| k'] item' Hk' Hg'.
              ** injection Hk' as <-. now apply ltb_asym.
              ** now apply (Hmin k').
      * (* the head is not closer than the candidate *)
        destruct (IH (S i) closest cd)
          as [[Hr Hall] | (k & item & Hr & Hk & Hgk & Hltk & Hmin)].
        -- left. split; [exact Hr |].
           intros [| k'] item' Hk' Hg'.
           ++ now injection Hk' as <-.
           ++ now apply (Hall k').
        -- right. exists (S k), item. rewrite Hr.
           repeat split; try assumption.
           ++ f_equal. lia.
           ++ intros [| k'] item' Hk' Hg'.
              ** injection Hk' as <-.
                 destruct (Num.ltb (distanceTo pos (posOf n))
                                   (distanceTo pos (posOf item))) eqn:E;
                   [| reflexivity].
                 rewrite (ltb_trans _ _ _ E Hltk) in Hlt. discriminate.
              ** now apply (Hmin k').
Qed.

Import ResourceSystem.

(** C10.  [getClosestNode] returns either nothing or a gatherable node whose
    distance is strictly below [maxDistance] and which no gatherable node
    beats; so a depleted node is never returned, nor one at distance exactly
    [maxDistance].  Nothing is returned only when no gatherable node is
    strictly within [maxDistance]. *)
Theorem getClosestNode_spec (pos : Vector3) (maxDistance : number) (s : t) :
  match getClosestNode pos maxDistance s with
  | Some i =>
      exists node,
        resourceNodes s !! i = Some node
        /\ canGather node = true
        /\ Num.lt (distanceTo pos (position node)) maxDistance
        /\ forall j node', resourceNodes s !! j = Some node' ->
             canGather node' = true ->
             ~ Num.lt (distanceTo pos (position node'))
                      (distanceTo pos (position node))
  | None =>
      forall j node', resourceNodes s !! j = Some node' ->
        canGather node' = true ->
        ~ Num.lt (distanceTo pos (position node')) maxDistance
  end.
Proof.
  unfold getClosestNode.
  destruct (closestFrom_spec (fun node => negb (canGather node)) position pos
              (resourceNodes s) 0 None maxDistance)
    as [[Hr Hall] | (k & node & Hr & Hk & Hgk & Hltk & Hmin)].
  - rewrite Hr. intros j node' Hj Hg' Hlt.
    apply ltb_lt in Hlt. rewrite (Hall j node' Hj) in Hlt; [discriminate |].
    now rewrite Hg'.
  - rewrite Hr. cbn [Nat.add]. exists node.
    apply negb_false_iff in Hgk.
    repeat split; try assumption.
    + now apply ltb_lt.
    + intros j node' Hj Hg' Hlt.
      apply ltb_lt in Hlt. rewrite (Hmin j node' Hj) in Hlt; [discriminate |].
      now rewrite Hg'.
Qed.

End Closest.

(** *** The lifecycle: create, gather, deplete, respawn *)

Section Lifecycle.

Import ResourceSystem.

Lemma respawned_idem n : respawned (respawned n) = respawned n.
Proof. reflexivity. Qed.

Lemma respawnNode_lookup i j s :
  resourceNodes (respawnNode i s) !! j =
    if (i =? j)%nat then respawned <$> resourceNodes s !! j
    else resourceNodes s !! j.
Proof.
  destruct (Nat.eqb_spec i j) as [-> | Hij].
  - destruct (resourceNodes s !! j) as [n |] eqn:Hn.
    + now rewrite (respawnNode_lookup_eq j s n Hn).
    + unfold respawnNode. now rewrite Hn, Hn.
  - now apply respawnNode_lookup_ne.
Qed.

Lemma respawnNode_frame i s :
  clock (respawnNode i s) = clock s
  /\ timers (respawnNode i s) = timers s
  /\ nextTimerId (respawnNode i s) = nextTimerId s.
Proof. unfold respawnNode. now destruct (resourceNodes s !! i). Qed.

Lemma fireTimers_frame now pending : forall s,
  clock (fireTimers now pending s) = clock s
  /\ timers (fireTimers now pending s) = timers s
  /\ nextTimerId (fireTimers now pending s) = nextTimerId s.
Proof.
  induction pending as [| tm rest IH]; intros s; cbn [fireTimers]; [easy |].
  destruct (deadline tm <=? now)%Z; [| apply IH].
  destruct (IH (respawnNode (timerNode tm) s)) as (-> & -> & ->).
  apply respawnNode_frame.
Qed.

(** The timers that are due respawn their nodes and touch no other node. *)
Lemma fireTimers_lookup now pending j : forall s,
  resourceNodes (fireTimers now pending s) !! j =
    if dueFor now j pending then respawned <$> resourceNodes s !! j
    else resourceNodes s !! j.
Proof.
  induction pending as [| tm rest IH]; intros s; cbn [fireTimers dueFor existsb];
    [reflexivity |].
  fold (dueFor now j rest).
  destruct (deadline tm <=? now)%Z; cbn [andb]; [| apply IH].
  rewrite IH, respawnNode_lookup.
  destruct (timerNode tm =? j)%nat; cbn [orb]; [| reflexivity].
  destruct (resourceNodes s !! j); destruct (dueFor now j rest); reflexivity.
Qed.

Lemma advance_lookup dt j s :
  resourceNodes (advance dt s) !! j =
    if dueFor (clock s + Z.of_N dt) j (timers s)
    then respawned <$> resourceNodes s !! j
    else resourceNodes s !! j.
Proof. unfold advance. cbn [resourceNodes]. apply fireTimers_lookup. Qed.

Lemma dueFor_true now j pending :
  dueFor now j pending = true <->
  exists tm, In tm pending /\ (deadline tm <= now)%Z /\ timerNode tm = j.
Proof.
  unfold dueFor. rewrite existsb_exists. split.
  - intros (tm & Hin & Hb). apply andb_true_iff in Hb as [Hd Ht].
    exists tm. repeat split; [assumption | lia | now apply Nat.eqb_eq].
  - intros (tm & Hin & Hd & Ht). exists tm. split; [assumption |].
    apply andb_true_iff. split; [lia | now apply Nat.eqb_eq].
Qed.

(** What a gather does to the clock and to the timer queue. *)
Lemma gatherResource_frame i m s :
  clock (fst (gatherResource i m s)) = clock s
  /\ (timers (fst (gatherResource i m s)) = timers s
      \/ exists node,
           resourceNodes s !! i = Some node
           /\ canGather node = true
           /\ (health node - damageDealt m <= 0)%Z
           /\ timers (fst (gatherResource i m s)) =
                timers s ++ [mkTimer (nextTimerId s) (clock s + respawnTime node) i]).
Proof.
  unfold gatherResource.
  destruct (resourceNodes s !! i) as [node |] eqn:Hn; [| now split; [| left]].
  destruct (canGather node) eqn:Hg; cbn [negb fst]; [| now split; [| left]].
  cbn [health].
  destruct (health node - damageDealt m <=? 0)%Z eqn:Hh; [| now split; [| left]].
  assert (Hi : (i < length (resourceNodes s))%nat) by now apply lookup_lt_Some in Hn.
  unfold depleteNode. rewrite setNode_lookup_eq by assumption.
  cbn. split; [reflexivity |]. right. exists node.
  repeat split; try reflexivity; try assumption. now apply Z.leb_le.
Qed.

Lemma gatherResource_timers_depleting i m s node :
  resourceNodes s !! i = Some node ->
  canGather node = true ->
  (health node - damageDealt m <= 0)%Z ->
  timers (fst (gatherResource i m s)) =
    timers s ++ [mkTimer (nextTimerId s) (clock s + respawnTime node) i].
Proof.
  intros Hn Hg Hh. unfold gatherResource. rewrite Hn, Hg. cbn [negb fst health].
  apply Z.leb_le in Hh. rewrite Hh.
  assert (Hi : (i < length (resourceNodes s))%nat) by now apply lookup_lt_Some in Hn.
  unfold depleteNode. rewrite setNode_lookup_eq by assumption. reflexivity.
Qed.

(** No step removes a node or changes what it is. *)
Lemma step_keeps_node a s i n :
  resourceNodes s !! i = Some n ->
  exists n',
    resourceNodes (step a s) !! i = Some n'
    /\ type n' = type n /\ position n' = position n
    /\ maxHealth n' = maxHealth n /\ respawnTime n' = respawnTime n.
Proof.
  intros Hn. destruct a as [ty x y z | j m | dt]; cbn [step].
  - exists n. cbn. rewrite lookup_app_l by now apply lookup_lt_Some in Hn. easy.
  - destruct (Nat.eq_dec j i) as [-> | Hji].
    + destruct (canGather n) eqn:Hg.
      * destruct (gatherResource_gatherable i m s n Hn Hg) as [-> _].
        eexists. split; [reflexivity | easy].
      * rewrite (gatherResource_depleted i m s n Hn Hg). now exists n.
    + rewrite gatherResource_other by assumption. now exists n.
  - rewrite advance_lookup, Hn.
    destruct (dueFor _ i (timers s)); eexists; (split; [reflexivity | easy]).
Qed.

Lemma run_keeps_node acts : forall s i n,
  resourceNodes s !! i = Some n ->
  exists n',
    resourceNodes (run acts s) !! i = Some n'
    /\ type n' = type n /\ position n' = position n
    /\ maxHealth n' = maxHealth n /\ respawnTime n' = respawnTime n.
Proof.
  induction acts as [| a rest IH]; intros s i n Hn; cbn [run].
  - now exists n.
  - destruct (step_keeps_node a s i n Hn) as (n1 & Hn1 & Ht & Hp & Hm & Hr).
    destruct (IH _ i n1 Hn1) as (n2 & Hn2 & Ht2 & Hp2 & Hm2 & Hr2).
    exists n2. repeat split; congruence.
Qed.

End Lifecycle.

(** *** The invariant of the lifecycle *)

Section LifecycleInvariant.

Import ResourceSystem.

Lemma NoDup_map_In_eq {A B : Type} (f : A -> B) (l : list A) (x y : A) :
  List.NoDup (map f l) -> In x l -> In y l -> f x = f y -> x = y.
Proof.
  induction l as [| a l IH]; cbn [map]; intros Hnd Hx Hy Hf; [contradiction |].
  apply List.NoDup_cons_iff in Hnd as [Hnotin Hnd].
  destruct Hx as [-> | Hx], Hy as [-> | Hy]; try reflexivity.
  - exfalso. apply Hnotin. rewrite Hf. now apply in_map.
  - exfalso. apply Hnotin. rewrite <- Hf. now apply in_map.
  - now apply IH.
Qed.

Lemma NoDup_map_filter {A B : Type} (f : A -> B) (p : A -> bool) (l : list A) :
  List.NoDup (map f l) -> List.NoDup (map f (List.filter p l)).
Proof.
  induction l as [| a l IH]; cbn [map List.filter]; intros Hnd; [constructor |].
  apply List.NoDup_cons_iff in Hnd as [Hnotin Hnd].
  destruct (p a); cbn [map]; [| now apply IH].
  apply List.NoDup_cons_iff. split; [| now apply IH].
  intros Hin. apply Hnotin. apply in_map_iff in Hin as (x & Hfx & Hx).
  apply filter_In in Hx as [Hx _]. apply in_map_iff. now exists x.
Qed.

Lemma getMaxHealth_pos ty : (1 <= getMaxHealth ty)%Z.
Proof.
  unfold getMaxHealth.
  repeat match goal with |- context [if ?c then _ else _] => destruct c end; lia.
Qed.

Lemma damageDealt_range m : (1 <= damageDealt m <= 2)%Z.
Proof. unfold damageDealt. destruct (Num.geb _ _); lia. Qed.

Lemma nodeInvariant_respawned n : nodeInvariant n -> nodeInvariant (respawned n).
Proof.
  intros (Hm & Hr & _). unfold nodeInvariant, respawned. cbn. repeat split; lia.
Qed.

Lemma step_nodeInvariant a s :
  (forall i n, resourceNodes s !! i = Some n -> nodeInvariant n) ->
  forall i n, resourceNodes (step a s) !! i = Some n -> nodeInvariant n.
Proof.
  intros Hinv i n. destruct a as [ty x y z | j m | dt]; cbn [step].
  - cbn. intros Hn. apply lookup_app_Some in Hn as [Hn | [_ Hn]].
    + now apply (Hinv i).
    + apply list_lookup_singleton_Some in Hn as [_ <-].
      pose proof (getMaxHealth_pos ty). unfold nodeInvariant. cbn.
      repeat split; lia.
  - destruct (Nat.eq_dec j i) as [-> | Hji].
    + destruct (resourceNodes s !! i) as [n0 |] eqn:Hn0.
      * destruct (canGather n0) eqn:Hg.
        -- destruct (gatherResource_gatherable i m s n0 Hn0 Hg) as [-> _].
           intros [= <-]. destruct (Hinv i n0 Hn0) as (Hm & Hr & Hh).
           rewrite Hg in Hh. pose proof (damageDealt_range m).
           unfold nodeInvariant. cbn.
           destruct (health n0 - damageDealt m <=? 0)%Z eqn:E; cbn;
             [apply Z.leb_le in E | apply Z.leb_gt in E]; repeat split; lia.
        -- rewrite (gatherResource_depleted i m s n0 Hn0 Hg). apply Hinv.
      * unfold gatherResource. rewrite Hn0. cbn. congruence.
    + rewrite gatherResource_other by assumption. apply Hinv.
  - rewrite advance_lookup.
    destruct (dueFor _ i (timers s)); [| apply Hinv].
    destruct (resourceNodes s !! i) as [n0 |] eqn:Hn0; cbn; [| discriminate].
    intros [= <-]. apply nodeInvariant_respawned. now apply (Hinv i).
Qed.

Lemma step_timersInvariant a s :
  invariant s -> timersInvariant (step a s).
Proof.
  intros [Hnodes [Hnd Htm]]. destruct a as [ty x y z | j m | dt]; cbn [step].
  - (* a new node: the queue is untouched *)
    split; [exact Hnd |]. cbn. intros tm Hin.
    destruct (Htm tm Hin) as (Hc & n & Hn & Hg).
    split; [exact Hc |]. exists n. split; [| exact Hg].
    rewrite lookup_app_l by now apply lookup_lt_Some in Hn. exact Hn.
  - destruct (gatherResource_frame j m s) as [Hclock [Hsame | Hnew]].
    + (* the gather arms no timer *)
      unfold timersInvariant. rewrite Hclock, Hsame. split; [exact Hnd |].
      intros tm Hin. destruct (Htm tm Hin) as (Hc & n & Hn & Hg).
      split; [exact Hc |]. exists n. split; [| exact Hg].
      destruct (Nat.eq_dec j (timerNode tm)) as [-> | Hne].
      * now rewrite (gatherResource_depleted _ m s n Hn Hg).
      * now rewrite gatherResource_other.
    + (* the gather depletes node [j] and arms its timer *)
      destruct Hnew as (node & Hn & Hg & Hh & Htimers).
      assert (Hfresh : forall tm, In tm (timers s) -> timerNode tm <> j).
      { intros tm Hin Heq. destruct (Htm tm Hin) as (_ & n & Hn' & Hg').
        rewrite Heq in Hn'. congruence. }
      unfold timersInvariant. rewrite Hclock, Htimers. split.
      * rewrite map_app. cbn [map timerNode]. apply List.NoDup_app.
        -- exact Hnd.
        -- constructor; [intros [] | constructor].
        -- intros k Hk [Hk' | []].
           apply in_map_iff in Hk as (tm & <- & Hin).
           now apply (Hfresh tm Hin).
      * intros tm Hin. apply in_app_iff in Hin as [Hin | [<- | []]].
        -- destruct (Htm tm Hin) as (Hc & n & Hn' & Hg').
           split; [exact Hc |]. exists n. split; [| exact Hg'].
           rewrite gatherResource_other; [exact Hn' |].
           intros ->. now apply (Hfresh tm Hin).
        -- cbn [deadline timerNode].
           destruct (Hnodes j node Hn) as (_ & Hr & _). split; [lia |].
           destruct (gatherResource_gatherable j m s node Hn Hg) as [-> _].
           eexists. split; [reflexivity |]. cbn.
           apply Z.leb_le in Hh. now rewrite Hh.
  - (* time passes: the due timers fire and leave the queue *)
    unfold timersInvariant, advance. cbn [timers clock resourceNodes]. split.
    + now apply NoDup_map_filter.
    + intros tm Hin. apply filter_In in Hin as [Hin Hlate].
      apply Z.ltb_lt in Hlate. split; [exact Hlate |].
      destruct (Htm tm Hin) as (_ & n & Hn & Hg).
      exists n. split; [| exact Hg].
      rewrite fireTimers_lookup.
      destruct (dueFor _ (timerNode tm) (timers s)) eqn:Hdue; [| exact Hn].
      apply dueFor_true in Hdue as (tm' & Hin' & Hd & Heq).
      assert (tm' = tm) by now apply (NoDup_map_In_eq timerNode (timers s)).
      subst tm'. lia.
Qed.

Lemma step_invariant a s : invariant s -> invariant (step a s).
Proof.
  intros Hinv. split.
  - apply step_nodeInvariant. apply Hinv.
  - now apply step_timersInvariant.
Qed.

Lemma empty_invariant : invariant empty.
Proof.
  split; [intros i n Hn; discriminate |].
  split; [constructor |]. intros tm [].
Qed.

Lemma run_invariant acts : forall s, invariant s -> invariant (run acts s).
Proof.
  induction acts as [| a rest IH]; intros s Hinv; cbn [run]; [exact Hinv |].
  apply IH. now apply step_invariant.
Qed.

End LifecycleInvariant.

(** *** Health and [canGather] *)

Section HealthInvariant.

Import ResourceSystem.

(** C1, as the source has it.  After any sequence of node creations, gathers
    and timer-driven respawns, the health of a node is at least -1 and at
    most its maximum, and the node is not gatherable exactly when its health
    is 0 or less.  (The last hit is not clamped: a hit of 2 on health 1
    leaves -1.) *)
Theorem node_health_invariant (acts : list Action) (i : nat) (node : ResourceNode) :
  resourceNodes (run acts empty) !! i = Some node ->
  (-1 <= health node <= maxHealth node)%Z
  /\ (canGather node = false <-> (health node <= 0)%Z).
Proof.
  intros Hn.
  destruct (run_invariant acts empty empty_invariant) as [Hnodes _].
  destruct (Hnodes i node Hn) as (Hm & _ & Hh).
  destruct (canGather node); split; try lia; split; (discriminate || lia || reflexivity).
Qed.

Lemma node_health_invariant_witness :
  let node := mkNode "tree" (mkVector3 (Fin 3) (Fin 0) (Fin 4)) (-1) 5 false
                     60000 (Some 0%nat) in
  (-1 <= health node <= maxHealth node)%Z
  /\ (canGather node = false <-> (health node <= 0)%Z).
Proof.
  apply (node_health_invariant
           [Create "tree" (Fin 3) (Fin 0) (Fin 4);
            Gather 0 (Fin 2); Gather 0 (Fin 2); Gather 0 (Fin 2)] 0%nat).
  reflexivity.
Defined.

(** C1 as stated fails: three gathers with multiplier 2 on a fresh tree
    (health 5, then 3, 1, -1) leave it depleted with health -1, which is
    negative and is not 0. *)
Lemma node_health_clamped_counterexample :
  exists node,
    resourceNodes
      (run [Create "tree" (Fin 3) (Fin 0) (Fin 4);
            Gather 0 (Fin 2); Gather 0 (Fin 2); Gather 0 (Fin 2)] empty) !! 0%nat
      = Some node
    /\ canGather node = false
    /\ (health node < 0)%Z
    /\ health node <> 0%Z.
Proof.
  eexists. split; [reflexivity |]. cbn. repeat split; lia.
Qed.

End HealthInvariant.

(** *** Respawn *)

Section Respawn.

Import ResourceSystem.

Lemma elapsed_nonneg acts : (0 <= elapsed acts)%Z.
Proof.
  induction acts as [| [ty x y z | j m | dt] rest IH]; cbn [elapsed]; lia.
Qed.

Lemma step_clock a s : clock (step a s) = (clock s + elapsed [a])%Z.
Proof.
  destruct a as [ty x y z | j m | dt]; cbn [step elapsed].
  - cbn. lia.
  - destruct (gatherResource_frame j m s) as [-> _]. lia.
  - cbn. lia.
Qed.

Lemma elapsed_cons a rest : elapsed (a :: rest) = (elapsed [a] + elapsed rest)%Z.
Proof. destruct a; cbn [elapsed]; lia. Qed.

(** While its timer is not due, a depleted node stays depleted. *)
Lemma step_awaiting a s i due :
  awaitingRespawn i due s ->
  (clock s + elapsed [a] < due)%Z ->
  awaitingRespawn i due (step a s).
Proof.
  intros (Hc & (n & Hn & Hg) & (tm & Hin & Hti & Htd) & Hall) Hlt.
  unfold awaitingRespawn. rewrite step_clock. split; [exact Hlt |].
  destruct a as [ty x y z | j m | dt]; cbn [step].
  - cbn. repeat split.
    + exists n. split; [| exact Hg].
      rewrite lookup_app_l by now apply lookup_lt_Some in Hn. exact Hn.
    + now exists tm.
    + exact Hall.
  - destruct (Nat.eq_dec j i) as [-> | Hji].
    + rewrite (gatherResource_depleted i m s n Hn Hg). cbn [fst].
      repeat split; [now exists n | now exists tm | exact Hall].
    + rewrite gatherResource_other by assumption.
      destruct (gatherResource_frame j m s) as [_ [-> | (node & _ & _ & _ & ->)]].
      * repeat split; [now exists n | now exists tm | exact Hall].
      * repeat split.
        -- now exists n.
        -- exists tm. split; [apply in_app_iff; now left | easy].
        -- intros tm' Hin' Hi'. apply in_app_iff in Hin' as [Hin' | [<- | []]].
           ++ now apply Hall.
           ++ cbn in Hi'. congruence.
  - cbn [elapsed] in Hlt. rewrite advance_lookup.
    assert (Hnot : dueFor (clock s + Z.of_N dt) i (timers s) = false).
    { apply not_true_iff_false. intros Hdue.
      apply dueFor_true in Hdue as (tm' & Hin' & Hd' & Hi').
      rewrite (Hall tm' Hin' Hi') in Hd'. lia. }
    rewrite Hnot. cbn [advance timers]. repeat split.
    + now exists n.
    + exists tm. split; [| easy]. apply filter_In. split; [exact Hin |].
      apply Z.ltb_lt. lia.
    + intros tm' Hin'. apply filter_In in Hin' as [Hin' _]. now apply Hall.
Qed.

Lemma run_awaiting acts i due : forall s,
  awaitingRespawn i due s ->
  (clock s + elapsed acts < due)%Z ->
  awaitingRespawn i due (run acts s).
Proof.
  induction acts as [| a rest IH]; intros s Haw Hlt; cbn [run]; [exact Haw |].
  rewrite elapsed_cons in Hlt. pose proof (elapsed_nonneg rest).
  apply IH.
  - apply step_awaiting; [exact Haw | lia].
  - rewrite step_clock. lia.
Qed.

Lemma run_clock acts : forall s, clock (run acts s) = (clock s + elapsed acts)%Z.
Proof.
  induction acts as [| a rest IH]; intros s; cbn [run].
  - cbn. lia.
  - rewrite IH, step_clock, (elapsed_cons a rest). lia.
Qed.

(** When the clock reaches the deadline, the node is respawned. *)
Lemma advance_respawns dt s i due :
  awaitingRespawn i due s ->
  (due <= clock s + Z.of_N dt)%Z ->
  exists n,
    resourceNodes s !! i = Some n
    /\ resourceNodes (advance dt s) !! i = Some (respawned n).
Proof.
  intros (_ & (n & Hn & _) & (tm & Hin & Hti & Htd) & _) Hle.
  exists n. split; [exact Hn |]. rewrite advance_lookup.
  assert (Hdue : dueFor (clock s + Z.of_N dt) i (timers s) = true).
  { apply dueFor_true. exists tm. repeat split; [assumption | lia | assumption]. }
  now rewrite Hdue, Hn.
Qed.

(** A gather that depletes a gatherable node of a reachable system leaves it
    waiting for one timer, due after the respawn delay. *)
Lemma depleting_gather_awaits acts0 i m node :
  let s := run acts0 empty in
  resourceNodes s !! i = Some node ->
  canGather node = true ->
  (health node - damageDealt m <= 0)%Z ->
  awaitingRespawn i (clock s + 60000) (fst (gatherResource i m s)).
Proof.
  intros s Hn Hg Hh.
  destruct (run_invariant acts0 empty empty_invariant) as [Hnodes [_ Htm]].
  fold s in Hnodes, Htm.
  destruct (Hnodes i node Hn) as (_ & Hr & _).
  destruct (gatherResource_frame i m s) as [Hclock _].
  destruct (gatherResource_gatherable i m s node Hn Hg) as [Hnode _].
  pose proof (gatherResource_timers_depleting i m s node Hn Hg Hh) as Htimers.
  unfold awaitingRespawn. rewrite Hclock, Hnode, Htimers, Hr. repeat split.
  - lia.
  - eexists. split; [reflexivity |]. cbn. apply Z.leb_le in Hh. now rewrite Hh.
  - eexists. split; [apply in_app_iff; right; left; reflexivity | easy].
  - intros tm Hin Hi. apply in_app_iff in Hin as [Hin | [<- | []]]; [| reflexivity].
    destruct (Htm tm Hin) as (_ & n & Hn' & Hg'). rewrite Hi in Hn'. congruence.
Qed.

(** C6.  In a system built by creations, gathers and the passing of time, let
    a gather deplete a gatherable node.  Then, whatever happens next, the
    node stays in the collection; as long as less than the respawn delay
    (60000 ms) has passed it is not gatherable; and the passing of time that
    reaches the delay, with nothing else asked, makes it gatherable again with
    its health back at the maximum. *)
Theorem respawn_after_delay
    (acts0 : list Action) (i : nat) (m : number) (node depleted : ResourceNode) :
  let s := run acts0 empty in
  let s1 := fst (gatherResource i m s) in
  resourceNodes s !! i = Some node ->
  canGather node = true ->
  resourceNodes s1 !! i = Some depleted ->
  canGather depleted = false ->
  forall acts : list Action,
    (exists n,
        resourceNodes (run acts s1) !! i = Some n
        /\ type n = type node /\ position n = position node)
    /\ ((elapsed acts < 60000)%Z ->
        (exists n,
            resourceNodes (run acts s1) !! i = Some n /\ canGather n = false)
        /\ forall dt : N,
             (60000 <= elapsed acts + Z.of_N dt)%Z ->
             exists n,
               resourceNodes (advance dt (run acts s1)) !! i = Some n
               /\ canGather n = true
               /\ health n = maxHealth n
               /\ maxHealth n = maxHealth node).
Proof.
  intros s s1 Hn Hg Hd Hgd acts.
  destruct (gatherResource_gatherable i m s node Hn Hg) as [Hnode _].
  fold s1 in Hnode. rewrite Hnode in Hd. injection Hd as <-. cbn in Hgd.
  apply negb_false_iff, Z.leb_le in Hgd.
  destruct (run_keeps_node acts s1 i _ Hnode) as (n & Hrun & Hty & Hpos & Hmax & _).
  split; [now exists n |].
  intros Hlt.
  pose proof (depleting_gather_awaits acts0 i m node Hn Hg Hgd) as Haw.
  fold s s1 in Haw.
  assert (Hclock : clock s1 = clock s)
    by (destruct (gatherResource_frame i m s) as [Hc _]; exact Hc).
  assert (Haw' : awaitingRespawn i (clock s + 60000) (run acts s1))
    by (apply run_awaiting; [exact Haw | lia]).
  split.
  - destruct Haw' as (_ & Hdep & _). exact Hdep.
  - intros dt Hdt.
    destruct (advance_respawns dt (run acts s1) i _ Haw') as (n' & Hn' & Hresp).
    { rewrite run_clock. lia. }
    rewrite Hrun in Hn'. injection Hn' as <-.
    exists (respawned n). repeat split; [exact Hresp | exact Hmax].
Qed.

End Respawn.

(** ** Creatures *)

Section Combat.

Import CreatureSystem.
Context `{Runtime}.

Lemma damageCreature_dead c damage attacker env e :
  isDead c = true -> damageCreature c damage attacker env e = (c, e).
Proof. intros Hdead. unfold damageCreature. now rewrite Hdead. Qed.

Lemma damageCreatureAt_dead i c damage attacker env s :
  creatures s !! i = Some c ->
  isDead c = true ->
  damageCreatureAt i damage attacker env s = s.
Proof.
  intros Hc Hdead. unfold damageCreatureAt. rewrite Hc.
  rewrite (damageCreature_dead c damage attacker env (effects s) Hdead).
  rewrite list_insert_id by exact Hc. now destruct s.
Qed.

(** C3.  [damageCreature] on a creature that is already dead changes nothing:
    the creature comes back as it was (health, state, state timer and target
    included) and so do the effects, so that no [Died] line is logged again,
    no loot is rolled and no ground item is created; the creature system as
    a whole is left as it was. *)
Theorem damageCreature_dead_noop
    (c : Creature) (damage : number) (attacker : option Ref) (env : Env)
    (e : Effects) :
  isDead c = true ->
  damageCreature c damage attacker env e = (c, e)
  /\ forall (s : t) (i : nat),
       creatures s !! i = Some c ->
       damageCreatureAt i damage attacker env s = s.
Proof.
  intros Hdead. split.
  - now apply damageCreature_dead.
  - intros s i Hc. now apply (damageCreatureAt_dead i c).
Qed.

Lemma reactToDamage_frame attacker c :
  let c' := reactToDamage attacker c in
  id c' = id c /\ speciesData c' = speciesData c /\ health c' = health c
  /\ isDead c' = isDead c /\ position c' = position c
  /\ lastAttackTime c' = lastAttackTime c.
Proof.
  unfold reactToDamage.
  repeat match goal with |- context [if ?b then _ else _] => destruct b end;
    cbn; repeat split; reflexivity.
Qed.

Lemma killCreature_creature c env e :
  fst (killCreature c env e) = setHealth (Fin 0) (setIsDead true c).
Proof. reflexivity. Qed.

(** What [damageCreature] leaves of a live creature: the reaction is applied
    to the creature with its health reduced, and the creature is then killed
    if that health is 0 or less. *)
Lemma damageCreature_live c damage attacker env e :
  isDead c = false ->
  let c2 := reactToDamage attacker (setHealth (Num.sub (health c) damage) c) in
  fst (damageCreature c damage attacker env e) =
    if Num.leb (Num.sub (health c) damage) (Fin 0)
    then setHealth (Fin 0) (setIsDead true c2)
    else c2.
Proof.
  intros Hlive c2. subst c2. unfold damageCreature. rewrite Hlive. cbv zeta.
  destruct (reactToDamage_frame attacker (setHealth (Num.sub (health c) damage) c))
    as (_ & _ & Hh & _).
  rewrite Hh. cbn [health setHealth].
  destruct (Num.leb _ _); reflexivity.
Qed.

(** C5, as the source has it.  A hit on a live creature changes its
    behaviour before the death check, by the first case that applies: a
    passive creature, and a neutral one with [aggroOnHit], flees with the
    state timer at 5000; an aggressive creature, and a neutral one without
    [aggroOnHit], chases, with the attacker that was passed as its target
    (the player's position if none was passed).  This holds whether or not
    the hit kills. *)
Theorem damageCreature_reaction
    (c : Creature) (damage : number) (attacker : option Ref) (env : Env)
    (e : Effects) :
  isDead c = false ->
  let sp := speciesData c in
  let c' := fst (damageCreature c damage attacker env e) in
  (Species.behavior sp = Species.passive
   \/ (Species.behavior sp = Species.neutral /\ Species.aggroOnHit sp = true) ->
   state c' = flee /\ stateTimer c' = Fin 5000)
  /\ (Species.behavior sp = Species.aggressive
      \/ (Species.behavior sp = Species.neutral /\ Species.aggroOnHit sp = false) ->
      state c' = chase
      /\ target c' = Some (match attacker with
                           | Some a => a
                           | None => PlayerPosition
                           end)).
Proof.
  intros Hlive sp c'. subst c'. rewrite damageCreature_live by exact Hlive.
  unfold reactToDamage. cbn [speciesData setHealth]. fold sp.
  split.
  - intros [Hb | [Hb Ha]]; rewrite Hb; [| rewrite Ha]; cbn;
      destruct (Num.leb _ _); split; reflexivity.
  - intros [Hb | [Hb Ha]]; rewrite Hb; [| rewrite Ha]; cbn;
      destruct (Num.leb _ _); split; reflexivity.
Qed.

End Combat.

(** *** What a tick leaves alone *)

Section Vitals.

Import CreatureSystem.
Context `{Runtime}.

Ltac split_cases :=
  repeat match goal with
         | |- context [if ?b then _ else _] => destruct b
         | |- context [match ?x with _ => _ end] => destruct x
         end.

Lemma sameVitals_refl c : sameVitals c c.
Proof. now repeat split. Qed.

Lemma sameVitals_trans c1 c2 c3 :
  sameVitals c1 c2 -> sameVitals c2 c3 -> sameVitals c1 c3.
Proof.
  intros (? & ? & ? & ? & ?) (? & ? & ? & ? & ?). repeat split; congruence.
Qed.

Lemma tickStateTimer_vitals c dt : sameVitals (tickStateTimer c dt) c.
Proof. unfold tickStateTimer. split_cases; now repeat split. Qed.

Lemma updateIdle_vitals c d dt env e : sameVitals (fst (updateIdle c d dt env e)) c.
Proof. unfold updateIdle, mathRandom. split_cases; now repeat split. Qed.

Lemma updateWander_vitals c d dt env e :
  sameVitals (fst (updateWander c d dt env e)) c.
Proof.
  unfold updateWander, pickWanderTarget, mathRandom.
  destruct (_ && _); [now repeat split |].
  destruct (wanderTarget c) as [w |] eqn:Hw; cbn.
  - destruct (Num.ltb _ _); cbn; [| rewrite Hw]; now repeat split.
  - now repeat split.
Qed.

Lemma updateChase_vitals c d dt env e : sameVitals (fst (updateChase c d dt env e)) c.
Proof. unfold updateChase. split_cases; now repeat split. Qed.

Lemma updateAttack_vitals c d dt env e :
  sameVitals (fst (updateAttack c d dt env e)) c.
Proof. unfold updateAttack. split_cases; now repeat split. Qed.

Lemma updateFlee_vitals c d dt env e : sameVitals (fst (updateFlee c d dt env e)) c.
Proof. unfold updateFlee. now repeat split. Qed.

Lemma applyMovement_vitals c dt : sameVitals (applyMovement c dt) c.
Proof. unfold applyMovement. now repeat split. Qed.

(** A tick changes neither the identity, nor the species, nor the health of
    a creature, and kills nobody. *)
Lemma updateCreature_vitals c dt env e :
  sameVitals (fst (updateCreature c dt env e)) c.
Proof.
  unfold updateCreature.
  set (c1 := tickStateTimer c dt).
  set (d := distanceTo (position c1) (playerPosition env)).
  assert (Hc1 : sameVitals c1 c) by apply tickStateTimer_vitals.
  destruct (state c1).
  - pose proof (updateIdle_vitals c1 d dt env e) as Hv.
    destruct (updateIdle c1 d dt env e) as [c2 e2]. cbn [fst] in *.
    eauto using sameVitals_trans, applyMovement_vitals.
  - pose proof (updateWander_vitals c1 d dt env e) as Hv.
    destruct (updateWander c1 d dt env e) as [c2 e2]. cbn [fst] in *.
    eauto using sameVitals_trans, applyMovement_vitals.
  - pose proof (updateChase_vitals c1 d dt env e) as Hv.
    destruct (updateChase c1 d dt env e) as [c2 e2]. cbn [fst] in *.
    eauto using sameVitals_trans, applyMovement_vitals.
  - pose proof (updateAttack_vitals c1 d dt env e) as Hv.
    destruct (updateAttack c1 d dt env e) as [c2 e2]. cbn [fst] in *.
    eauto using sameVitals_trans, applyMovement_vitals.
  - pose proof (updateFlee_vitals c1 d dt env e) as Hv.
    destruct (updateFlee c1 d dt env e) as [c2 e2]. cbn [fst] in *.
    eauto using sameVitals_trans, applyMovement_vitals.
Qed.

Lemma sameVitals_deadAtZero c' c : sameVitals c' c -> deadAtZero c -> deadAtZero c'.
Proof. intros (_ & _ & Hh & _ & Hd) Hc. unfold deadAtZero. rewrite Hh, Hd. exact Hc. Qed.

Lemma damageCreature_deadAtZero c damage attacker env e :
  deadAtZero c -> deadAtZero (fst (damageCreature c damage attacker env e)).
Proof.
  intros Hc. destruct (isDead c) eqn:Hdead.
  - now rewrite damageCreature_dead.
  - rewrite damageCreature_live by exact Hdead.
    destruct (Num.leb _ _); [intros _; reflexivity |].
    destruct (reactToDamage_frame attacker (setHealth (Num.sub (health c) damage) c))
      as (_ & _ & _ & Hd & _).
    unfold deadAtZero. rewrite Hd. cbn. congruence.
Qed.

Lemma spawnCreature_live sp pos env e : isDead (fst (spawnCreature sp pos env e)) = false.
Proof. reflexivity. Qed.

Lemma spawnRandomCreature_deadAtZero env cs e :
  Forall deadAtZero cs -> Forall deadAtZero (fst (spawnRandomCreature env cs e)).
Proof.
  intros Hcs. unfold spawnRandomCreature, mathRandom.
  destruct (findSpawnPosition _) as [[pos |] e2]; [| exact Hcs].
  destruct (selectSpecies _ _ _) as [sp |]; [| exact Hcs].
  pose proof (spawnCreature_live sp pos env e2) as Hlive.
  destruct (spawnCreature sp pos env e2) as [c e3]. cbn [fst] in *.
  apply Forall_app. split; [exact Hcs |].
  constructor; [| constructor]. unfold deadAtZero. congruence.
Qed.

Lemma spawnInitialCreaturesFrom_deadAtZero n env : forall cs e,
  Forall deadAtZero cs ->
  Forall deadAtZero (fst (spawnInitialCreaturesFrom n env cs e)).
Proof.
  induction n as [| n IH]; intros cs e Hcs; cbn [spawnInitialCreaturesFrom];
    [exact Hcs |].
  pose proof (spawnRandomCreature_deadAtZero env cs e Hcs) as Hs.
  destruct (spawnRandomCreature env cs e) as [cs' e']. now apply IH.
Qed.

Lemma updateFrom_deadAtZero cs dt env : forall e,
  Forall deadAtZero cs -> Forall deadAtZero (fst (updateFrom cs dt env e)).
Proof.
  induction cs as [| c rest IH]; intros e Hcs; cbn [updateFrom]; [constructor |].
  apply Forall_cons in Hcs as [Hc Hrest].
  destruct (isDead c) eqn:Hdead.
  - specialize (IH e Hrest). destruct (updateFrom rest dt env e) as [rest' e'].
    now constructor.
  - pose proof (updateCreature_vitals c dt env e) as Hv.
    destruct (updateCreature c dt env e) as [c' e1]. cbn [fst] in Hv.
    specialize (IH e1 Hrest). destruct (updateFrom rest dt env e1) as [rest' e'].
    constructor; [| exact IH]. now apply (sameVitals_deadAtZero c' c).
Qed.

(** The loop of [update] steps over a dead creature. *)
Lemma updateFrom_skips_dead cs dt env : forall e i c,
  cs !! i = Some c -> isDead c = true ->
  fst (updateFrom cs dt env e) !! i = Some c.
Proof.
  induction cs as [| c0 rest IH]; intros e i c Hi Hdead; [discriminate |].
  cbn [updateFrom]. destruct i as [| i].
  - injection Hi as ->. rewrite Hdead.
    now destruct (updateFrom rest dt env e).
  - cbn in Hi. destruct (isDead c0).
    + specialize (IH e i c Hi Hdead). now destruct (updateFrom rest dt env e).
    + destruct (updateCreature c0 dt env e) as [c' e1].
      specialize (IH e1 i c Hi Hdead). now destruct (updateFrom rest dt env e1).
Qed.

Lemma step_deadAtZero a s :
  Forall deadAtZero (creatures s) -> Forall deadAtZero (creatures (step a s)).
Proof.
  intros Hs. destruct a as [env | i damage attacker env | dt env | i]; cbn [step].
  - pose proof (spawnRandomCreature_deadAtZero env (creatures s) (effects s) Hs).
    now destruct (spawnRandomCreature env (creatures s) (effects s)).
  - unfold damageCreatureAt. destruct (creatures s !! i) as [c |] eqn:Hc; [| exact Hs].
    pose proof (damageCreature_deadAtZero c damage attacker env (effects s)) as Hd.
    destruct (damageCreature c damage attacker env (effects s)) as [c' e].
    cbn [creatures fst] in *. apply Forall_insert; [exact Hs |].
    apply Hd. now apply (proj1 (Forall_lookup _ _) Hs i).
  - unfold update.
    pose proof (updateFrom_deadAtZero (creatures s) dt env (effects s) Hs).
    now destruct (updateFrom (creatures s) dt env (effects s)).
  - unfold fadeOutDone. destruct (creatures s !! i) as [c |]; [| exact Hs].
    destruct (isDead c); [| exact Hs]. cbn. now apply Forall_delete.
Qed.

Lemma run_deadAtZero acts : forall s,
  Forall deadAtZero (creatures s) -> Forall deadAtZero (creatures (run acts s)).
Proof.
  induction acts as [| a rest IH]; intros s Hs; cbn [run]; [exact Hs |].
  apply IH. now apply step_deadAtZero.
Qed.

Lemma create_deadAtZero env e : Forall deadAtZero (creatures (create env e)).
Proof.
  unfold create.
  pose proof (spawnInitialCreaturesFrom_deadAtZero maxCreatures env [] e
                (List.Forall_nil _)) as Hs.
  now destruct (spawnInitialCreaturesFrom maxCreatures env [] e).
Qed.

(** C4.  In a creature system, after anything that can happen to it, a dead
    creature has health 0; [getClosestCreature] never returns a dead
    creature, however close; and [update] leaves every dead creature as it
    is. *)
Theorem dead_creatures_excluded (acts : list Action) (env0 : Env) (e0 : Effects) :
  let s := run acts (create env0 e0) in
  (forall i c, creatures s !! i = Some c -> isDead c = true -> health c = Fin 0)
  /\ (forall pos maxDistance i,
        getClosestCreature pos maxDistance s = Some i ->
        exists c, creatures s !! i = Some c /\ isDead c = false)
  /\ (forall deltaTime env i c,
        creatures s !! i = Some c -> isDead c = true ->
        creatures (update deltaTime env s) !! i = Some c).
Proof.
  intros s. repeat split.
  - intros i c Hc.
    pose proof (run_deadAtZero acts (create env0 e0) (create_deadAtZero env0 e0)) as Hs.
    now apply (proj1 (Forall_lookup _ _) Hs i).
  - intros pos maxDistance i. unfold getClosestCreature.
    destruct (closestFrom_spec isDead position pos (creatures s) 0 None maxDistance)
      as [[Hr _] | (k & c & Hr & Hk & Hlive & _)]; rewrite Hr; [discriminate |].
    intros [= <-]. now exists c.
  - intros dt env i c Hc Hdead. unfold update.
    pose proof (updateFrom_skips_dead (creatures s) dt env (effects s) i c Hc Hdead).
    now destruct (updateFrom (creatures s) dt env (effects s)).
Qed.

End Vitals.

(** *** The chase state *)

Section Chase.

Import CreatureSystem.
Context `{Runtime}.

Lemma tickStateTimer_quiet c dt :
  timerQuiet c dt ->
  let c1 := tickStateTimer c dt in
  state c1 = state c /\ position c1 = position c /\ velocity c1 = velocity c
  /\ speciesData c1 = speciesData c /\ target c1 = target c.
Proof.
  intros Hq. unfold tickStateTimer.
  destruct (Num.gtb (stateTimer c) (Fin 0)) eqn:Hrun; [| easy].
  destruct Hq as [Hq | Hq]; [congruence |].
  cbn [stateTimer setStateTimer]. rewrite Hq. easy.
Qed.

Lemma tickStateTimer_idle c dt :
  state c = idle ->
  let c1 := tickStateTimer c dt in
  state c1 = idle /\ position c1 = position c /\ speciesData c1 = speciesData c.
Proof.
  intros Hs. unfold tickStateTimer.
  destruct (Num.gtb (stateTimer c) (Fin 0)); [| easy].
  cbn [stateTimer setStateTimer]. now destruct (Num.leb _ _).
Qed.

(** In the registry the attack range lies below one and a half times the
    detection range, so the two exits of the chase state exclude each
    other. *)
Lemma registry_ranges sp d :
  In sp initializeSpecies ->
  Num.lt d (Species.attackRange sp) ->
  Num.lt (Num.mul (Species.detectionRange sp) (Fin 1.5)) d ->
  False.
Proof.
  intros Hin. destruct d as [q |]; [| cbn; tauto].
  cbn in Hin. destruct Hin as [<- | [<- | [<- | [<- | [<- | []]]]]]; cbn; lra.
Qed.

Lemma applyMovement_state c dt :
  state (applyMovement c dt) = state c /\ target (applyMovement c dt) = target c
  /\ rotation (applyMovement c dt) = rotation c.
Proof. easy. Qed.

(** C7, as the source has it.  Take a live creature of a registered species.
    If it is in the chase state and its state timer does not run out during
    the tick, then the tick makes it attack exactly when the distance to the
    player is below the attack range, makes it idle, with its target
    cleared, exactly when the distance is above 1.5 times the detection
    range, and otherwise leaves it chasing: it turns towards the player and
    its position advances by the unit direction to the player times the
    species speed times the length of the tick.  In particular a wolf
    (detection range 25) leaves the chase for idle at a distance above 37.5;
    and an idle wolf with the player nearer than 25, so at distance 10,
    chases after one tick, whatever its timer. *)
Theorem chase_transitions
    (c : Creature) (deltaTime : number) (env : Env) (e : Effects) :
  isDead c = false ->
  In (speciesData c) initializeSpecies ->
  let sp := speciesData c in
  let d := distanceTo (position c) (playerPosition env) in
  let c' := fst (updateCreature c deltaTime env e) in
  (state c = chase -> timerQuiet c deltaTime ->
   (state c' = attack <-> Num.lt d (Species.attackRange sp))
   /\ (state c' = idle <->
       Num.lt (Num.mul (Species.detectionRange sp) (Fin 1.5)) d)
   /\ (state c' = idle -> target c' = None)
   /\ (state c' = chase \/ state c' = attack \/ state c' = idle)
   /\ (state c' = chase ->
       let direction := normalize (subVectors (playerPosition env) (position c)) in
       vx (position c') =
         Num.add (vx (position c))
                 (Num.mul (Num.mul (vx direction) (Species.speed sp)) deltaTime)
       /\ vz (position c') =
            Num.add (vz (position c))
                    (Num.mul (Num.mul (vz direction) (Species.speed sp)) deltaTime)
       /\ rotation c' = atan2 (vx direction) (vz direction))
   /\ (sp = Species.wolf -> Num.lt (Fin 37.5) d -> state c' = idle))
  /\ (state c = idle -> sp = Species.wolf -> Num.lt d (Fin 25) ->
      state c' = chase).
Proof.
  intros Hlive Hreg sp d c'. split.
  - intros Hchase Hquiet.
    destruct (tickStateTimer_quiet c deltaTime Hquiet) as (Hs & Hp & Hv & Hsp & Ht).
    assert (Hc' : c' = applyMovement
                         (fst (updateChase (tickStateTimer c deltaTime) d deltaTime env e))
                         deltaTime).
    { subst c' d. unfold updateCreature. rewrite Hs, Hchase, Hp.
      now destruct (updateChase _ _ _ _ _). }
    assert (Hcases :
      (Num.ltb d (Species.attackRange sp) = true /\ state c' = attack)
      \/ (Num.ltb d (Species.attackRange sp) = false
          /\ Num.ltb (Num.mul (Species.detectionRange sp) (Fin 1.5)) d = true
          /\ state c' = idle /\ target c' = None)
      \/ (Num.ltb d (Species.attackRange sp) = false
          /\ Num.ltb (Num.mul (Species.detectionRange sp) (Fin 1.5)) d = false
          /\ state c' = chase
          /\ c' = applyMovement
                    (let direction :=
                       normalize (subVectors (playerPosition env) (position c)) in
                     setRotation (atan2 (vx direction) (vz direction))
                       (setVelocityXZ
                          (Num.mul (vx direction) (Species.speed sp))
                          (Num.mul (vz direction) (Species.speed sp))
                          (tickStateTimer c deltaTime)))
                    deltaTime)).
    { rewrite Hc'. unfold updateChase, Num.gtb. rewrite Hsp, Hp. fold sp.
      destruct (Num.ltb d (Species.attackRange sp)); [left; easy |].
      destruct (Num.ltb (Num.mul (Species.detectionRange sp) (Fin 1.5)) d).
      - right; left. easy.
      - right; right. cbn [fst]. repeat split; try reflexivity.
        cbn. congruence. }
    assert (Hexcl : Num.lt d (Species.attackRange sp) ->
                    Num.lt (Num.mul (Species.detectionRange sp) (Fin 1.5)) d -> False)
      by (apply registry_ranges; exact Hreg).
    destruct Hcases as [(Ha & Hst) | [(Ha & Hi & Hst & Htg) | (Ha & Hi & Hst & Heq)]].
    + (* within the attack range *)
      apply ltb_lt in Ha. rewrite Hst. repeat split; try easy.
      * intros Hfar. exfalso. now apply Hexcl.
      * right; left; reflexivity.
      * intros Hw Hfar. exfalso. apply Hexcl; [exact Ha |].
        rewrite Hw. destruct d; cbn in *; [lra | tauto].
    + (* beyond one and a half times the detection range *)
      apply ltb_lt in Hi. apply not_true_iff_false in Ha. rewrite ltb_lt in Ha.
      rewrite Hst. repeat split; try easy.
      right; right; reflexivity.
    + (* still chasing *)
      apply not_true_iff_false in Ha, Hi. rewrite ltb_lt in Ha, Hi.
      rewrite Hst. repeat split; try easy.
      * left; reflexivity.
      * rewrite Heq. cbn. now rewrite Hp.
      * rewrite Heq. cbn. now rewrite Hp.
      * rewrite Heq. reflexivity.
      * intros Hw Hfar. exfalso. apply Hi. rewrite Hw.
        destruct d; cbn in *; [lra | tauto].
  - intros Hidle Hw Hnear.
    destruct (tickStateTimer_idle c deltaTime Hidle) as (Hs & Hp & Hsp).
    subst c'. unfold updateCreature. rewrite Hs, Hp. fold d.
    unfold updateIdle. rewrite Hsp. fold sp. rewrite Hw. cbn [Species.behavior Species.wolf Species.eqb Species.detectionRange andb].
    apply ltb_lt in Hnear. rewrite Hnear. reflexivity.
Qed.

End Chase.

(** *** The attack cooldown *)

Section AttackCadence.

Import CreatureSystem.
Context `{Runtime}.

Ltac split_branches :=
  repeat match goal with
         | |- context [if ?b then _ else _] => destruct b
         end.

Lemma quiet_call env c e c' e' :
  speciesData c' = speciesData c ->
  lastAttackTime c' = lastAttackTime c ->
  attackTimes (trace e') = attackTimes (trace e) ->
  attacksAtMostOnce env c e (c', e').
Proof. intros Hsp Hl Ht. split; [exact Hsp | left; now split]. Qed.

Lemma tickStateTimer_attack c dt :
  speciesData (tickStateTimer c dt) = speciesData c
  /\ lastAttackTime (tickStateTimer c dt) = lastAttackTime c.
Proof. unfold tickStateTimer. split_branches; now split. Qed.

Lemma updateIdle_attack c d dt env e : attacksAtMostOnce env c e (updateIdle c d dt env e).
Proof. unfold updateIdle, mathRandom. split_branches; now apply quiet_call. Qed.

Lemma updateWander_attack c d dt env e :
  attacksAtMostOnce env c e (updateWander c d dt env e).
Proof.
  unfold updateWander, pickWanderTarget, mathRandom.
  destruct (_ && _); [now apply quiet_call |].
  destruct (wanderTarget c) as [w |] eqn:Hw; cbn.
  - destruct (Num.ltb _ _); cbn; [| rewrite Hw]; now apply quiet_call.
  - now apply quiet_call.
Qed.

Lemma updateChase_attack c d dt env e :
  attacksAtMostOnce env c e (updateChase c d dt env e).
Proof. unfold updateChase. split_branches; now apply quiet_call. Qed.

Lemma updateFlee_attack c d dt env e : attacksAtMostOnce env c e (updateFlee c d dt env e).
Proof. unfold updateFlee. now apply quiet_call. Qed.

Lemma performAttack_times c env e :
  attackTimes (trace (performAttack c env e)) = now env :: attackTimes (trace e).
Proof. unfold performAttack. now destruct (playerPresent env). Qed.

Lemma updateAttack_attack c d dt env e :
  attacksAtMostOnce env c e (updateAttack c d dt env e).
Proof.
  unfold updateAttack.
  destruct (Num.gtb d _); [now apply quiet_call |].
  cbn [lastAttackTime setRotation setVelocityXZ setVelocity].
  destruct (Num.gtb (Num.sub (now env) (lastAttackTime c)) _) eqn:Hcd;
    [| now apply quiet_call].
  split; [reflexivity | right]. cbn [fst snd].
  rewrite performAttack_times. repeat split.
  now apply ltb_lt.
Qed.

Lemma updateCreature_attack c dt env e :
  attacksAtMostOnce env c e (updateCreature c dt env e).
Proof.
  unfold updateCreature.
  destruct (tickStateTimer_attack c dt) as [Hsp Hl].
  set (c1 := tickStateTimer c dt) in *.
  set (d := distanceTo (position c1) (playerPosition env)).
  assert (Hstep : forall r, attacksAtMostOnce env c1 e r ->
                    attacksAtMostOnce env c e (applyMovement (fst r) dt, snd r)).
  { intros [c2 e2] (Hsp2 & Hcase). unfold attacksAtMostOnce. cbn [fst snd] in *.
    rewrite <- Hsp, <- Hl. split; [exact Hsp2 | exact Hcase]. }
  destruct (state c1).
  - specialize (Hstep _ (updateIdle_attack c1 d dt env e)).
    now destruct (updateIdle c1 d dt env e).
  - specialize (Hstep _ (updateWander_attack c1 d dt env e)).
    now destruct (updateWander c1 d dt env e).
  - specialize (Hstep _ (updateChase_attack c1 d dt env e)).
    now destruct (updateChase c1 d dt env e).
  - specialize (Hstep _ (updateAttack_attack c1 d dt env e)).
    now destruct (updateAttack c1 d dt env e).
  - specialize (Hstep _ (updateFlee_attack c1 d dt env e)).
    now destruct (updateFlee c1 d dt env e).
Qed.

Lemma dropLootFrom_times drops c env : forall e,
  attackTimes (trace (dropLootFrom drops c env e)) = attackTimes (trace e).
Proof.
  induction drops as [| d rest IH]; intros e; cbn [dropLootFrom]; [reflexivity |].
  unfold mathRandom. destruct (_ && _); now rewrite IH.
Qed.

Lemma damageCreature_attack c damage attacker env e :
  attacksAtMostOnce env c e (damageCreature c damage attacker env e).
Proof.
  unfold damageCreature. destruct (isDead c); [now apply quiet_call |].
  destruct (reactToDamage_frame attacker (setHealth (Num.sub (health c) damage) c))
    as (_ & Hsp & _ & _ & _ & Hl).
  cbv zeta. destruct (Num.leb _ _).
  - apply quiet_call; cbn [fst snd killCreature]; try assumption.
    unfold dropLoot. now rewrite dropLootFrom_times.
  - now apply quiet_call.
Qed.

Lemma stepCreature_cadence st c e first :
  cadence first (Species.attackCooldown (speciesData c)) c (trace e) ->
  let r := stepCreature st c e in
  speciesData (fst r) = speciesData c
  /\ cadence first (Species.attackCooldown (speciesData c)) (fst r) (trace (snd r)).
Proof.
  intros [Hsp Hlast] r.
  assert (Hr : exists env, attacksAtMostOnce env c e r).
  { subst r. destruct st as [dt env | damage attacker env]; exists env; cbn [stepCreature].
    - destruct (isDead c); [now apply quiet_call | apply updateCreature_attack].
    - apply damageCreature_attack. }
  destruct Hr as (env & Hsd & [[Ht Hl] | (Ht & Hl & Hcd)]); split; try exact Hsd.
  - unfold cadence. rewrite Ht, Hl. now split.
  - unfold cadence. rewrite Ht, Hl. split; [| reflexivity].
    destruct (attackTimes (trace e)) as [| newest older] eqn:Hold; [exact I |].
    cbn [spacedBy]. split; [| exact Hsp]. now rewrite <- Hlast.
Qed.

Lemma runCreature_cadence steps first : forall c e,
  cadence first (Species.attackCooldown (speciesData c)) c (trace e) ->
  let r := runCreature steps c e in
  cadence first (Species.attackCooldown (speciesData c)) (fst r) (trace (snd r)).
Proof.
  induction steps as [| st rest IH]; intros c e Hc; cbn [runCreature]; [exact Hc |].
  destruct (stepCreature_cadence st c e first Hc) as [Hsp Hc'].
  destruct (stepCreature st c e) as [c' e']. cbn [fst snd] in *.
  rewrite <- Hsp. apply IH. now rewrite Hsp.
Qed.

(** C8.  Follow one creature through any sequence of ticks and hits, however
    close in time.  Between two successive calls of [performAttack] more
    than the species' [attackCooldown] passes, and [lastAttackTime] is the
    time of the newest call (its initial value if there was none). *)
Theorem attack_cadence (steps : list CreatureStep) (c0 : Creature) (n : nat) :
  let r := runCreature steps c0 (mkEffects n []) in
  let times := attackTimes (trace (snd r)) in
  spacedBy (Species.attackCooldown (speciesData c0)) times
  /\ lastAttackTime (fst r) = match times with
                             | newest :: _ => newest
                             | [] => lastAttackTime c0
                             end.
Proof.
  apply (runCreature_cadence steps (lastAttackTime c0) c0 (mkEffects n [])).
  now split.
Qed.

End AttackCadence.

(** *** The search for a spawn position *)

Section Spawn.

Import CreatureSystem.
Context `{Runtime}.

Lemma findSpawnPositionFrom_spec k : forall e,
  match fst (findSpawnPositionFrom k e) with
  | Some p =>
      exists j, (j < k)%nat
                /\ p = spawnCandidate (randomCalls e + 2 * j)
                /\ onLand (vy p) = true
  | None =>
      forall j, (j < k)%nat ->
                onLand (vy (spawnCandidate (randomCalls e + 2 * j))) = false
  end.
Proof.
  induction k as [| k IH]; intros e; cbn [findSpawnPositionFrom fst].
  - intros j Hj. lia.
  - destruct (onLand (vy (spawnCandidate (randomCalls e)))) eqn:Hland; cbn [fst].
    + exists 0%nat. rewrite Nat.add_0_r. repeat split; [lia | exact Hland].
    + specialize (IH (mkEffects (S (S (randomCalls e))) (trace e))).
      cbn [randomCalls] in IH.
      destruct (fst (findSpawnPositionFrom k _)) as [p |].
      * destruct IH as (j & Hj & Hp & Hl). exists (S j).
        repeat split; [lia | | exact Hl].
        rewrite Hp. f_equal. lia.
      * intros [| j] Hj.
        -- now rewrite Nat.add_0_r.
        -- replace (randomCalls e + 2 * S j)%nat
             with (S (S (randomCalls e)) + 2 * j)%nat by lia.
           apply IH. lia.
Qed.

Lemma findSpawnPosition_attempts e :
  match fst (findSpawnPosition e) with
  | Some p =>
      exists j, (j < 20)%nat
                /\ p = spawnCandidate (randomCalls e + 2 * j)
                /\ onLand (vy p) = true
  | None =>
      forall j, (j < 20)%nat ->
                onLand (vy (spawnCandidate (randomCalls e + 2 * j))) = false
  end.
Proof. exact (findSpawnPositionFrom_spec 20 e). Qed.

Lemma onLand_band h :
  onLand h = true -> Num.lt (Fin (-1)) h /\ Num.lt h (Fin 15).
Proof.
  unfold onLand, Num.gtb. intros Hb. apply andb_true_iff in Hb as [Hlo Hhi].
  now rewrite <- !ltb_lt.
Qed.

(** X30.  What [findSpawnPosition] returns.  With [Math.random()] in [[0, 1)],
    a position it returns is the point [(cos a * d, h, sin a * d)] for an
    angle [a] and a distance [d] drawn as [20 + Math.random() * spawnRadius],
    so at least 20 and below 20 + [spawnRadius], at the height [h] of the
    terrain there, which is strictly between -1 and 15.  The search returns
    nothing exactly when none of its 20 attempts is on land, and then
    [spawnRandomCreature] adds no creature. *)
Theorem findSpawnPosition_spec :
  randomInUnitInterval ->
  (forall e p,
      fst (findSpawnPosition e) = Some p ->
      (exists n r,
          random (S n) = Fin r /\ 0 <= r /\ r < 1
          /\ let angle := Num.mul (Num.mul (random n) PI) (Fin 2) in
             let distance := Num.add (Fin 20) (Num.mul (Fin r) spawnRadius) in
             vx p = Num.mul (cos angle) distance
             /\ vz p = Num.mul (sin angle) distance
             /\ Num.le (Fin 20) distance
             /\ Num.lt distance (Num.add (Fin 20) spawnRadius))
      /\ vy p = getHeightAt (vx p) (vz p)
      /\ Num.lt (Fin (-1)) (vy p) /\ Num.lt (vy p) (Fin 15))
  /\ (forall e,
        fst (findSpawnPosition e) = None <->
        forall j, (j < 20)%nat ->
                  onLand (vy (spawnCandidate (randomCalls e + 2 * j))) = false)
  /\ (forall env cs e,
        fst (findSpawnPosition (snd (mathRandom e))) = None ->
        fst (spawnRandomCreature env cs e) = cs).
Proof.
  intros Hrand. split; [| split].
  - intros e p Hp. pose proof (findSpawnPosition_attempts e) as Hs.
    rewrite Hp in Hs. destruct Hs as (j & _ & -> & Hl). split; [| split].
    + exists (randomCalls e + 2 * j)%nat.
      destruct (Hrand (S (randomCalls e + 2 * j))) as (r & Hr & Hr0 & Hr1).
      exists r. split; [exact Hr |]. split; [exact Hr0 |]. split; [exact Hr1 |].
      unfold spawnCandidate. cbn [vx vz]. rewrite Hr.
      split; [reflexivity |]. split; [reflexivity |].
      unfold spawnRadius. cbn. split; nra.
    + reflexivity.
    + now apply onLand_band.
  - intros e. pose proof (findSpawnPosition_attempts e) as Hs. split.
    + intros Hnone. rewrite Hnone in Hs. exact Hs.
    + intros Hall. destruct (fst (findSpawnPosition e)) as [p |]; [| reflexivity].
      destruct Hs as (j & Hj & -> & Hl). rewrite (Hall j Hj) in Hl. discriminate.
  - intros env cs e Hnone. unfold spawnRandomCreature.
    destruct (mathRandom e) as [r e1]. cbn [snd] in Hnone.
    destruct (findSpawnPosition e1) as [spawnPos e2]. cbn [fst] in Hnone.
    rewrite Hnone. reflexivity.
Qed.

(** C9, at the input on which the source leaves the ring.  [Math.cos] and
    [Math.sin] are 1 and 0 at the angle 0.  When [Math.random()] returns 0
    for the angle and [r] for the distance, and the terrain is land at the
    point [20 + r * spawnRadius] on the x axis, that point is what
    [findSpawnPosition] returns, after one attempt; for [r] above 3/4 it is
    farther from the world centre than [spawnRadius]. *)
Theorem findSpawnPosition_beyond_spawnRadius
    (n : nat) (tr : list (number * Event)) (r h : Q) :
  let angle := Num.mul (Num.mul (Fin 0) PI) (Fin 2) in
  let distance := Num.add (Fin 20) (Num.mul (Fin r) spawnRadius) in
  let x := Num.mul (Fin 1) distance in
  let z := Num.mul (Fin 0) distance in
  random n = Fin 0 ->
  random (S n) = Fin r ->
  cos angle = Fin 1 ->
  sin angle = Fin 0 ->
  getHeightAt x z = Fin h ->
  -1 < h ->
  h < 15 ->
  findSpawnPosition (mkEffects n tr)
    = (Some (mkVector3 x (Fin h) z), mkEffects (S (S n)) tr)
  /\ (exists q, z = Fin q /\ q == 0)
  /\ (3 # 4 < r -> Num.lt spawnRadius x).
Proof.
  intros angle distance x z Hr0 Hr Hcos Hsin Hh Hlo Hhi.
  assert (Hcand : spawnCandidate n = mkVector3 x (Fin h) z).
  { unfold spawnCandidate. rewrite Hr0, Hr. fold angle. rewrite Hcos, Hsin.
    fold distance x z. now rewrite Hh. }
  split; [| split].
  - unfold findSpawnPosition. cbn [findSpawnPositionFrom randomCalls trace].
    rewrite Hcand. cbn [vy]. unfold onLand, Num.gtb.
    assert (H1 : Num.ltb (Fin (-1)) (Fin h) = true) by (apply ltb_lt; exact Hlo).
    assert (H2 : Num.ltb (Fin h) (Fin 15) = true) by (apply ltb_lt; exact Hhi).
    now rewrite H1, H2.
  - subst z distance. unfold spawnRadius. cbn. eexists. split; [reflexivity | ring].
  - intros Hbig. subst x distance. unfold spawnRadius. cbn. lra.
Qed.

End Spawn.

(** * The theorems on concrete inputs *)

Section OnConcreteInputs.

Import ResourceSystem.



(** A wooden pickaxe (multiplier 1.5) on a rock takes 1 health and yields
    floor (1 * 1.5) = 1 stone; a stone axe (multiplier 2) on a tree takes 2
    health and yields 2 wood. *)
Example gather_rock_with_wooden_pickaxe :
  let s := run [Create "rock" (Fin 1) (Fin 0) (Fin 2)] empty in
  (health <$> resourceNodes (fst (gatherResource 0 (Fin 1.5) s)) !! 0%nat) = Some 7%Z
  /\ snd (gatherResource 0 (Fin 1.5) s) = Some (mkDrop "stone" (Fin (inject_Z 1))).
Proof. split; reflexivity. Qed.

Example gather_tree_with_stone_axe :
  let s := run [Create "tree" (Fin 1) (Fin 0) (Fin 2)] empty in
  (health <$> resourceNodes (fst (gatherResource 0 (Fin 2) s)) !! 0%nat) = Some 3%Z
  /\ snd (gatherResource 0 (Fin 2) s) = Some (mkDrop "wood" (Fin (inject_Z 2))).
Proof. split; reflexivity. Qed.

(** The call runs the particle loop first: with a wooden pickaxe it makes
    15 particles, and returns after the sixteenth test of the loop. *)
Example gather_runs_the_particle_loop :
  let s := run [Create "rock" (Fin 1) (Fin 0) (Fin 2)] empty in
  spawnGatherParticles 16 (particleCount (Fin 1.5)) = Some 15%nat
  /\ gatherResourceWithin 15 0 (Fin 1.5) s = None
  /\ gatherResourceWithin 16 0 (Fin 1.5) s = Some (gatherResource 0 (Fin 1.5) s).
Proof. repeat split; reflexivity. Qed.

Lemma respawn_after_delay_witness :
  let s1 := fst (gatherResource 0 (Fin 2)
                   (run [Create "plant" (Fin 1) (Fin 0) (Fin 2)] empty)) in
  let acts := [Advance 30000; Gather 0 (Fin 2); Advance 29999] in
  (exists n, resourceNodes (run acts s1) !! 0%nat = Some n /\ canGather n = false)
  /\ (exists n,
         resourceNodes (advance 1 (run acts s1)) !! 0%nat = Some n
         /\ canGather n = true /\ health n = maxHealth n /\ maxHealth n = 2%Z).
Proof.
  intros s1 acts.
  destruct (respawn_after_delay
              [Create "plant" (Fin 1) (Fin 0) (Fin 2)] 0 (Fin 2)
              (mkNode "plant" (mkVector3 (Fin 1) (Fin 0) (Fin 2)) 2 2 true 60000 None)
              (mkNode "plant" (mkVector3 (Fin 1) (Fin 0) (Fin 2)) 0 2 false 60000
                      (Some 0%nat))
              eq_refl eq_refl eq_refl eq_refl acts) as [_ Hwait].
  destruct (Hwait ltac:(cbn; lia)) as [Hdepleted Hrespawn].
  split; [exact Hdepleted | exact (Hrespawn 1%N ltac:(cbn; lia))].
Defined.

(** The nearest node is skipped while it is depleted, and a node at exactly
    the maximal distance is not returned. *)
Example getClosestNode_skips_depleted :
  let s := run [Create "plant" (Fin 1) (Fin 0) (Fin 0);
                Create "tree" (Fin 3) (Fin 0) (Fin 0);
                Gather 0 (Fin 2)] empty in
  getClosestNode (H := Demo.calm) Demo.origin (Fin 5) s = Some 1%nat
  /\ getClosestNode (H := Demo.calm) Demo.origin (Fin 3) s = None
  /\ getClosestNode (H := Demo.calm) Demo.origin (Fin 5) (advance 60000 s) = Some 0%nat.
Proof. repeat split; reflexivity. Qed.

End OnConcreteInputs.

Section CreaturesOnConcreteInputs.

Import CreatureSystem.

Lemma damageCreature_dead_noop_witness :
  isDead Demo.deadRabbit = true
  /\ damageCreature (H := Demo.calm) Demo.deadRabbit (Fin 10) (Some (Object 0))
       (Demo.envAt 3 2000) Demo.noEffects
     = (Demo.deadRabbit, Demo.noEffects).
Proof.
  split; [reflexivity |].
  exact (proj1 (damageCreature_dead_noop (H := Demo.calm) Demo.deadRabbit (Fin 10)
                  (Some (Object 0)) (Demo.envAt 3 2000) Demo.noEffects eq_refl)).
Defined.

(** A first hit of 10 kills the rabbit and drops its meat; a second hit
    leaves the trace as it is. *)
Example rabbit_killed_once :
  let env := Demo.envAt 3 1000 in
  let r1 := damageCreature (H := Demo.calm) (Demo.fresh Species.rabbit) (Fin 10)
              (Some (Object 0)) env Demo.noEffects in
  let r2 := damageCreature (H := Demo.calm) (fst r1) (Fin 10) (Some (Object 0)) env
              (snd r1) in
  map snd (trace (snd r1)) =
    [CreateGroundItem "meat" (Fin 1) (Fin 0) (Fin 0);
     Died (Fin 1000);
     TookDamage (Fin 1000) (Fin 10) (Fin (10 - 10))]
  /\ r2 = r1.
Proof. vm_compute. split; reflexivity. Qed.

(** C5 as stated fails: it has a neutral species chase, but the boar, which
    is neutral with [aggroOnHit], flees when hit, as the first case of the
    reaction says. *)
Lemma damageCreature_reaction_counterexample :
  let boar := Demo.fresh Species.boar in
  let hit := fst (damageCreature (H := Demo.calm) boar (Fin 10) (Some (Object 0))
                    (Demo.envAt 3 1000) Demo.noEffects) in
  isDead boar = false
  /\ Species.behavior (speciesData boar) = Species.neutral
  /\ state hit = flee
  /\ state hit <> chase
  /\ target hit = None.
Proof. repeat split; try reflexivity; try discriminate. Qed.

Lemma damageCreature_reaction_witness :
  let wolf := Demo.fresh Species.wolf in
  let hit := fst (damageCreature (H := Demo.calm) wolf (Fin 10) (Some (Object 7))
                    (Demo.envAt 3 1000) Demo.noEffects) in
  isDead wolf = false
  /\ state hit = chase /\ target hit = Some (Object 7).
Proof.
  intros wolf hit. split; [reflexivity |].
  apply (proj2 (damageCreature_reaction (H := Demo.calm) wolf (Fin 10) (Some (Object 7))
                  (Demo.envAt 3 1000) Demo.noEffects eq_refl)).
  left. reflexivity.
Defined.

(** C7 as stated fails when the state timer runs out during the tick.  The
    wolf of [Demo.wolfLateInChase] chases with 100 ms left on the timer that
    its wandering started.  One tick of 0.1 s later the timer has run out
    and the state has been reset to idle before the state machine looks at
    it: with the player at distance 1, inside the attack range 2, the wolf
    does not attack; with the player at distance 30, below 37.5, it leaves
    the chase. *)
Lemma chase_transitions_counterexample :
  let wolf := Demo.wolfLateInChase in
  let near := Demo.envAt 35.8 4100 in
  let far := Demo.envAt 64.8 4100 in
  isDead wolf = false
  /\ state wolf = chase
  /\ speciesData wolf = Species.wolf
  /\ Num.lt (Demo.distance (position wolf) (playerPosition near))
            (Species.attackRange (speciesData wolf))
  /\ state (fst (updateCreature (H := Demo.calm) wolf (Fin 0.1) near Demo.noEffects))
     <> attack
  /\ ~ Num.lt (Num.mul (Species.detectionRange (speciesData wolf)) (Fin 1.5))
              (Demo.distance (position wolf) (playerPosition far))
  /\ state (fst (updateCreature (H := Demo.calm) wolf (Fin 0.1) far Demo.noEffects))
     <> chase.
Proof.
  vm_compute. repeat split; try reflexivity; discriminate.
Qed.

(** What the wolf of the counterexample looks like. *)
Example wolfLateInChase_state :
  let wolf := Demo.wolfLateInChase in
  state wolf = chase
  /\ Num.leb (stateTimer wolf) (Fin 100) && Num.geb (stateTimer wolf) (Fin 100) = true
  /\ Num.leb (vx (position wolf)) (Fin 34.8) && Num.geb (vx (position wolf)) (Fin 34.8)
     = true.
Proof. vm_compute. repeat split. Qed.

Lemma chase_transitions_witness :
  let wolf := Demo.wolfChasing in
  let env := Demo.envAt 37 1300 in
  let wolf' := fst (updateCreature (H := Demo.calm) wolf (Fin 0.1) env Demo.noEffects) in
  isDead wolf = false
  /\ In (speciesData wolf) initializeSpecies
  /\ state wolf = chase
  /\ timerQuiet wolf (Fin 0.1)
  /\ (state wolf' = attack <->
      Num.lt (Demo.distance (position wolf) (playerPosition env))
             (Species.attackRange (speciesData wolf))).
Proof.
  intros wolf env wolf'.
  assert (Hlive : isDead wolf = false) by reflexivity.
  assert (Hreg : In (speciesData wolf) initializeSpecies)
    by (right; right; left; reflexivity).
  assert (Hchase : state wolf = chase) by reflexivity.
  assert (Hquiet : timerQuiet wolf (Fin 0.1)) by (right; reflexivity).
  repeat (split; [assumption |]).
  exact (proj1 (proj1 (chase_transitions (H := Demo.calm) wolf (Fin 0.1) env
                         Demo.noEffects Hlive Hreg) Hchase Hquiet)).
Defined.

(** The wolf attacks once it is in the attack state, not again 16 ms and
    1500 ms later, and again 1501 ms after its first attack. *)
Example wolf_attacks_on_cooldown :
  let player := 1 in
  attackTimes
    (trace (snd (runCreature (H := Demo.calm)
                   [Tick (Fin 0.016) (Demo.envAt player 10000);
                    Tick (Fin 0.016) (Demo.envAt player 10016);
                    Tick (Fin 0.016) (Demo.envAt player 10032);
                    Tick (Fin 0.016) (Demo.envAt player 10048);
                    Tick (Fin 0.016) (Demo.envAt player 11532);
                    Tick (Fin 0.016) (Demo.envAt player 11533)]
                   (Demo.fresh Species.wolf) Demo.noEffects)))
  = [Fin 11533; Fin 10032].
Proof. vm_compute. reflexivity. Qed.

Lemma dead_creatures_excluded_witness :
  let env := Demo.envAt 90 1000 in
  let s := run (H := Demo.lively) [Damage 0 (Fin 10) None env]
               (create (H := Demo.lively) env Demo.noEffects) in
  exists c,
    creatures s !! 0%nat = Some c
    /\ isDead c = true
    /\ health c = Fin 0
    /\ creatures (update (H := Demo.lively) (Fin 0.1) env s) !! 0%nat = Some c.
Proof.
  intros env s.
  destruct (dead_creatures_excluded (H := Demo.lively)
              [Damage 0 (Fin 10) None env] env Demo.noEffects)
    as (Hzero & _ & Hskip).
  fold s in Hzero, Hskip.
  destruct (creatures s !! 0%nat) as [c |] eqn:Hc; [| vm_compute in Hc; discriminate].
  assert (Hdead : isDead c = true).
  { vm_compute in Hc. injection Hc as <-. reflexivity. }
  exists c. split; [reflexivity |]. split; [exact Hdead |].
  split; [exact (Hzero 0%nat c Hc Hdead) | exact (Hskip (Fin 0.1) env 0%nat c Hc Hdead)].
Defined.

(** All creatures of this system stand at the same point, 92 on the x axis.
    The rabbit at index 0 is dead, so the search from that point returns
    the creature at index 1. *)
Example getClosestCreature_skips_dead :
  let env := Demo.envAt 90 1000 in
  let s := run (H := Demo.lively) [Damage 0 (Fin 10) None env]
               (create (H := Demo.lively) env Demo.noEffects) in
  length (creatures s) = 15%nat
  /\ getClosestCreature (H := Demo.lively) (Demo.onXAxis 92) (Fin 5) s = Some 1%nat.
Proof. vm_compute. split; reflexivity. Qed.

Lemma lively_random : randomInUnitInterval (H := Demo.lively).
Proof.
  intros n. cbn. unfold Demo.alternating.
  destruct (Nat.even n); eexists; (split; [reflexivity | lra]).
Qed.

(** With the angle drawn as 0 and the distance drawn as 20 + 0.9 * 80 = 92,
    on land, the search returns the point 92 on the x axis, which is farther
    from the centre than [spawnRadius] = 80. *)
Lemma findSpawnPosition_beyond_spawnRadius_witness :
  findSpawnPosition (H := Demo.lively) Demo.noEffects
    = (Some (mkVector3 (Num.mul (Fin 1) (Num.add (Fin 20) (Num.mul (Fin 0.9) spawnRadius)))
                       (Fin 0)
                       (Num.mul (Fin 0) (Num.add (Fin 20) (Num.mul (Fin 0.9) spawnRadius)))),
       mkEffects 2 [])
  /\ Num.lt spawnRadius
            (Num.mul (Fin 1) (Num.add (Fin 20) (Num.mul (Fin 0.9) spawnRadius))).
Proof.
  destruct (findSpawnPosition_beyond_spawnRadius (H := Demo.lively) 0 [] 0.9 0
              eq_refl eq_refl eq_refl eq_refl eq_refl
              ltac:(vm_compute; reflexivity) ltac:(vm_compute; reflexivity))
    as (Hpos & _ & Hfar).
  split; [exact Hpos | exact (Hfar ltac:(vm_compute; reflexivity))].
Defined.

Lemma findSpawnPosition_spec_witness :
  let p := mkVector3 (Fin 92.0) (Fin 0) (Fin 0.0) in
  randomInUnitInterval (H := Demo.lively)
  /\ fst (findSpawnPosition (H := Demo.lively) Demo.noEffects) = Some p
  /\ Num.lt (Fin (-1)) (vy p) /\ Num.lt (vy p) (Fin 15).
Proof.
  intros p.
  assert (Hp : fst (findSpawnPosition (H := Demo.lively) Demo.noEffects) = Some p)
    by (vm_compute; reflexivity).
  split; [exact lively_random |]. split; [exact Hp |].
  destruct (proj1 (findSpawnPosition_spec (H := Demo.lively) lively_random)
              Demo.noEffects p Hp) as (_ & _ & Hband).
  exact Hband.
Defined.

Example spawn_at_92 :
  fst (findSpawnPosition (H := Demo.lively) Demo.noEffects)
  = Some (mkVector3 (Fin 92.0) (Fin 0) (Fin 0.0)).
Proof. vm_compute. reflexivity. Qed.

(** Under water everywhere, every attempt fails and nothing spawns. *)
Example no_spawn_under_water :
  let sea := Demo.runtime Demo.alternating (Fin (-5)) in
  fst (findSpawnPosition (H := sea) Demo.noEffects) = None
  /\ creatures (create (H := sea) (Demo.envAt 0 1000) Demo.noEffects) = [].
Proof. vm_compute. split; reflexivity. Qed.

End CreaturesOnConcreteInputs.


(** * More of the resource system *)

Section MoreOfNodes.

Import ResourceSystem NodeLifecycle.

Lemma gatherResource_identity i m s n :
  resourceNodes s !! i = Some n ->
  exists n', resourceNodes (fst (gatherResource i m s)) !! i = Some n'.
Proof.
  intros Hn. destruct (step_keeps_node (Gather i m) s i n Hn) as (n' & Hn' & _).
  now exists n'.
Qed.

Lemma step_timersCover a s :
  invariant s -> timersCover s -> timersCover (step a s).
Proof.
  intros [Hnodes [Hnd Htm]] Hcover i n. destruct a as [ty x y z | j m | dt]; cbn [step].
  - cbn. intros Hn Hg. apply lookup_app_Some in Hn as [Hn | [_ Hn]].
    + now apply (Hcover i n).
    + apply list_lookup_singleton_Some in Hn as [_ <-]. discriminate.
  - destruct (gatherResource_frame j m s) as [_ Htimers].
    destruct (Nat.eq_dec j i) as [-> | Hji].
    + destruct (resourceNodes s !! i) as [n0 |] eqn:Hn0.
      * destruct (canGather n0) eqn:Hg0.
        -- destruct (gatherResource_gatherable i m s n0 Hn0 Hg0) as [-> _].
           intros [= <-]. cbn. intros Hdep.
           apply negb_false_iff, Z.leb_le in Hdep.
           rewrite (gatherResource_timers_depleting i m s n0 Hn0 Hg0 Hdep).
           eexists. split; [apply in_app_iff; right; left; reflexivity | reflexivity].
        -- rewrite (gatherResource_depleted i m s n0 Hn0 Hg0). cbn [fst].
           now apply Hcover.
      * unfold gatherResource. rewrite Hn0. cbn. congruence.
    + rewrite gatherResource_other by assumption. intros Hn Hg.
      destruct (Hcover i n Hn Hg) as (tm & Hin & Hi).
      exists tm. split; [| exact Hi].
      destruct Htimers as [-> | (node & _ & _ & _ & ->)]; [exact Hin |].
      apply in_app_iff. now left.
  - rewrite advance_lookup.
    destruct (dueFor _ i (timers s)) eqn:Hdue.
    + destruct (resourceNodes s !! i); cbn; [| discriminate].
      intros [= <-]. discriminate.
    + intros Hn Hg. destruct (Hcover i n Hn Hg) as (tm & Hin & Hi).
      exists tm. split; [| exact Hi]. cbn [advance timers].
      apply filter_In. split; [exact Hin |]. apply Z.ltb_lt.
      destruct (Z.lt_ge_cases (clock s + Z.of_N dt) (deadline tm)) as [Hlt | Hge];
        [exact Hlt |].
      assert (Hdue' : dueFor (clock s + Z.of_N dt) i (timers s) = true)
        by (apply dueFor_true; exists tm; repeat split; assumption).
      congruence.
Qed.

Lemma step_timersDueSoon a s :
  invariant s -> timersDueSoon s -> timersDueSoon (step a s).
Proof.
  intros [Hnodes _] Hsoon tm. rewrite step_clock.
  destruct a as [ty x y z | j m | dt]; cbn [step elapsed].
  - cbn. intros Hin. specialize (Hsoon tm Hin). lia.
  - destruct (gatherResource_frame j m s) as [_ [-> | (node & Hn & _ & _ & ->)]].
    + intros Hin. specialize (Hsoon tm Hin). lia.
    + intros Hin. apply in_app_iff in Hin as [Hin | [<- | []]].
      * specialize (Hsoon tm Hin). lia.
      * cbn. destruct (Hnodes j node Hn) as (_ & -> & _). lia.
  - cbn [advance timers]. intros Hin. apply filter_In in Hin as [Hin _].
    specialize (Hsoon tm Hin). lia.
Qed.

Lemma run_timers acts : forall s,
  invariant s -> timersCover s -> timersDueSoon s ->
  invariant (run acts s) /\ timersCover (run acts s) /\ timersDueSoon (run acts s).
Proof.
  induction acts as [| a rest IH]; intros s Hinv Hc Hs; cbn [run]; [easy |].
  apply IH.
  - now apply step_invariant.
  - now apply step_timersCover.
  - now apply step_timersDueSoon.
Qed.

Lemma reachable_timers acts :
  invariant (run acts empty) /\ timersCover (run acts empty)
  /\ timersDueSoon (run acts empty).
Proof.
  apply run_timers.
  - apply empty_invariant.
  - intros i n Hn. discriminate.
  - intros tm [].
Qed.

(** X1.  In a resource system built by creations, gathers and the passing of
    time, a node is depleted exactly when a respawn timer is pending for it;
    no node has two pending timers; and every pending timer is due in the
    future, at most the respawn delay of 60000 ms away. *)
Theorem one_timer_per_depleted_node (acts : list Action) :
  let s := run acts empty in
  (forall i n, resourceNodes s !! i = Some n ->
     (canGather n = false <-> exists tm, In tm (timers s) /\ timerNode tm = i))
  /\ List.NoDup (map timerNode (timers s))
  /\ (forall tm, In tm (timers s) ->
        (clock s < deadline tm <= clock s + 60000)%Z).
Proof.
  intros s. destruct (reachable_timers acts) as ([Hnodes [Hnd Htm]] & Hcover & Hsoon).
  fold s in Hnodes, Hnd, Htm, Hcover, Hsoon. split; [| split].
  - intros i n Hn. split.
    + now apply Hcover.
    + intros (tm & Hin & Hi). destruct (Htm tm Hin) as (_ & n' & Hn' & Hg').
      rewrite Hi in Hn'. congruence.
  - exact Hnd.
  - intros tm Hin. split; [now destruct (Htm tm Hin) | now apply Hsoon].
Qed.

(** X2.  Once the respawn delay has passed with nothing else happening, every
    node is gatherable, a node that was depleted has its full health back,
    and no timer is pending. *)
Theorem all_nodes_back_after_delay (acts : list Action) (dt : N) :
  (60000 <= Z.of_N dt)%Z ->
  let s := run acts empty in
  let s' := advance dt s in
  timers s' = []
  /\ forall i n, resourceNodes s !! i = Some n ->
       exists n',
         resourceNodes s' !! i = Some n'
         /\ canGather n' = true
         /\ (canGather n = false -> health n' = maxHealth n')
         /\ (canGather n = true -> n' = n).
Proof.
  intros Hdt s s'.
  destruct (reachable_timers acts) as ([Hnodes [Hnd Htm]] & Hcover & Hsoon).
  fold s in Hnodes, Hnd, Htm, Hcover, Hsoon. split.
  - subst s'. cbn [advance timers].
    destruct (List.filter _ (timers s)) as [| tm rest] eqn:Hf; [reflexivity |].
    assert (Hin : In tm (List.filter
                           (fun tm => (clock s + Z.of_N dt <? deadline tm)%Z)
                           (timers s))) by (rewrite Hf; now left).
    apply filter_In in Hin as [Hin Hlate]. apply Z.ltb_lt in Hlate.
    specialize (Hsoon tm Hin). lia.
  - intros i n Hn. subst s'. rewrite advance_lookup, Hn.
    destruct (canGather n) eqn:Hg.
    + assert (Hnot : dueFor (clock s + Z.of_N dt) i (timers s) = false).
      { apply not_true_iff_false. intros Hdue.
        apply dueFor_true in Hdue as (tm & Hin & _ & Hi).
        destruct (Htm tm Hin) as (_ & n' & Hn' & Hg'). rewrite Hi in Hn'. congruence. }
      rewrite Hnot. exists n. repeat split; [exact Hg | discriminate].
    + destruct (Hcover i n Hn Hg) as (tm & Hin & Hi).
      assert (Hdue : dueFor (clock s + Z.of_N dt) i (timers s) = true).
      { apply dueFor_true. exists tm. specialize (Hsoon tm Hin).
        repeat split; [exact Hin | lia | exact Hi]. }
      rewrite Hdue. exists (respawned n). repeat split. discriminate.
Qed.

Lemma gatherRepeatedly_spec k : forall s i m node,
  resourceNodes s !! i = Some node ->
  canGather node = true ->
  (1 <= health node)%Z ->
  ((Z.of_nat k - 1) * damageDealt m < health node)%Z ->
  let r := gatherRepeatedly k i m s in
  let h := (health node - Z.of_nat k * damageDealt m)%Z in
  (exists node',
      resourceNodes (fst r) !! i = Some node'
      /\ type node' = type node /\ maxHealth node' = maxHealth node
      /\ health node' = h /\ canGather node' = (0 <? h)%Z)
  /\ snd r = repeat (snd (gatherResource i m s)) k.
Proof.
  induction k as [| k IH]; intros s i m node Hn Hg Hh Hk r h.
  - subst r h. cbn [gatherRepeatedly fst snd repeat]. split; [| reflexivity].
    exists node. repeat split; [exact Hn | lia |].
    rewrite Hg. symmetry. apply Z.ltb_lt. lia.
  - subst r. cbn [gatherRepeatedly].
    destruct (gatherResource_gatherable i m s node Hn Hg) as [Hnode Hdrop].
    pose proof (damageDealt_range m) as Hd.
    destruct (gatherResource i m s) as [s1 d] eqn:Hgather. cbn [fst snd] in *.
    destruct k as [| k'].
    + cbn [gatherRepeatedly fst snd repeat]. split; [| reflexivity].
      eexists. split; [exact Hnode |]. subst h. cbn.
      repeat split; try lia.
      rewrite Z.leb_antisym, negb_involutive. f_equal. lia.
    + assert (Hlive : (0 <? health node - damageDealt m)%Z = true) by (apply Z.ltb_lt; nia).
      assert (Hnode1 : resourceNodes s1 !! i =
                Some (mkNode (type node) (position node) (health node - damageDealt m)
                             (maxHealth node) true (respawnTime node) (respawnTimer node))).
      { rewrite Hnode. apply Z.ltb_lt in Hlive.
        assert (E : (health node - damageDealt m <=? 0)%Z = false) by (apply Z.leb_gt; lia).
        now rewrite E. }
      specialize (IH s1 i m _ Hnode1 eq_refl). cbn [health type maxHealth] in IH.
      apply Z.ltb_lt in Hlive.
      destruct IH as [(node' & Hn' & Hty & Hmax & Hh' & Hg') Hdrops]; [lia | nia |].
      assert (Hsame : snd (gatherResource i m s1) = d).
      { destruct (gatherResource_gatherable i m s1 _ Hnode1 eq_refl) as [_ ->].
        cbn [type]. now rewrite Hdrop. }
      destruct (gatherRepeatedly (S k') i m s1) as [s2 ds]. cbn [fst snd] in *.
      split.
      * exists node'. repeat split; try assumption.
        -- subst h. rewrite Hh'. lia.
        -- rewrite Hg'. f_equal. subst h. lia.
      * rewrite Hdrops, Hsame. reflexivity.
Qed.

(** X3.  Gathering the same gatherable node [k] times with the same multiplier,
    where the first [k - 1] hits leave health: the node ends with its health
    reduced by [k] times the damage per hit, it is still gatherable exactly
    when that is positive, and each of the [k] calls returned the drop of the
    first.  Once the health is used up, a further call returns nothing. *)
Theorem gathers_until_depleted
    (k : nat) (s : t) (i : nat) (m : number) (node : ResourceNode) :
  resourceNodes s !! i = Some node ->
  canGather node = true ->
  (1 <= health node)%Z ->
  ((Z.of_nat k - 1) * damageDealt m < health node)%Z ->
  let r := gatherRepeatedly k i m s in
  let h := (health node - Z.of_nat k * damageDealt m)%Z in
  (exists node',
      resourceNodes (fst r) !! i = Some node'
      /\ health node' = h /\ canGather node' = (0 <? h)%Z)
  /\ snd r = repeat (snd (gatherResource i m s)) k
  /\ ((h <= 0)%Z -> gatherResource i m (fst r) = (fst r, None)).
Proof.
  intros Hn Hg Hh Hk r h.
  destruct (gatherRepeatedly_spec k s i m node Hn Hg Hh Hk)
    as [(node' & Hn' & _ & _ & Hh' & Hg') Hdrops].
  fold r in Hn', Hdrops. fold h in Hh', Hg'.
  split; [now exists node' |]. split; [exact Hdrops |].
  intros Hdone. apply gatherResource_depleted with node'; [exact Hn' |].
  rewrite Hg'. apply Z.ltb_ge. exact Hdone.
Qed.

End MoreOfNodes.


(** * More of the creature system *)

Section MoreOfCreatures.

Import CreatureSystem CreatureLife.
Context `{Runtime}.

(** X4.  [getClosestCreature] returns either nothing or a live creature whose
    distance is strictly below [maxDistance] and which no live creature
    beats; nothing is returned only when no live creature is strictly within
    [maxDistance]. *)
Theorem getClosestCreature_spec (pos : Vector3) (maxDistance : number) (s : t) :
  match getClosestCreature pos maxDistance s with
  | Some i =>
      exists c,
        creatures s !! i = Some c
        /\ isDead c = false
        /\ Num.lt (distanceTo pos (position c)) maxDistance
        /\ forall j c', creatures s !! j = Some c' ->
             isDead c' = false ->
             ~ Num.lt (distanceTo pos (position c')) (distanceTo pos (position c))
  | None =>
      forall j c', creatures s !! j = Some c' ->
        isDead c' = false ->
        ~ Num.lt (distanceTo pos (position c')) maxDistance
  end.
Proof.
  unfold getClosestCreature.
  destruct (closestFrom_spec isDead position pos (creatures s) 0 None maxDistance)
    as [[Hr Hall] | (k & c & Hr & Hk & Hlive & Hltk & Hmin)]; rewrite Hr.
  - intros j c' Hj Hlive Hlt. apply ltb_lt in Hlt.
    rewrite (Hall j c' Hj Hlive) in Hlt. discriminate.
  - cbn [Nat.add]. exists c. repeat split; try assumption.
    + now apply ltb_lt.
    + intros j c' Hj Hlive' Hlt. apply ltb_lt in Hlt.
      rewrite (Hmin j c' Hj Hlive') in Hlt. discriminate.
Qed.

(** *** The weighted draw of a species *)

Lemma weightSum_app l1 l2 : weightSum (l1 ++ l2) == weightSum l1 + weightSum l2.
Proof.
  induction l1 as [| sp l1 IH]; cbn [weightSum app]; [ring |]. rewrite IH. ring.
Qed.

Lemma weightSum_nonneg l : Forall weighted l -> 0 <= weightSum l.
Proof.
  induction 1 as [| sp l (w & Hw & Hpos) _ IH]; cbn [weightSum]; [lra |].
  unfold weightOf. rewrite Hw. lra.
Qed.

Lemma selectSpecies_In r l selected sp :
  selectSpecies r l selected = Some sp -> In sp l \/ selected = Some sp.
Proof.
  revert r. induction l as [| sp0 l IH]; intros r; cbn [selectSpecies].
  - now right.
  - destruct (Num.leb _ _).
    + intros [= ->]. left. now left.
    + intros Hs. destruct (IH _ Hs) as [Hin | Hsel]; [left; now right | now right].
Qed.

Lemma selectSpecies_Some r l sp0 :
  exists sp, selectSpecies r l (Some sp0) = Some sp.
Proof.
  revert r. induction l as [| sp1 l IH]; intros r; cbn [selectSpecies].
  - now exists sp0.
  - destruct (Num.leb _ _); [now exists sp1 | apply IH].
Qed.

(** X5.  The species walk of [spawnRandomCreature] picks a species exactly by the
    interval of cumulative weights the drawn value falls into: the species
    after the prefix [pre] is selected when the value is above the weight of
    [pre] (or [pre] is empty) and at most the weight of [pre] and the species
    together.  A value above the total weight selects nothing new. *)
Theorem selectSpecies_by_cumulative_weight
    (l : list Species.t) (x : Q) (selected : option Species.t) :
  Forall weighted l ->
  (forall pre sp post,
      l = pre ++ sp :: post ->
      (pre = [] \/ weightSum pre < x) ->
      x <= weightSum pre + weightOf sp ->
      selectSpecies (Fin x) l selected = Some sp)
  /\ (weightSum l < x -> l <> [] -> selectSpecies (Fin x) l selected = selected).
Proof.
  intros Hw. split.
  - intros pre. revert l x Hw.
    induction pre as [| p pre IH]; intros l x Hw sp post -> Hlow Hhigh.
    + cbn [app selectSpecies weightSum] in *.
      apply Forall_cons in Hw as [(w & Hsp & _) _].
      unfold weightOf in Hhigh. rewrite Hsp in *. cbn [Num.sub Num.leb].
      assert (E : Qle_bool (x - w) 0 = true) by (apply Qle_bool_iff; lra).
      now rewrite E.
    + cbn [app selectSpecies].
      apply Forall_cons in Hw as [(w & Hp & Hwpos) Hw].
      destruct Hlow as [Hnil | Hlow]; [discriminate |].
      cbn [weightSum] in Hlow, Hhigh. unfold weightOf in Hlow, Hhigh at 1.
      rewrite Hp in *. cbn [Num.sub Num.leb].
      assert (Hpre : 0 <= weightSum pre).
      { apply weightSum_nonneg. apply Forall_app in Hw. apply Hw. }
      assert (E : Qle_bool (x - w) 0 = false).
      { apply not_true_iff_false. rewrite Qle_bool_iff. lra. }
      rewrite E. apply (IH (pre ++ sp :: post) (x - w) Hw sp post eq_refl).
      * destruct pre as [| q pre']; [now left | right]. lra.
      * lra.
  - revert x. induction Hw as [| sp l (w & Hsp & Hwpos) Hw IH]; intros x Hx Hne;
      [contradiction |].
    cbn [selectSpecies weightSum] in *. unfold weightOf in Hx. rewrite Hsp in *.
    cbn [Num.sub Num.leb].
    pose proof (weightSum_nonneg l Hw) as Hl.
    assert (E : Qle_bool (x - w) 0 = false).
    { apply not_true_iff_false. rewrite Qle_bool_iff. lra. }
    rewrite E. destruct l as [| sp' l']; [reflexivity |].
    apply IH; [lra | discriminate].
Qed.

(** *** The population *)

Lemma spawnRandomCreature_cases env cs e :
  fst (spawnRandomCreature env cs e) = cs
  \/ exists c, fst (spawnRandomCreature env cs e) = cs ++ [c] /\ freshlySpawned c.
Proof.
  unfold spawnRandomCreature, mathRandom.
  set (e1 := mkEffects (S (randomCalls e)) (trace e)).
  pose proof (findSpawnPosition_attempts e1) as Hpos.
  destruct (findSpawnPosition e1) as [[pos |] e2]; cbn [fst] in Hpos; [| now left].
  destruct (selectSpecies _ _ _) as [sp |] eqn:Hsel; [| now left].
  right. cbn. eexists. split; [reflexivity |].
  destruct Hpos as (j & _ & -> & Hland).
  unfold freshlySpawned. cbn. repeat split; try assumption.
  apply selectSpecies_In in Hsel as [Hin | [= <-]]; [exact Hin | now left].
Qed.

Lemma findSpawnPositionFrom_on_land k e :
  (forall x z, onLand (getHeightAt x z) = true) ->
  exists p e', findSpawnPositionFrom (S k) e = (Some p, e').
Proof.
  intros Hland. cbn [findSpawnPositionFrom].
  unfold spawnCandidate at 1. cbn [vy]. rewrite Hland. now eexists _, _.
Qed.

Lemma findSpawnPosition_on_land e :
  (forall x z, onLand (getHeightAt x z) = true) ->
  exists p e', findSpawnPosition e = (Some p, e').
Proof. exact (findSpawnPositionFrom_on_land 19 e). Qed.

Lemma spawnRandomCreature_on_land env cs e :
  (forall x z, onLand (getHeightAt x z) = true) ->
  length (fst (spawnRandomCreature env cs e)) = S (length cs).
Proof.
  intros Hland. unfold spawnRandomCreature, mathRandom.
  destruct (findSpawnPosition_on_land (mkEffects (S (randomCalls e)) (trace e)) Hland)
    as (p & e' & ->).
  destruct (selectSpecies_Some (Num.mul (random (randomCalls e))
                                        (totalWeight initializeSpecies))
              initializeSpecies Species.rabbit) as (sp & Hsp).
  cbn [head initializeSpecies]. cbn [initializeSpecies] in Hsp. rewrite Hsp.
  cbn. rewrite length_app. cbn. lia.
Qed.

Lemma spawnInitialCreaturesFrom_population n env : forall cs e,
  Forall freshlySpawned cs ->
  let r := fst (spawnInitialCreaturesFrom n env cs e) in
  Forall freshlySpawned r
  /\ (length r <= length cs + n)%nat
  /\ ((forall x z, onLand (getHeightAt x z) = true) ->
      length r = (length cs + n)%nat).
Proof.
  induction n as [| n IH]; intros cs e Hcs; cbn [spawnInitialCreaturesFrom].
  - cbn. repeat split; [exact Hcs | lia | lia].
  - pose proof (spawnRandomCreature_cases env cs e) as Hcases.
    pose proof (spawnRandomCreature_on_land env cs e) as Hland.
    destruct (spawnRandomCreature env cs e) as [cs' e']. cbn [fst] in *.
    assert (Hcs' : Forall freshlySpawned cs' /\ (length cs' <= S (length cs))%nat).
    { destruct Hcases as [-> | (c & -> & Hc)]; [split; [exact Hcs | lia] |].
      split; [apply Forall_app; split; [exact Hcs | now constructor] |].
      rewrite length_app. cbn. lia. }
    destruct Hcs' as [Hfresh Hlen].
    destruct (IH cs' e' Hfresh) as (Hf & Hle & Heq).
    repeat split; [exact Hf | lia |].
    intros Hall. rewrite (Heq Hall), (Hland Hall). lia.
Qed.

Lemma initial_population_facts env e :
  (length (creatures (create env e)) <= maxCreatures)%nat
  /\ Forall freshlySpawned (creatures (create env e)).
Proof.
  unfold create.
  destruct (spawnInitialCreaturesFrom_population maxCreatures env [] e
              (List.Forall_nil _)) as (Hf & Hle & _).
  destruct (spawnInitialCreaturesFrom maxCreatures env [] e) as [cs e'].
  cbn [fst creatures length Nat.add] in *. now split.
Qed.

(** X6.  The constructor spawns at most [maxCreatures] = 15 creatures, and
    exactly that many where all the terrain is land.  Each of them is alive
    and idle, of a registered species, with the health of its species, and
    stands still on the terrain at a height in the land band. *)
Theorem initial_population (env : Env) (e : Effects) :
  let s := create env e in
  (length (creatures s) <= maxCreatures)%nat
  /\ Forall freshlySpawned (creatures s)
  /\ ((forall x z, onLand (getHeightAt x z) = true) ->
      length (creatures s) = maxCreatures).
Proof.
  intros s. subst s. unfold create.
  destruct (spawnInitialCreaturesFrom_population maxCreatures env [] e
              (List.Forall_nil _)) as (Hf & Hle & Heq).
  destruct (spawnInitialCreaturesFrom maxCreatures env [] e) as [cs e'].
  cbn [fst creatures length Nat.add] in *. repeat split; assumption.
Qed.

Lemma updateCreature_updated c dt env e :
  isDead c = false -> updated (fst (updateCreature c dt env e)) c.
Proof.
  intros Hlive. split; [apply updateCreature_vitals |].
  split; [congruence |]. intros _. unfold updateCreature.
  now destruct (match state _ with
                | idle => _ | wander => _ | chase => _ | attack => _ | flee => _
                end).
Qed.

Lemma updateFrom_updated cs dt env : forall e,
  Forall2 updated (fst (updateFrom cs dt env e)) cs.
Proof.
  induction cs as [| c rest IH]; intros e; cbn [updateFrom]; [constructor |].
  destruct (isDead c) eqn:Hdead.
  - specialize (IH e). destruct (updateFrom rest dt env e) as [rest' e'].
    constructor; [| exact IH].
    split; [apply sameVitals_refl | split; [reflexivity | congruence]].
  - pose proof (updateCreature_updated c dt env e Hdead) as Hc.
    destruct (updateCreature c dt env e) as [c' e1].
    specialize (IH e1). destruct (updateFrom rest dt env e1) as [rest' e'].
    now constructor.
Qed.

(** X7.  [update] neither adds nor removes a creature.  It leaves every creature
    its identity, species, health and life; a dead creature is left as it
    is, and a live one stands at the height of the terrain afterwards. *)
Theorem update_keeps_creatures (deltaTime : number) (env : Env) (s : t) :
  let s' := update deltaTime env s in
  length (creatures s') = length (creatures s)
  /\ forall i c, creatures s !! i = Some c ->
       exists c', creatures s' !! i = Some c' /\ updated c' c.
Proof.
  intros s'. subst s'. unfold update.
  pose proof (updateFrom_updated (creatures s) deltaTime env (effects s)) as Hall.
  destruct (updateFrom (creatures s) deltaTime env (effects s)) as [cs e].
  cbn [fst creatures] in *. split.
  - now apply Forall2_length in Hall.
  - intros i c Hc. destruct (Forall2_lookup_r _ _ _ _ _ Hall Hc) as (c' & Hc' & Hupd).
    now exists c'.
Qed.

Lemma step_length a s :
  (length (creatures (step a s)) <=
     length (creatures s) + match a with SpawnRandom _ => 1 | _ => 0 end)%nat.
Proof.
  destruct a as [env | i damage attacker env | dt env | i]; cbn [step].
  - destruct (spawnRandomCreature_cases env (creatures s) (effects s))
      as [Hs | (c & Hs & _)];
      destruct (spawnRandomCreature env (creatures s) (effects s)) as [cs e];
      cbn [fst creatures] in *; rewrite Hs; [lia |].
    rewrite length_app. cbn. lia.
  - unfold damageCreatureAt. destruct (creatures s !! i) as [c |]; [| lia].
    destruct (damageCreature c damage attacker env (effects s)) as [c' e].
    cbn [creatures]. rewrite length_insert. lia.
  - unfold update.
    pose proof (updateFrom_updated (creatures s) dt env (effects s)) as Hall.
    destruct (updateFrom (creatures s) dt env (effects s)) as [cs e].
    cbn [fst creatures] in *. apply Forall2_length in Hall. lia.
  - unfold fadeOutDone. destruct (creatures s !! i) as [c |] eqn:Hc; [| lia].
    destruct (isDead c); [| lia]. cbn [creatures].
    pose proof (length_delete (creatures s) i (mk_is_Some _ _ Hc)). lia.
Qed.

Lemma run_length acts : forall s,
  (length (creatures (run acts s)) + removals acts s
     <= length (creatures s) + spawnCount acts)%nat.
Proof.
  induction acts as [| a rest IH]; intros s; cbn [run removals spawnCount]; [lia |].
  specialize (IH (step a s)). pose proof (step_length a s) as Hstep.
  destruct a; cbn [spawnCount]; lia.
Qed.

Lemma Forall2_updated_registered cs' cs :
  Forall2 updated cs' cs ->
  Forall (fun c => In (speciesData c) initializeSpecies) cs ->
  Forall (fun c => In (speciesData c) initializeSpecies) cs'.
Proof.
  induction 1 as [| c' c cs' cs [(_ & Hsp & _) _] _ IH]; intros Hcs; [constructor |].
  apply Forall_cons in Hcs as [Hc Hcs]. constructor; [| now apply IH].
  now rewrite Hsp.
Qed.

Lemma damageCreature_speciesData c damage attacker env e :
  speciesData (fst (damageCreature c damage attacker env e)) = speciesData c.
Proof. now destruct (damageCreature_attack c damage attacker env e). Qed.

Lemma step_registered a s :
  Forall (fun c => In (speciesData c) initializeSpecies) (creatures s) ->
  Forall (fun c => In (speciesData c) initializeSpecies) (creatures (step a s)).
Proof.
  intros Hs. destruct a as [env | i damage attacker env | dt env | i]; cbn [step].
  - destruct (spawnRandomCreature_cases env (creatures s) (effects s))
      as [Hcs | (c & Hcs & Hc)];
      destruct (spawnRandomCreature env (creatures s) (effects s)) as [cs e];
      cbn [fst creatures] in *; rewrite Hcs; [exact Hs |].
    apply Forall_app. split; [exact Hs |]. constructor; [apply Hc | constructor].
  - unfold damageCreatureAt. destruct (creatures s !! i) as [c |] eqn:Hc; [| exact Hs].
    pose proof (damageCreature_speciesData c damage attacker env (effects s)) as Hsp.
    destruct (damageCreature c damage attacker env (effects s)) as [c' e].
    cbn [creatures fst] in *. apply Forall_insert; [exact Hs |].
    rewrite Hsp. now apply (proj1 (Forall_lookup _ _) Hs i).
  - unfold update.
    pose proof (updateFrom_updated (creatures s) dt env (effects s)) as Hall.
    destruct (updateFrom (creatures s) dt env (effects s)) as [cs e].
    cbn [fst creatures] in *. now apply (Forall2_updated_registered cs (creatures s)).
  - unfold fadeOutDone. destruct (creatures s !! i) as [c |]; [| exact Hs].
    destruct (isDead c); [| exact Hs]. cbn. now apply Forall_delete.
Qed.

Lemma run_registered acts : forall s,
  Forall (fun c => In (speciesData c) initializeSpecies) (creatures s) ->
  Forall (fun c => In (speciesData c) initializeSpecies) (creatures (run acts s)).
Proof.
  induction acts as [| a rest IH]; intros s Hs; cbn [run]; [exact Hs |].
  apply IH. now apply step_registered.
Qed.

(** X8.  Whatever happens to a creature system, the number of its creatures plus
    the number of creatures removed after their death is at most 15 plus the
    number of replacement spawns; so the population stays within
    [maxCreatures] as long as there are no more replacement spawns than
    removals, which is how [killCreature] schedules them.  Every creature is
    of a registered species. *)
Theorem population_bound (acts : list Action) (env : Env) (e : Effects) :
  let s0 := create env e in
  let s := run acts s0 in
  (length (creatures s) + removals acts s0 <= maxCreatures + spawnCount acts)%nat
  /\ ((spawnCount acts <= removals acts s0)%nat ->
      (length (creatures s) <= maxCreatures)%nat)
  /\ Forall (fun c => In (speciesData c) initializeSpecies) (creatures s).
Proof.
  intros s0 s.
  destruct (initial_population_facts env e) as (Hlen & Hfresh).
  fold s0 in Hlen, Hfresh.
  pose proof (run_length acts s0) as Hrun. fold s in Hrun.
  split; [lia |]. split; [lia |].
  apply run_registered. eapply Forall_impl; [exact Hfresh |].
  intros c Hc. apply Hc.
Qed.

(** *** Death and loot *)

Lemma diedCount_app tr1 tr2 : diedCount (tr1 ++ tr2) = (diedCount tr1 + diedCount tr2)%nat.
Proof.
  induction tr1 as [| [tm ev] tr1 IH]; [reflexivity |].
  cbn [app diedCount]. destruct ev; cbn; now rewrite IH.
Qed.

Lemma droppedItems_app tr1 tr2 :
  droppedItems (tr1 ++ tr2) = droppedItems tr1 ++ droppedItems tr2.
Proof.
  induction tr1 as [| [tm ev] tr1 IH]; [reflexivity |].
  cbn [app droppedItems]. destruct ev; cbn; now rewrite IH.
Qed.

Lemma tickStateTimer_isDead c dt : isDead (tickStateTimer c dt) = isDead c.
Proof. now destruct (tickStateTimer_vitals c dt) as (_ & _ & _ & _ & ->). Qed.

Lemma updateCreature_no_death c dt env e :
  diedCount (trace (snd (updateCreature c dt env e))) = diedCount (trace e)
  /\ droppedItems (trace (snd (updateCreature c dt env e))) = droppedItems (trace e).
Proof.
  unfold updateCreature.
  set (c1 := tickStateTimer c dt).
  set (d := distanceTo (position c1) (playerPosition env)).
  destruct (state c1).
  - unfold updateIdle, mathRandom.
    repeat match goal with |- context [if ?b then _ else _] => destruct b end; easy.
  - unfold updateWander, pickWanderTarget, mathRandom.
    destruct (_ && _); [easy |].
    destruct (wanderTarget c1) as [w |] eqn:Hw; cbn.
    + destruct (Num.ltb _ _); cbn; [| rewrite Hw]; easy.
    + easy.
  - unfold updateChase.
    repeat match goal with |- context [if ?b then _ else _] => destruct b end; easy.
  - unfold updateAttack, performAttack.
    repeat match goal with |- context [if ?b then _ else _] => destruct b end; easy.
  - unfold updateFlee. easy.
Qed.

Lemma idDraws_app env tr1 tr2 :
  idDraws env (tr1 ++ tr2) = (idDraws env tr1 + idDraws env tr2)%nat.
Proof.
  unfold idDraws. now rewrite droppedItems_app, map_app, list_sum_app.
Qed.

(** What the loot of a drop table adds to the trace. *)
Lemma dropLootFrom_spec drops c env : forall e,
  exists items,
    trace (dropLootFrom drops c env e) = items ++ trace e
    /\ randomCalls (dropLootFrom drops c env e)
       = (randomCalls e + length drops + idDraws env items)%nat
    /\ diedCount items = 0%nat
    /\ rev (droppedItems items) `sublist_of` map dropOf drops
    /\ (inventoryPresent env = false -> items = [])
    /\ Forall (fun te => exists ty a,
                  te = (now env, CreateGroundItem ty a (vx (position c)) (vz (position c))))
              items
    /\ (randomInUnitInterval -> inventoryPresent env = true ->
        forall d, In d drops -> Num.le (Fin 1) (Species.chance d) ->
                  In (dropOf d) (droppedItems items)).
Proof.
  induction drops as [| d rest IH]; intros e; cbn [dropLootFrom].
  - exists []. cbn. repeat split; try easy; try lia.
  - unfold mathRandom.
    destruct (Num.ltb (random (randomCalls e)) (Species.chance d)
              && inventoryPresent env) eqn:Hroll.
    + destruct (IH (drawn (groundItemDraws env (Species.itemType d))
                      (emit env (CreateGroundItem (Species.itemType d)
                                   (Species.itemAmount d)
                                   (vx (position c)) (vz (position c)))
                            (mkEffects (S (randomCalls e)) (trace e)))))
        as (items & Htr & Hrc & Hdied & Hsub & Hnone & Hall & Hsure).
      exists (items ++ [(now env, CreateGroundItem (Species.itemType d)
                           (Species.itemAmount d)
                           (vx (position c)) (vz (position c)))]).
      rewrite Htr, Hrc. cbn [drawn emit trace randomCalls length]. repeat split.
      * now rewrite <- app_assoc.
      * rewrite idDraws_app. unfold idDraws. cbn. lia.
      * rewrite diedCount_app, Hdied. reflexivity.
      * rewrite droppedItems_app, rev_app_distr. cbn. now apply sublist_skip.
      * intros Hno. apply andb_true_iff in Hroll as [_ Hinv]. congruence.
      * apply Forall_app. split; [exact Hall |]. constructor; [| constructor].
        now eexists _, _.
      * intros Hrand Hinv d' [<- | Hin] Hsure'.
        -- rewrite droppedItems_app. apply in_app_iff. right. now left.
        -- rewrite droppedItems_app. apply in_app_iff. left. now apply Hsure.
    + destruct (IH (mkEffects (S (randomCalls e)) (trace e)))
        as (items & Htr & Hrc & Hdied & Hsub & Hnone & Hall & Hsure).
      exists items. rewrite Htr, Hrc. cbn [trace randomCalls length]. repeat split;
        try assumption.
      * lia.
      * cbn [map]. now apply sublist_cons.
      * intros Hrand Hinv d' [<- | Hin] Hsure'; [| now apply Hsure].
        exfalso. rewrite Hinv, andb_true_r in Hroll.
        apply not_true_iff_false in Hroll. apply Hroll. apply ltb_lt.
        destruct (Hrand (randomCalls e)) as (r & -> & _ & Hr1).
        destruct (Species.chance d) as [ch |]; cbn in *; [lra | contradiction].
Qed.

(** X9.  The loot of a kill.  The ground items requested are entries of the
    species' drop table, in the order of the table and each at most once.
    One random value is drawn per entry, and between two rolls the
    inventory draws the id of the item it was asked for.  Without an
    inventory nothing is requested.  With one, and [Math.random()] below 1,
    every entry whose chance is 1 or more is requested.  Every request is at
    the position of the creature. *)
Theorem loot_of_a_kill (c : Creature) (env : Env) (n : nat) :
  let e' := snd (killCreature c env (mkEffects n [])) in
  let drops := Species.dropItems (speciesData c) in
  rev (droppedItems (trace e')) `sublist_of` map dropOf drops
  /\ randomCalls e' = (n + length drops + idDraws env (trace e'))%nat
  /\ (inventoryPresent env = false -> droppedItems (trace e') = [])
  /\ (randomInUnitInterval -> inventoryPresent env = true ->
      forall d, In d drops -> Num.le (Fin 1) (Species.chance d) ->
                In (dropOf d) (droppedItems (trace e')))
  /\ (forall tm ty a x z,
        In (tm, CreateGroundItem ty a x z) (trace e') ->
        x = vx (position c) /\ z = vz (position c)).
Proof.
  intros e' drops. subst e'. cbn [killCreature snd]. unfold dropLoot.
  cbn [speciesData setHealth setIsDead]. fold drops.
  destruct (dropLootFrom_spec drops (setHealth (Fin 0) (setIsDead true c)) env
              (emit env (Died (id (setHealth (Fin 0) (setIsDead true c))))
                    (mkEffects n [])))
    as (items & Htr & Hrc & _ & Hsub & Hnone & Hall & Hsure).
  rewrite Htr, Hrc. cbn [emit trace randomCalls].
  rewrite droppedItems_app. cbn [droppedItems]. rewrite app_nil_r.
  split; [exact Hsub |].
  split; [rewrite idDraws_app; unfold idDraws; cbn; lia |].
  split; [intros Hno; now rewrite (Hnone Hno) |]. split; [exact Hsure |].
  intros tm ty a x z Hin. apply in_app_iff in Hin as [Hin | [Hin | []]];
    [| discriminate].
  rewrite Forall_forall in Hall. apply list_elem_of_In in Hin.
  destruct (Hall _ Hin) as (ty' & a' & [= _ _ _ -> ->]). now split.
Qed.

Lemma runCreature_dead steps : forall c e,
  isDead c = true -> runCreature steps c e = (c, e).
Proof.
  induction steps as [| st rest IH]; intros c e Hdead; cbn [runCreature]; [reflexivity |].
  assert (Hst : stepCreature st c e = (c, e)).
  { destruct st; cbn [stepCreature]; [now rewrite Hdead | now apply damageCreature_dead]. }
  rewrite Hst. now apply IH.
Qed.

Lemma stepCreature_died st c e :
  isDead c = false ->
  let r := stepCreature st c e in
  diedCount (trace (snd r)) =
    (diedCount (trace e) + if isDead (fst r) then 1 else 0)%nat.
Proof.
  intros Hlive r. subst r. destruct st as [dt env | damage attacker env];
    cbn [stepCreature].
  - rewrite Hlive.
    destruct (updateCreature_vitals c dt env e) as (_ & _ & _ & _ & ->).
    destruct (updateCreature_no_death c dt env e) as [-> _]. rewrite Hlive. lia.
  - unfold damageCreature. rewrite Hlive. cbv zeta.
    destruct (reactToDamage_frame attacker (setHealth (Num.sub (health c) damage) c))
      as (_ & _ & _ & Hd & _).
    destruct (Num.leb _ _).
    + cbn [killCreature fst snd isDead setHealth setIsDead]. unfold dropLoot.
      match goal with |- context [dropLootFrom ?ds ?c0 env ?e0] =>
        destruct (dropLootFrom_spec ds c0 env e0) as (items & -> & _ & Hitems & _)
      end.
      rewrite diedCount_app, Hitems. cbn. lia.
    + cbn [fst snd emit trace diedCount]. rewrite Hd. cbn. rewrite Hlive. lia.
Qed.

Lemma stepCreature_deadAtZero st c e :
  deadAtZero c -> deadAtZero (fst (stepCreature st c e)).
Proof.
  intros Hc. destruct st as [dt env | damage attacker env]; cbn [stepCreature].
  - destruct (isDead c); [exact Hc |].
    apply (sameVitals_deadAtZero _ c); [apply updateCreature_vitals | exact Hc].
  - now apply damageCreature_deadAtZero.
Qed.

Lemma runCreature_died steps : forall c e,
  isDead c = false ->
  let r := runCreature steps c e in
  diedCount (trace (snd r)) =
    (diedCount (trace e) + if isDead (fst r) then 1 else 0)%nat
  /\ deadAtZero (fst r).
Proof.
  induction steps as [| st rest IH]; intros c e Hlive; cbn [runCreature].
  - cbn. rewrite Hlive. split; [lia | unfold deadAtZero; congruence].
  - pose proof (stepCreature_died st c e Hlive) as Hstep.
    pose proof (stepCreature_deadAtZero st c e) as Hzero.
    destruct (stepCreature st c e) as [c1 e1]. cbn [fst snd] in *.
    destruct (isDead c1) eqn:Hdead1.
    + rewrite (runCreature_dead rest c1 e1 Hdead1). cbn [fst snd].
      rewrite Hdead1. split; [exact Hstep |].
      apply Hzero. unfold deadAtZero. congruence.
    + destruct (IH c1 e1 Hdead1) as [Hd Hz]. split; [| exact Hz].
      rewrite Hd, Hstep. lia.
Qed.

(** X10.  Death happens once and is final.  Follow a live creature through any
    ticks and hits: the [Died] line is logged once if it has died and not at
    all otherwise; and once it is dead its health is 0 and no tick or hit
    changes it or leaves any trace. *)
Theorem death_is_final (steps : list CreatureStep) (c : Creature) (n : nat) :
  isDead c = false ->
  let r := runCreature steps c (mkEffects n []) in
  diedCount (trace (snd r)) = (if isDead (fst r) then 1 else 0)%nat
  /\ (isDead (fst r) = true ->
      health (fst r) = Fin 0
      /\ forall more, runCreature more (fst r) (snd r) = r).
Proof.
  intros Hlive r.
  destruct (runCreature_died steps c (mkEffects n []) Hlive) as [Hd Hz].
  fold r in Hd, Hz. split; [exact Hd |].
  intros Hdead. split; [now apply Hz |].
  intros more. rewrite (runCreature_dead more _ _ Hdead). now destruct r.
Qed.

(** *** Health *)

Lemma stepCreature_health st c e h :
  health c = Fin h -> 0 <= h ->
  match st with
  | Hit (Fin d) _ _ => 0 <= d
  | Hit NaN _ _ => False
  | Tick _ _ => True
  end ->
  exists h', health (fst (stepCreature st c e)) = Fin h' /\ 0 <= h' /\ h' <= h.
Proof.
  intros Hh Hpos Hst. destruct st as [dt env | damage attacker env]; cbn [stepCreature].
  - destruct (isDead c); [exists h; repeat split; [exact Hh | lra | lra] |].
    destruct (updateCreature_vitals c dt env e) as (_ & _ & -> & _).
    exists h. repeat split; [exact Hh | lra | lra].
  - destruct damage as [d |]; [| contradiction].
    destruct (isDead c) eqn:Hdead.
    + rewrite damageCreature_dead by exact Hdead.
      exists h. repeat split; [exact Hh | lra | lra].
    + rewrite damageCreature_live by exact Hdead. rewrite Hh. cbn [Num.sub Num.leb].
      destruct (Qle_bool (h - d) 0) eqn:Hle.
      * exists 0. repeat split; [lra | exact Hpos].
      * destruct (reactToDamage_frame attacker (setHealth (Fin (h - d)) c))
          as (_ & _ & -> & _).
        exists (h - d). repeat split; [| lra].
        apply not_true_iff_false in Hle. rewrite Qle_bool_iff in Hle. lra.
Qed.

(** X11.  Health never rises and never goes below 0: through any ticks and any
    hits whose damage is a number that is not negative, the health of a
    creature stays between 0 and what it was. *)
Theorem health_never_rises
    (steps : list CreatureStep) (c : Creature) (e : Effects) (h : Q) :
  health c = Fin h ->
  0 <= h ->
  hitsNonnegative steps ->
  exists h',
    health (fst (runCreature steps c e)) = Fin h' /\ 0 <= h' /\ h' <= h.
Proof.
  revert c e h. induction steps as [| st rest IH]; intros c e h Hh Hpos Hsteps;
    cbn [runCreature].
  - exists h. repeat split; [exact Hh | exact Hpos | lra].
  - apply Forall_cons in Hsteps as [Hst Hrest].
    destruct (stepCreature_health st c e h Hh Hpos Hst) as (h1 & Hh1 & Hpos1 & Hle1).
    destruct (stepCreature st c e) as [c1 e1]. cbn [fst] in Hh1.
    destruct (IH c1 e1 h1 Hh1 Hpos1 Hrest) as (h' & Hh' & Hpos' & Hle').
    exists h'. repeat split; [exact Hh' | exact Hpos' | lra].
Qed.

(** *** The attack state *)

(** X12.  A live creature in the attack state whose state timer does not run out
    during the tick goes back to chasing exactly when the player is farther
    than 1.2 times the attack range.  Otherwise it stays in the attack
    state, turned towards the player and without moving, and it calls
    [performAttack] exactly when more than the cooldown has passed since
    [lastAttackTime], which then becomes the time of the tick. *)
Theorem attack_transitions
    (c : Creature) (deltaTime : Q) (env : Env) (e : Effects) :
  state c = attack ->
  timerQuiet c (Fin deltaTime) ->
  let sp := speciesData c in
  let d := distanceTo (position c) (playerPosition env) in
  let r := updateCreature c (Fin deltaTime) env e in
  let outOfRange := Num.lt (Num.mul (Species.attackRange sp) (Fin 1.2)) d in
  let cooledDown :=
    Num.lt (Species.attackCooldown sp) (Num.sub (now env) (lastAttackTime c)) in
  (outOfRange ->
   state (fst r) = chase /\ lastAttackTime (fst r) = lastAttackTime c
   /\ trace (snd r) = trace e)
  /\ (~ outOfRange ->
      state (fst r) = attack
      /\ sameNumber (vx (position (fst r))) (vx (position c))
      /\ sameNumber (vz (position (fst r))) (vz (position c))
      /\ rotation (fst r) =
           (let direction := normalize (subVectors (playerPosition env) (position c)) in
            atan2 (vx direction) (vz direction))
      /\ (cooledDown ->
          attackTimes (trace (snd r)) = now env :: attackTimes (trace e)
          /\ lastAttackTime (fst r) = now env)
      /\ (~ cooledDown ->
          trace (snd r) = trace e /\ lastAttackTime (fst r) = lastAttackTime c)).
Proof.
  intros Hattack Hquiet sp d r outOfRange cooledDown.
  destruct (tickStateTimer_quiet c (Fin deltaTime) Hquiet) as (Hs & Hp & Hv & Hsp & Ht).
  destruct (tickStateTimer_attack c (Fin deltaTime)) as [_ Hl].
  subst r. unfold updateCreature. rewrite Hs, Hattack, Hp. fold d.
  unfold updateAttack, Num.gtb. rewrite Hsp. fold sp.
  cbn [lastAttackTime position setRotation setVelocityXZ setVelocity]. rewrite Hl, Hp.
  subst outOfRange cooledDown.
  destruct (Num.ltb (Num.mul (Species.attackRange sp) (Fin 1.2)) d) eqn:Hout.
  - apply ltb_lt in Hout. split; [| intros Hno; contradiction].
    intros _. cbn. now rewrite Hl.
  - apply not_true_iff_false in Hout. rewrite ltb_lt in Hout.
    split; [intros Hyes; contradiction |]. intros _.
    assert (Hstill : forall x, sameNumber (Num.add x (Num.mul (Fin 0) (Fin deltaTime))) x).
    { intros [x |]; cbn; [ring | exact I]. }
    destruct (Num.ltb (Species.attackCooldown sp)
                      (Num.sub (now env) (lastAttackTime c))) eqn:Hcd.
    + apply ltb_lt in Hcd. cbn [fst snd]. cbn. rewrite Hp.
      repeat split; try apply Hstill; try contradiction; try congruence.
      apply performAttack_times.
    + apply not_true_iff_false in Hcd. rewrite ltb_lt in Hcd. cbn [fst snd]. cbn.
      rewrite Hp, Hl.
      repeat split; try apply Hstill; try contradiction; congruence.
Qed.

(** *** Fleeing *)

Lemma mul_NaN_r a : Num.mul a NaN = NaN.
Proof. now destruct a. Qed.

Lemma add_NaN_r a : Num.add a NaN = NaN.
Proof. now destruct a. Qed.

(** Where a tick puts a creature: its position advances by the velocity the
    state handler left, times the length of the tick. *)
Lemma updateCreature_position c dt env e :
  exists v,
    vx (position (fst (updateCreature c dt env e))) =
      Num.add (vx (position c)) (Num.mul (vx v) dt)
    /\ vz (position (fst (updateCreature c dt env e))) =
         Num.add (vz (position c)) (Num.mul (vz v) dt).
Proof.
  unfold updateCreature.
  assert (Hp : position (tickStateTimer c dt) = position c).
  { unfold tickStateTimer.
    repeat match goal with |- context [if ?b then _ else _] => destruct b end;
      reflexivity. }
  set (c1 := tickStateTimer c dt) in *.
  set (d := distanceTo (position c1) (playerPosition env)).
  assert (Hgen : forall r : Creature * Effects,
             position (fst r) = position c1 ->
             exists v,
               vx (position (fst (applyMovement (fst r) dt, snd r))) =
                 Num.add (vx (position c)) (Num.mul (vx v) dt)
               /\ vz (position (fst (applyMovement (fst r) dt, snd r))) =
                    Num.add (vz (position c)) (Num.mul (vz v) dt)).
  { intros [c2 e2] Hc2. cbn [fst snd] in *. exists (velocity c2). cbn.
    now rewrite Hc2, Hp. }
  destruct (state c1).
  - destruct (Hgen (updateIdle c1 d dt env e)) as (v & Hv);
      [| exists v; now destruct (updateIdle c1 d dt env e)].
    unfold updateIdle, mathRandom.
    repeat match goal with |- context [if ?b then _ else _] => destruct b end;
      reflexivity.
  - destruct (Hgen (updateWander c1 d dt env e)) as (v & Hv);
      [| exists v; now destruct (updateWander c1 d dt env e)].
    unfold updateWander, pickWanderTarget, mathRandom.
    destruct (_ && _); [reflexivity |].
    destruct (wanderTarget c1) as [w |] eqn:Hw; cbn.
    + destruct (Num.ltb _ _); cbn; [| rewrite Hw]; reflexivity.
    + reflexivity.
  - destruct (Hgen (updateChase c1 d dt env e)) as (v & Hv);
      [| exists v; now destruct (updateChase c1 d dt env e)].
    unfold updateChase.
    repeat match goal with |- context [if ?b then _ else _] => destruct b end;
      reflexivity.
  - destruct (Hgen (updateAttack c1 d dt env e)) as (v & Hv);
      [| exists v; now destruct (updateAttack c1 d dt env e)].
    unfold updateAttack.
    repeat match goal with |- context [if ?b then _ else _] => destruct b end;
      reflexivity.
  - destruct (Hgen (updateFlee c1 d dt env e)) as (v & Hv);
      [| exists v; now destruct (updateFlee c1 d dt env e)].
    reflexivity.
Qed.

Lemma damageCreature_position c damage attacker env e :
  position (fst (damageCreature c damage attacker env e)) = position c.
Proof.
  destruct (isDead c) eqn:Hdead.
  - now rewrite damageCreature_dead.
  - rewrite damageCreature_live by exact Hdead.
    destruct (reactToDamage_frame attacker (setHealth (Num.sub (health c) damage) c))
      as (_ & _ & _ & _ & Hp & _).
    destruct (Num.leb _ _); cbn; exact Hp.
Qed.

Lemma stepCreature_lost st c e :
  vx (position c) = NaN /\ vz (position c) = NaN ->
  vx (position (fst (stepCreature st c e))) = NaN
  /\ vz (position (fst (stepCreature st c e))) = NaN.
Proof.
  intros [Hx Hz]. destruct st as [dt env | damage attacker env]; cbn [stepCreature].
  - destruct (isDead c); [now split |].
    destruct (updateCreature_position c dt env e) as (v & -> & ->).
    now rewrite Hx, Hz.
  - rewrite damageCreature_position. now split.
Qed.

Lemma runCreature_lost steps : forall c e,
  vx (position c) = NaN /\ vz (position c) = NaN ->
  vx (position (fst (runCreature steps c e))) = NaN
  /\ vz (position (fst (runCreature steps c e))) = NaN.
Proof.
  induction steps as [| st rest IH]; intros c e Hc; cbn [runCreature]; [exact Hc |].
  pose proof (stepCreature_lost st c e Hc) as Hc1.
  destruct (stepCreature st c e) as [c1 e1]. now apply IH.
Qed.

(** X13.  A species without [fleeSpeed] cannot flee to anywhere: one tick in the
    flee state (the state timer not running out) turns the x and z
    coordinates of the creature into [NaN], and no later tick or hit brings
    them back.  The registry leaves [fleeSpeed] out for the wolf, the boar
    and the bear; of these the boar flees when it is hit. *)
Theorem flee_without_speed_loses_position
    (c : Creature) (deltaTime : number) (env : Env) (e : Effects) :
  state c = flee ->
  timerQuiet c deltaTime ->
  Species.fleeSpeed (speciesData c) = NaN ->
  let c' := fst (updateCreature c deltaTime env e) in
  (vx (position c') = NaN /\ vz (position c') = NaN)
  /\ forall steps e',
       vx (position (fst (runCreature steps c' e'))) = NaN
       /\ vz (position (fst (runCreature steps c' e'))) = NaN.
Proof.
  intros Hflee Hquiet Hspeed c'.
  assert (Hlost : vx (position c') = NaN /\ vz (position c') = NaN).
  { destruct (tickStateTimer_quiet c deltaTime Hquiet) as (Hs & Hp & Hv & Hsp & Ht).
    subst c'. unfold updateCreature. rewrite Hs, Hflee. unfold updateFlee.
    rewrite Hsp, Hspeed. cbn. rewrite !mul_NaN_r. cbn. now rewrite !add_NaN_r. }
  split; [exact Hlost |]. intros steps e'. now apply runCreature_lost.
Qed.

Lemma runCreature_app steps1 steps2 : forall c e,
  runCreature (steps1 ++ steps2) c e =
    runCreature steps2 (fst (runCreature steps1 c e)) (snd (runCreature steps1 c e)).
Proof.
  induction steps1 as [| st rest IH]; intros c e; cbn [app runCreature fst snd];
    [reflexivity |].
  destruct (stepCreature st c e) as [c1 e1]. apply IH.
Qed.

Lemma tick_keeps_fleeing c t dt env e :
  fleeing t c -> 0 < t - 1000 * dt ->
  0 <= dt ->
  fleeing (t - 1000 * dt) (fst (stepCreature (Tick (Fin dt) env) c e)).
Proof.
  intros (Hlive & Hflee & q & Hq & Hqt) Hleft Hdt. cbn [stepCreature]. rewrite Hlive.
  assert (Hc1 : tickStateTimer c (Fin dt) = setStateTimer (Fin (q - dt * 1000)) c).
  { unfold tickStateTimer. rewrite Hq. cbn [Num.gtb Num.ltb Num.sub Num.mul].
    assert (E1 : Qltb 0 q = true) by (apply Qltb_lt; nra).
    rewrite E1. cbn [stateTimer setStateTimer Num.leb].
    assert (E2 : Qle_bool (q - dt * 1000) 0 = false).
    { apply not_true_iff_false. rewrite Qle_bool_iff. lra. }
    now rewrite E2. }
  unfold updateCreature. rewrite Hc1. cbn [state setStateTimer]. rewrite Hflee.
  unfold updateFlee. cbn. repeat split; try assumption.
  exists (q - dt * 1000). split; [reflexivity | lra].
Qed.

Lemma tick_ends_fleeing c t dt env e :
  fleeing t c -> 0 < t -> t - 1000 * dt <= 0 ->
  state (fst (stepCreature (Tick (Fin dt) env) c e)) <> flee.
Proof.
  intros (Hlive & Hflee & q & Hq & Hqt) Hpos Hout. cbn [stepCreature]. rewrite Hlive.
  assert (Hc1 : tickStateTimer c (Fin dt)
                = setState idle (setStateTimer (Fin (q - dt * 1000)) c)).
  { unfold tickStateTimer. rewrite Hq. cbn [Num.gtb Num.ltb Num.sub Num.mul].
    assert (E1 : Qltb 0 q = true) by (apply Qltb_lt; lra).
    rewrite E1. cbn [stateTimer setStateTimer Num.leb].
    assert (E2 : Qle_bool (q - dt * 1000) 0 = true) by (apply Qle_bool_iff; lra).
    now rewrite E2. }
  unfold updateCreature. rewrite Hc1. cbn [state setState].
  unfold updateIdle, mathRandom.
  repeat match goal with |- context [if ?b then _ else _] => destruct b end;
    cbn; discriminate.
Qed.

Lemma ticks_keep_fleeing l : forall c e t,
  fleeing t c ->
  Forall (fun te => 0 <= fst te) l ->
  1000 * totalTime l < t ->
  fleeing (t - 1000 * totalTime l) (fst (runCreature (ticksOf l) c e)).
Proof.
  induction l as [| [dt env] rest IH]; intros c e t Hf Hl Ht;
    cbn [ticksOf map runCreature totalTime fst snd] in *.
  - destruct Hf as (Hlive & Hflee & q & Hq & Hqt).
    repeat split; try assumption. exists q. split; [exact Hq | lra].
  - apply Forall_cons in Hl as [Hdt Hrest]. cbn [fst] in Hdt.
    assert (Hnonneg : 0 <= totalTime rest).
    { clear -Hrest. induction Hrest as [| te l Hte _ IHl]; cbn [totalTime]; lra. }
    pose proof (tick_keeps_fleeing c t dt env e Hf ltac:(lra) Hdt) as Hf1.
    destruct (stepCreature (Tick (Fin dt) env) c e) as [c1 e1]. cbn [fst] in Hf1.
    specialize (IH c1 e1 (t - 1000 * dt) Hf1 Hrest ltac:(lra)).
    fold (ticksOf rest).
    destruct IH as (Hlive & Hflee & q & Hq & Hqt).
    repeat split; try assumption. exists q. split; [exact Hq | lra].
Qed.

(** X14.  A creature that is hit and flees, without dying of the hit, flees for
    5000 ms of game time, to the millisecond: it is still fleeing after any
    ticks that together last at most 4999 ms, and a tick that brings the
    time to 5001 ms or more takes it out of the flee state.  (The timer is
    counted down here without rounding; the millisecond to either side of
    5000, and the bound on the number of ticks, leave room for what the
    rounding of each subtraction adds up to.) *)
Theorem flee_lasts_five_seconds
    (c : Creature) (damage : number) (attacker : option Ref) (env : Env)
    (e : Effects) (l : list (Q * Env)) :
  isDead c = false ->
  peaceful (speciesData c) ->
  let hit := damageCreature c damage attacker env e in
  isDead (fst hit) = false ->
  Forall (fun te => 0 <= fst te) l ->
  (Z.of_nat (length l) <= 1000000)%Z ->
  1000 * totalTime l <= 4999 ->
  state (fst (runCreature (ticksOf l) (fst hit) (snd hit))) = flee
  /\ forall dt env',
       5001 <= 1000 * (totalTime l + dt) ->
       state (fst (runCreature (ticksOf (l ++ [(dt, env')])) (fst hit) (snd hit)))
       <> flee.
Proof.
  intros Hlive Hpeace hit Hsurvived Hl _ Ht.
  assert (Hf : fleeing 5000 (fst hit)).
  { subst hit. rewrite damageCreature_live in * by exact Hlive.
    unfold reactToDamage in *. cbn [speciesData setHealth] in *.
    destruct Hpeace as [Hb | [Hb Ha]]; rewrite Hb in *; [| rewrite Ha in *];
      cbn in *; destruct (Num.leb _ _); try discriminate;
      (repeat split; cbn; try assumption; exists 5000; split; [reflexivity | lra]). }
  pose proof (ticks_keep_fleeing l (fst hit) (snd hit) 5000 Hf Hl ltac:(lra)) as Hstill.
  split; [apply Hstill |].
  intros dt env' Hend. unfold ticksOf. rewrite map_app, runCreature_app.
  fold (ticksOf l). cbn [map runCreature fst snd].
  pose proof (tick_ends_fleeing _ (5000 - 1000 * totalTime l) dt env'
                (snd (runCreature (ticksOf l) (fst hit) (snd hit))) Hstill
                ltac:(lra) ltac:(lra)) as Hout.
  now destruct (stepCreature _ _ _).
Qed.

(** *** Species that do not fight *)

Lemma not_aggressive sp :
  peaceful sp -> Species.eqb (Species.behavior sp) Species.aggressive = false.
Proof. intros [Hb | [Hb _]]; now rewrite Hb. Qed.

Lemma tickStateTimer_state c dt :
  speciesData (tickStateTimer c dt) = speciesData c
  /\ (state (tickStateTimer c dt) = state c \/ state (tickStateTimer c dt) = idle).
Proof.
  unfold tickStateTimer.
  repeat match goal with |- context [if ?b then _ else _] => destruct b end;
    cbn; auto.
Qed.

Lemma updateCreature_peaceful c dt env e :
  peaceful (speciesData c) ->
  state c <> chase -> state c <> attack ->
  let r := updateCreature c dt env e in
  speciesData (fst r) = speciesData c
  /\ state (fst r) <> chase /\ state (fst r) <> attack
  /\ attackTimes (trace (snd r)) = attackTimes (trace e).
Proof.
  intros Hp Hchase Hattack. unfold updateCreature.
  destruct (tickStateTimer_state c dt) as [Hsp Hst].
  set (c1 := tickStateTimer c dt) in *.
  assert (Hc1 : state c1 <> chase /\ state c1 <> attack)
    by (destruct Hst as [-> | ->]; now split).
  clearbody c1. rewrite <- Hsp in *. clear Hsp Hst Hchase Hattack c.
  set (d := distanceTo _ _). clearbody d.
  pose proof (not_aggressive _ Hp) as Hna.
  destruct (state c1) eqn:Hs; try (now destruct Hc1).
  - unfold updateIdle, mathRandom. rewrite Hna. cbn.
    destruct (Num.ltb _ _); cbn; rewrite ?Hs; repeat split; discriminate.
  - unfold updateWander, pickWanderTarget, mathRandom. rewrite Hna. cbn.
    destruct (wanderTarget c1) as [w |] eqn:Hw; cbn.
    + destruct (Num.ltb _ _); cbn; rewrite ?Hw; cbn; rewrite ?Hs;
        repeat split; discriminate.
    + rewrite Hs. repeat split; discriminate.
  - unfold updateFlee. cbn. rewrite Hs. repeat split; discriminate.
Qed.

Lemma damageCreature_peaceful c damage attacker env e :
  peaceful (speciesData c) ->
  state c <> chase -> state c <> attack ->
  let r := damageCreature c damage attacker env e in
  speciesData (fst r) = speciesData c
  /\ state (fst r) <> chase /\ state (fst r) <> attack
  /\ attackTimes (trace (snd r)) = attackTimes (trace e).
Proof.
  intros Hp Hchase Hattack. unfold damageCreature.
  destruct (isDead c); [now repeat split |]. cbv zeta.
  assert (Hr : reactToDamage attacker (setHealth (Num.sub (health c) damage) c)
               = setStateTimer (Fin 5000)
                   (setState flee (setHealth (Num.sub (health c) damage) c))).
  { unfold reactToDamage. cbn [speciesData setHealth].
    destruct Hp as [Hb | [Hb Ha]]; rewrite Hb; [| rewrite Ha]; reflexivity. }
  rewrite Hr. cbn [health setStateTimer setState setHealth].
  destruct (Num.leb _ _); cbn [fst snd killCreature].
  - unfold dropLoot. rewrite dropLootFrom_times. cbn. repeat split; discriminate.
  - cbn. repeat split; discriminate.
Qed.

Lemma stepCreature_peaceful st c e :
  peaceful (speciesData c) ->
  state c <> chase -> state c <> attack ->
  let r := stepCreature st c e in
  speciesData (fst r) = speciesData c
  /\ state (fst r) <> chase /\ state (fst r) <> attack
  /\ attackTimes (trace (snd r)) = attackTimes (trace e).
Proof.
  intros Hp Hchase Hattack.
  destruct st as [dt env | damage attacker env]; cbn [stepCreature].
  - destruct (isDead c); [now repeat split | now apply updateCreature_peaceful].
  - now apply damageCreature_peaceful.
Qed.

(** X15.  A creature of a species that flees when hit (passive, or neutral with
    [aggroOnHit]: the rabbit, the deer and the boar) never fights.  If it is
    not chasing or attacking now, as on spawning, then after any ticks and
    hits it is not chasing or attacking either, and [performAttack] has not
    been called for it. *)
Theorem peaceful_species_never_attack
    (steps : list CreatureStep) (c : Creature) (e : Effects) :
  peaceful (speciesData c) ->
  state c <> chase ->
  state c <> attack ->
  let r := runCreature steps c e in
  state (fst r) <> chase
  /\ state (fst r) <> attack
  /\ attackTimes (trace (snd r)) = attackTimes (trace e).
Proof.
  revert c e. induction steps as [| st rest IH]; intros c e Hp Hchase Hattack;
    cbn [runCreature]; [now repeat split |].
  destruct (stepCreature_peaceful st c e Hp Hchase Hattack) as (Hsp & Hc & Ha & Ht).
  destruct (stepCreature st c e) as [c1 e1]. cbn [fst snd] in *.
  rewrite <- Hsp in Hp. rewrite <- Ht. now apply IH.
Qed.

End MoreOfCreatures.


(** * The further theorems on concrete inputs *)

Section NodesOnConcreteInputs.

Import ResourceSystem NodeLifecycle.

Lemma all_nodes_back_after_delay_witness :
  let s := run Demo.axeOnTree empty in
  (60000 <= Z.of_N 60000)%Z
  /\ timers (advance 60000 s) = []
  /\ exists n',
       resourceNodes (advance 60000 s) !! 0%nat = Some n'
       /\ canGather n' = true /\ health n' = maxHealth n'.
Proof.
  intros s.
  assert (Hdt : (60000 <= Z.of_N 60000)%Z) by (cbn; lia).
  destruct (all_nodes_back_after_delay Demo.axeOnTree 60000 Hdt) as [Htimers Hnodes].
  split; [exact Hdt |]. split; [exact Htimers |].
  destruct (Hnodes 0%nat _ eq_refl) as (n' & Hn' & Hg & Hfull & _).
  exists n'. repeat split; [exact Hn' | exact Hg | apply Hfull; reflexivity].
Defined.

Lemma gathers_until_depleted_witness :
  let s := run [Create "tree" (Fin 3) (Fin 0) (Fin 4)] empty in
  let r := gatherRepeatedly 3 0 (Fin 2) s in
  (exists node',
      resourceNodes (fst r) !! 0%nat = Some node'
      /\ health node' = (-1)%Z /\ canGather node' = false)
  /\ snd r = repeat (Some (mkDrop "wood" (Fin (inject_Z 2)))) 3
  /\ gatherResource 0 (Fin 2) (fst r) = (fst r, None).
Proof.
  intros s r.
  destruct (gathers_until_depleted 3 s 0 (Fin 2)
              (mkNode "tree" (mkVector3 (Fin 3) (Fin 0) (Fin 4)) 5 5 true 60000 None)
              eq_refl eq_refl ltac:(vm_compute; discriminate)
              ltac:(vm_compute; reflexivity))
    as (Hnode & Hdrops & Hdone).
  split; [exact Hnode |]. split; [exact Hdrops |].
  apply Hdone. vm_compute. discriminate.
Defined.

End NodesOnConcreteInputs.

Section MoreCreaturesOnConcreteInputs.

Import CreatureSystem CreatureLife.

Lemma registry_weighted : Forall weighted initializeSpecies.
Proof.
  unfold initializeSpecies.
  repeat apply List.Forall_cons; try apply List.Forall_nil.
  all: (eexists; split; [reflexivity | vm_compute; discriminate]).
Qed.

(** The loot of a wolf (meat for sure, a fang with chance 0.5) when
    [Math.random()] returns 0.9, 0, 0.9, ... from the first roll on: the
    roll for the meat, the id of the meat that the inventory makes, and the
    roll for the fang, which fails with 0.9. *)
Example wolf_loot_draws :
  let e' := snd (killCreature (H := Demo.lively) (Demo.fresh Species.wolf)
                              (Demo.envAt 2 1000) (mkEffects 1 [])) in
  randomCalls e' = 4%nat
  /\ droppedItems (trace e') = [("meat"%string, Fin 2)].
Proof. vm_compute. split; reflexivity. Qed.

Lemma selectSpecies_by_cumulative_weight_witness :
  Forall weighted initializeSpecies
  /\ selectSpecies (Fin 40) initializeSpecies None = Some Species.deer.
Proof.
  split; [exact registry_weighted |].
  destruct (selectSpecies_by_cumulative_weight initializeSpecies 40 None
              registry_weighted) as [Hin _].
  apply (Hin [Species.rabbit] Species.deer [Species.wolf; Species.boar; Species.bear]).
  - reflexivity.
  - right. vm_compute. reflexivity.
  - vm_compute. discriminate.
Defined.

Lemma death_is_final_witness :
  let r := runCreature (H := Demo.calm) Demo.rabbitHunt (Demo.fresh Species.rabbit)
             (mkEffects 0 []) in
  isDead (Demo.fresh Species.rabbit) = false
  /\ isDead (fst r) = true
  /\ diedCount (trace (snd r)) = 1%nat
  /\ health (fst r) = Fin 0
  /\ runCreature (H := Demo.calm) Demo.rabbitHunt (fst r) (snd r) = r.
Proof.
  intros r.
  assert (Hlive : isDead (Demo.fresh Species.rabbit) = false)
    by (vm_compute; reflexivity).
  assert (Hdead : isDead (fst r) = true) by (vm_compute; reflexivity).
  pose proof (death_is_final (H := Demo.calm) Demo.rabbitHunt (Demo.fresh Species.rabbit) 0
                Hlive) as Hfinal.
  cbv zeta in Hfinal. change (mkEffects 0 []) with Demo.noEffects in *.
  destruct Hfinal as [Hcount Hfinal].
  destruct (Hfinal Hdead) as [Hzero Hmore].
  split; [exact Hlive |]. split; [exact Hdead |].
  split; [| split; [exact Hzero | exact (Hmore Demo.rabbitHunt)]].
  exact (eq_trans Hcount
           (f_equal (fun b : bool => if b then 1%nat else 0%nat) Hdead)).
Defined.

Lemma health_never_rises_witness :
  exists h',
    health (fst (runCreature (H := Demo.calm) Demo.rabbitHunt (Demo.fresh Species.rabbit)
                   Demo.noEffects)) = Fin h'
    /\ 0 <= h' /\ h' <= 10.
Proof.
  apply (health_never_rises (H := Demo.calm) Demo.rabbitHunt (Demo.fresh Species.rabbit)
           Demo.noEffects 10).
  - vm_compute. reflexivity.
  - vm_compute. discriminate.
  - unfold hitsNonnegative, Demo.rabbitHunt.
    repeat apply List.Forall_cons; try apply List.Forall_nil; try exact I;
      vm_compute; discriminate.
Defined.

Lemma attack_transitions_witness :
  let wolf := Demo.wolfAttacking in
  let env := Demo.envAt 1 10032 in
  let r := updateCreature (H := Demo.calm) wolf (Fin 0.016) env Demo.noEffects in
  state wolf = attack
  /\ timerQuiet wolf (Fin 0.016)
  /\ state (fst r) = attack
  /\ attackTimes (trace (snd r)) = [Fin 10032]
  /\ lastAttackTime (fst r) = Fin 10032.
Proof.
  intros wolf env r.
  assert (Hattack : state wolf = attack) by (vm_compute; reflexivity).
  assert (Hquiet : timerQuiet wolf (Fin 0.016)) by (left; vm_compute; reflexivity).
  destruct (attack_transitions (H := Demo.calm) wolf 0.016 env Demo.noEffects
              Hattack Hquiet) as [_ Hin].
  destruct Hin as (Hstate & _ & _ & _ & Hcooled & _).
  { vm_compute. intros Hlt. discriminate Hlt. }
  destruct Hcooled as [Htimes Hlast]; [vm_compute; reflexivity |].
  split; [exact Hattack |]. split; [exact Hquiet |]. split; [exact Hstate |].
  split; [exact Htimes | exact Hlast].
Defined.

Lemma flee_without_speed_loses_position_witness :
  let boar := Demo.boarHit in
  let env := Demo.envAt 2 1100 in
  let boar' := fst (updateCreature (H := Demo.calm) boar (Fin 0.1) env Demo.noEffects) in
  state boar = flee
  /\ timerQuiet boar (Fin 0.1)
  /\ Species.fleeSpeed (speciesData boar) = NaN
  /\ vx (position boar') = NaN /\ vz (position boar') = NaN
  /\ vx (position (fst (runCreature (H := Demo.calm)
                          [Tick (Fin 0.1) (Demo.envAt 2 1200);
                           Tick (Fin 5) (Demo.envAt 2 6200)]
                          boar' Demo.noEffects))) = NaN.
Proof.
  intros boar env boar'.
  assert (Hflee : state boar = flee) by (vm_compute; reflexivity).
  assert (Hquiet : timerQuiet boar (Fin 0.1)) by (right; vm_compute; reflexivity).
  assert (Hspeed : Species.fleeSpeed (speciesData boar) = NaN)
    by (vm_compute; reflexivity).
  destruct (flee_without_speed_loses_position (H := Demo.calm) boar (Fin 0.1) env
              Demo.noEffects Hflee Hquiet Hspeed) as [[Hx Hz] Hlater].
  split; [exact Hflee |]. split; [exact Hquiet |]. split; [exact Hspeed |].
  split; [exact Hx |]. split; [exact Hz |].
  exact (proj1 (Hlater _ Demo.noEffects)).
Defined.

Lemma flee_lasts_five_seconds_witness :
  let rabbit := Demo.fresh Species.rabbit in
  let env := Demo.envAt 2 1000 in
  let hit := damageCreature (H := Demo.calm) rabbit (Fin 4) (Some (Object 0)) env
               Demo.noEffects in
  let l := [(2, env); (2.9, env)] in
  isDead (fst hit) = false
  /\ state (fst (runCreature (H := Demo.calm) (ticksOf l) (fst hit) (snd hit))) = flee
  /\ state (fst (runCreature (H := Demo.calm) (ticksOf (l ++ [(0.2, env)]))
                   (fst hit) (snd hit))) <> flee.
Proof.
  intros rabbit env hit l.
  assert (Hlive : isDead rabbit = false) by (vm_compute; reflexivity).
  assert (Hpeace : peaceful (speciesData rabbit)) by (left; vm_compute; reflexivity).
  assert (Hsurvived : isDead (fst hit) = false) by (vm_compute; reflexivity).
  assert (Hl : Forall (fun te : Q * Env => 0 <= fst te) l).
  { repeat apply List.Forall_cons; try apply List.Forall_nil; vm_compute; discriminate. }
  assert (Hn : (Z.of_nat (length l) <= 1000000)%Z) by (cbn; lia).
  assert (Ht : 1000 * totalTime l <= 4999) by (vm_compute; discriminate).
  destruct (flee_lasts_five_seconds (H := Demo.calm) rabbit (Fin 4) (Some (Object 0))
              env Demo.noEffects l Hlive Hpeace Hsurvived Hl Hn Ht) as [Hstill Hend].
  split; [exact Hsurvived |]. split; [exact Hstill |].
  apply Hend. vm_compute. discriminate.
Defined.

Lemma peaceful_species_never_attack_witness :
  let boar := Demo.fresh Species.boar in
  let r := runCreature (H := Demo.calm) Demo.rabbitHunt boar Demo.noEffects in
  peaceful (speciesData boar)
  /\ state (fst r) <> chase /\ state (fst r) <> attack
  /\ attackTimes (trace (snd r)) = [].
Proof.
  intros boar r.
  assert (Hpeace : peaceful (speciesData boar))
    by (right; split; vm_compute; reflexivity).
  split; [exact Hpeace |].
  apply (peaceful_species_never_attack (H := Demo.calm) Demo.rabbitHunt boar
           Demo.noEffects Hpeace); vm_compute; discriminate.
Defined.

End MoreCreaturesOnConcreteInputs.


(** * The inventory *)

Section InventoryStacks.

Import Inventory.
Context `{Runtime}.

(** *** The table of stacks *)

Lemma get_set_eq {A : Type} k (v : A) m : Js.get k (Js.set k v m) = Some v.
Proof.
  induction m as [| [k' v'] m IH]; cbn [Js.get Js.set].
  - now rewrite String.eqb_refl.
  - destruct (String.eqb k k') eqn:E; cbn [Js.get]; rewrite ?String.eqb_refl, ?E; auto.
Qed.

Lemma get_set_ne {A : Type} k k' (v : A) m :
  k' <> k -> Js.get k' (Js.set k v m) = Js.get k' m.
Proof.
  intros Hne. apply String.eqb_neq in Hne.
  induction m as [| [k0 v0] m IH]; cbn [Js.get Js.set].
  - now rewrite Hne.
  - destruct (String.eqb k k0) eqn:E; cbn [Js.get].
    + apply String.eqb_eq in E. subst k0. now rewrite Hne.
    + now rewrite IH.
Qed.

Lemma get_delete_eq {A : Type} k (m : list (string * A)) : Js.get k (Js.delete k m) = None.
Proof.
  induction m as [| [k' v'] m IH]; cbn [Js.get Js.delete]; [reflexivity |].
  destruct (String.eqb k k') eqn:E; cbn [Js.get]; rewrite ?E; auto.
Qed.

Lemma get_delete_ne {A : Type} k k' (m : list (string * A)) :
  k' <> k -> Js.get k' (Js.delete k m) = Js.get k' m.
Proof.
  intros Hne. apply String.eqb_neq in Hne.
  induction m as [| [k0 v0] m IH]; cbn [Js.get Js.delete]; [reflexivity |].
  destruct (String.eqb k k0) eqn:E; cbn [Js.get].
  - apply String.eqb_eq in E. subst k0. now rewrite Hne.
  - now rewrite IH.
Qed.

Lemma get_In {A : Type} k (v : A) m : Js.get k m = Some v -> In (k, v) m.
Proof.
  induction m as [| [k' v'] m IH]; cbn [Js.get]; [discriminate |].
  destruct (String.eqb k k') eqn:E.
  - apply String.eqb_eq in E. intros [= ->]. subst. now left.
  - intros Hg. right. now apply IH.
Qed.

Lemma In_set {A : Type} k (v : A) m kv :
  In kv (Js.set k v m) -> kv = (k, v) \/ In kv m.
Proof.
  induction m as [| [k' v'] m IH]; cbn [Js.set].
  - intros [<- | []]. now left.
  - destruct (String.eqb k k'); intros [<- | Hin]; auto.
    + right. now right.
    + right. now left.
    + destruct (IH Hin); auto. right. now right.
Qed.

Lemma In_delete {A : Type} k (m : list (string * A)) kv :
  In kv (Js.delete k m) -> In kv m.
Proof.
  induction m as [| [k' v'] m IH]; cbn [Js.delete]; [easy |].
  destruct (String.eqb k k').
  - intros Hin. right. now apply IH.
  - intros [<- | Hin]; [now left | right; now apply IH].
Qed.

(** *** Counts *)

Lemma orElse_number x : exists q, Js.orElse x (Fin 0) = Fin q.
Proof.
  destruct x as [[q |] |]; cbn; try (now exists 0).
  destruct (Qeq_bool q 0); [now exists 0 | now exists q].
Qed.

Lemma count_held k inv q :
  Js.orElse (Js.get k (items inv)) (Fin 0) = Fin q -> held k inv = q.
Proof. unfold held, getItemCount. now intros ->. Qed.

Lemma held_set k q m inv : held k (setItems (Js.set k (Fin q) m) inv) == q.
Proof.
  unfold held, getItemCount. cbn [items setItems]. rewrite get_set_eq. cbn.
  destruct (Qeq_bool q 0) eqn:E; [| reflexivity].
  apply Qeq_bool_iff in E. now rewrite E.
Qed.

Lemma held_items k inv inv' :
  Js.get k (items inv') = Js.get k (items inv) -> held k inv' = held k inv.
Proof. unfold held, getItemCount. now intros ->. Qed.

Lemma lying_app k l1 l2 : lying k (l1 ++ l2) == lying k l1 + lying k l2.
Proof.
  induction l1 as [| item l1 IH]; cbn [lying app]; [ring |]. rewrite IH. ring.
Qed.

(** *** Items that go to the ground *)

Lemma isRunning_running env : isRunning env = true <-> running env.
Proof.
  unfold isRunning, running. destruct (player env) as [p |].
  - split; [intros Hw; split; [now exists p | exact Hw] | now intros [_ Hw]].
  - split; [discriminate | now intros [[p [=]] _]].
Qed.

Lemma isKnown_known k : isKnown k = true <-> Js.has k itemData = true.
Proof. reflexivity. Qed.

(** An item type that [itemData] defines is known. *)
Lemma known_has {A : Type} k (obj : list (string * A)) :
  is_Some (Js.get k obj) -> Js.has k obj = true.
Proof. intros [d Hd]. unfold Js.has. now rewrite Hd. Qed.

Lemma createGroundItem_spec k a x z env inv :
  let inv' := createGroundItem k (Fin a) x z env inv in
  items inv' = items inv
  /\ selectedSlot inv' = selectedSlot inv
  /\ ((Js.has k itemData = true /\ world env = true) ->
      groundItems inv' =
        groundItems inv
        ++ [mkGroundItem (Num.add (now env) (random (randomCalls inv))) k (Fin a)
                         (mkVector3 x (Num.add (getHeightAt x z) (Fin 0.5)) z) (Fin 0)])
  /\ (~ (Js.has k itemData = true /\ world env = true) -> inv' = inv).
Proof.
  unfold createGroundItem.
  destruct (Js.has k itemData); [destruct (world env) |]; cbn;
    repeat split; try reflexivity; try tauto;
    try (intros [Hk Hw]; discriminate).
Qed.

Lemma createGroundItem_frame k amount x z env inv :
  let inv' := createGroundItem k amount x z env inv in
  items inv' = items inv
  /\ selectedSlot inv' = selectedSlot inv
  /\ (exists new, groundItems inv' = groundItems inv ++ new)
  /\ (Js.has k itemData = true -> world env = true ->
      groundItems inv' =
        groundItems inv
        ++ [mkGroundItem (Num.add (now env) (random (randomCalls inv))) k amount
                         (mkVector3 x (Num.add (getHeightAt x z) (Fin 0.5)) z) (Fin 0)]).
Proof.
  unfold createGroundItem.
  destruct (Js.has k itemData); [destruct (world env) |]; cbn;
    repeat split; try (now eexists); try discriminate;
    try (exists []; now rewrite app_nil_r).
Qed.

Lemma dropItemOnGround_spec k a env inv :
  let inv' := dropItemOnGround k (Fin a) env inv in
  items inv' = items inv
  /\ selectedSlot inv' = selectedSlot inv
  /\ (running env -> Js.has k itemData = true ->
      exists item,
        groundItems inv' = groundItems inv ++ [item]
        /\ itemType item = k /\ amount item = Fin a)
  /\ (~ (running env /\ Js.has k itemData = true) ->
      groundItems inv' = groundItems inv).
Proof.
  unfold dropItemOnGround, running.
  destruct (player env) as [p |].
  - match goal with |- context [createGroundItem k (Fin a) ?x ?z env ?i] =>
      destruct (createGroundItem_spec k a x z env i) as (Hi & Hs & Hyes & Hno)
    end.
    cbv zeta. rewrite Hi, Hs. cbn [items selectedSlot setRandomCalls].
    repeat split.
    + intros [_ Hw] Hk. rewrite (Hyes (conj Hk Hw)). cbn [groundItems setRandomCalls].
      eexists. repeat split.
    + intros Hnot. rewrite Hno; [reflexivity |]. intros [Hk Hw]. apply Hnot.
      repeat split; [now exists p | exact Hw | exact Hk].
  - cbv zeta. repeat split.
    + intros [[p [=]] _].
Qed.

Lemma held_dropItemOnGround k' k a env inv :
  held k' (dropItemOnGround k (Fin a) env inv) = held k' inv.
Proof.
  apply held_items. now destruct (dropItemOnGround_spec k a env inv) as (-> & _).
Qed.

Lemma onGround_dropItemOnGround k' k a env inv :
  onGround k' (dropItemOnGround k (Fin a) env inv) ==
    onGround k' inv
    + (if String.eqb k' k then amountDropped k a env else 0).
Proof.
  unfold onGround, amountDropped.
  destruct (dropItemOnGround_spec k a env inv) as (_ & _ & Hyes & Hno).
  destruct (isRunning env && isKnown k) eqn:E.
  - apply andb_true_iff in E as [Hr Hk].
    apply isRunning_running in Hr. apply isKnown_known in Hk.
    destruct (Hyes Hr Hk) as (item & -> & Hty & Ha).
    rewrite lying_app. cbn [lying]. unfold share, amountOf. rewrite Hty, Ha.
    destruct (String.eqb k' k); ring.
  - rewrite Hno.
    + destruct (String.eqb k' k); ring.
    + intros [Hr Hk]. apply isRunning_running in Hr. apply isKnown_known in Hk.
      rewrite Hr, Hk in E. discriminate.
Qed.

Lemma addItem_cases (k : string) (a : Q) (env : Env) (inv : t) :
  let r := addItem k (Fin a) env inv in
  let c := held k inv in
  (Js.has k itemData = false -> r = (false, inv))
  /\ (Js.has k itemData = true ->
      (fst r = true <-> c < 99)
      /\ (c < 99 -> c + a <= 99 ->
          held k (snd r) == c + a /\ groundItems (snd r) = groundItems inv)
      /\ (c < 99 -> 99 < c + a -> held k (snd r) == 99)
      /\ (99 <= c -> held k (snd r) = c)
      /\ (running env -> total k (snd r) == total k inv + a)
      /\ (~ running env -> groundItems (snd r) = groundItems inv)
      /\ (forall k', k' <> k -> total k' (snd r) == total k' inv)).
Proof.
  intros r c. subst r. unfold addItem, maxStackSize. split.
  - now intros ->.
  - intros Hknown. rewrite Hknown. cbn [negb].
    destruct (orElse_number (Js.get k (items inv))) as [q Hq].
    pose proof (count_held k inv q Hq) as Hc. rewrite Hq. subst c.
    assert (Hcq : held k inv == q) by now rewrite Hc.
    cbn [Num.sub Num.leb Num.gtb Num.ltb Num.add].
    assert (Hother : forall k' a' inv1,
               k' <> k -> items inv1 = items inv \/
                          (exists v, items inv1 = Js.set k v (items inv)) ->
               groundItems inv1 = groundItems inv ->
               total k' (dropItemOnGround k (Fin a') env inv1) == total k' inv).
    { intros k' a' inv1 Hne Hitems Hground. unfold total.
      rewrite held_dropItemOnGround, onGround_dropItemOnGround.
      apply String.eqb_neq in Hne. rewrite Hne.
      unfold onGround. rewrite Hground.
      assert (Hh : held k' inv1 = held k' inv).
      { apply held_items. destruct Hitems as [-> | [v ->]]; [reflexivity |].
        apply get_set_ne. now apply String.eqb_neq. }
      rewrite Hh. ring. }
    destruct (Qle_bool (99 - q) 0) eqn:Efull.
    + apply Qle_bool_iff in Efull. cbn [fst snd].
      split; [split; [discriminate | intros; lra] |].
      split; [intros; lra |]. split; [intros; lra |].
      split; [intros _; now rewrite held_dropItemOnGround |].
      split; [| split].
      * intros Hrun. unfold total.
        rewrite held_dropItemOnGround, onGround_dropItemOnGround, String.eqb_refl.
        unfold amountDropped.
        rewrite (proj2 (isRunning_running env) Hrun), (proj2 (isKnown_known k) Hknown).
        cbn [andb]. ring.
      * intros Hnot. destruct (dropItemOnGround_spec k a env inv) as (_ & _ & _ & Hno).
        apply Hno. tauto.
      * intros k' Hne. apply Hother; auto.
    + apply not_true_iff_false in Efull. rewrite Qle_bool_iff in Efull.
      unfold Qltb. destruct (Qle_bool a (99 - q)) eqn:Efits; cbn [negb fst snd].
      * apply Qle_bool_iff in Efits.
        split; [split; [intros; lra | reflexivity] |].
        split; [intros _ _; split; [| reflexivity] |].
        { rewrite held_set. lra. }
        split; [intros; lra |]. split; [intros; lra |].
        split; [| split; [reflexivity |]].
        -- intros _. unfold total, onGround. cbn [groundItems setItems].
           rewrite held_set. lra.
        -- intros k' Hne. unfold total, onGround. cbn [groundItems setItems].
           rewrite (held_items k' inv (setItems _ inv)); [reflexivity |].
           cbn [items setItems]. now apply get_set_ne.
      * apply not_true_iff_false in Efits. rewrite Qle_bool_iff in Efits.
        set (inv1 := setItems (Js.set k (Fin 99) (items inv)) inv).
        split; [split; [intros; lra | reflexivity] |].
        split; [intros; lra |].
        split; [intros _ _; rewrite held_dropItemOnGround; apply held_set |].
        split; [intros; lra |].
        split; [| split].
        -- intros Hrun. unfold total.
           rewrite held_dropItemOnGround, onGround_dropItemOnGround, String.eqb_refl.
           unfold amountDropped.
           rewrite (proj2 (isRunning_running env) Hrun),
             (proj2 (isKnown_known k) Hknown).
           cbn [andb]. subst inv1. rewrite held_set.
           unfold onGround. cbn [groundItems setItems]. lra.
        -- intros Hnot.
           destruct (dropItemOnGround_spec k (a - (99 - q)) env inv1) as (_ & _ & _ & Hno).
           rewrite Hno; [reflexivity | tauto].
        -- intros k' Hne. apply Hother; auto. right. now eexists.
Qed.

(** X16.  [addItem] keeps account of what it is given.  An item type for which
    [itemData] holds nothing, neither as its own key nor under a name it
    inherits, is refused and nothing changes.  For any other type (one of
    the table, or an inherited name such as [constructor]) with [c] in the
    stack: the call returns [true] exactly when the stack has room
    ([c < 99]); what fits goes to the stack, which is filled to at most 99;
    what does not fit is dropped on the ground as one item, so that stack
    and ground together gain exactly the amount, provided the game is
    running; otherwise what does not fit is lost.  Nothing changes for other
    item types. *)
Theorem addItem_accounts (k : string) (a : Q) (env : Env) (inv : t) :
  let r := addItem k (Fin a) env inv in
  let c := held k inv in
  (Js.has k itemData = false -> r = (false, inv))
  /\ (Js.has k itemData = true ->
      (fst r = true <-> c < 99)
      /\ (c < 99 -> c + a <= 99 ->
          held k (snd r) == c + a /\ groundItems (snd r) = groundItems inv)
      /\ (c < 99 -> 99 < c + a -> held k (snd r) == 99)
      /\ (99 <= c -> held k (snd r) = c)
      /\ (running env -> total k (snd r) == total k inv + a)
      /\ (~ running env -> groundItems (snd r) = groundItems inv)
      /\ (forall k', k' <> k -> total k' (snd r) == total k' inv)).
Proof. exact (addItem_cases k a env inv). Qed.

(** *** Taking items out *)

Lemma removeItem_cases k a inv q :
  Js.orElse (Js.get k (items inv)) (Fin 0) = Fin q ->
  (q < a /\ removeItem k (Fin a) inv = (false, inv))
  \/ (a <= q
      /\ fst (removeItem k (Fin a) inv) = true
      /\ held k (snd (removeItem k (Fin a) inv)) == q - a
      /\ (q - a == 0 -> Js.get k (items (snd (removeItem k (Fin a) inv))) = None)
      /\ (forall k', k' <> k ->
            Js.get k' (items (snd (removeItem k (Fin a) inv))) = Js.get k' (items inv))
      /\ groundItems (snd (removeItem k (Fin a) inv)) = groundItems inv
      /\ (forall kv, In kv (items (snd (removeItem k (Fin a) inv))) ->
            In kv (items inv) \/ (kv = (k, Fin (q - a)) /\ ~ q - a == 0))).
Proof.
  intros Hq. unfold removeItem. rewrite Hq. cbn [Num.ltb Num.sub Js.strictEq].
  unfold Qltb. destruct (Qle_bool a q) eqn:E; cbn [negb].
  - right. apply Qle_bool_iff in E. split; [exact E |]. cbn [fst snd].
    split; [reflexivity |].
    destruct (Qeq_bool (q - a) 0) eqn:Ez.
    + apply Qeq_bool_iff in Ez. repeat split.
      * unfold held, getItemCount. cbn [items setItems]. rewrite get_delete_eq. cbn.
        now rewrite Ez.
      * intros _. cbn [items setItems]. apply get_delete_eq.
      * intros k' Hne. cbn [items setItems]. now apply get_delete_ne.
      * intros kv Hin. left. cbn [items setItems] in Hin. now apply In_delete in Hin.
    + assert (Hnz : ~ q - a == 0).
      { intros Hz. apply Qeq_bool_iff in Hz. congruence. }
      repeat split.
      * apply held_set.
      * intros Hz. contradiction.
      * intros k' Hne. cbn [items setItems]. now apply get_set_ne.
      * intros kv Hin. cbn [items setItems] in Hin.
        apply In_set in Hin as [-> | Hin]; [right; now split | now left].
  - left. split; [| reflexivity].
    apply not_true_iff_false in E. rewrite Qle_bool_iff in E. lra.
Qed.

(** X17.  [removeItem] takes the amount out of the stack exactly when [hasItem]
    says the stack holds that much; otherwise nothing changes and it returns
    [false].  A stack that is emptied loses its slot.  Other stacks and the
    ground are left alone. *)
Theorem removeItem_spec (k : string) (a : Q) (inv : t) :
  let r := removeItem k (Fin a) inv in
  fst r = hasItem k (Fin a) inv
  /\ (fst r = true <-> a <= held k inv)
  /\ (fst r = false -> snd r = inv)
  /\ (fst r = true ->
      held k (snd r) == held k inv - a
      /\ (held k inv - a == 0 -> Js.get k (items (snd r)) = None))
  /\ (forall k', k' <> k -> Js.get k' (items (snd r)) = Js.get k' (items inv))
  /\ groundItems (snd r) = groundItems inv.
Proof.
  intros r. subst r.
  destruct (orElse_number (Js.get k (items inv))) as [q Hq].
  pose proof (count_held k inv q Hq) as Hc.
  assert (Hcq : held k inv == q) by now rewrite Hc.
  assert (Hhas : hasItem k (Fin a) inv = Qle_bool a q).
  { unfold hasItem, Num.geb. now rewrite Hq. }
  rewrite Hhas.
  destruct (removeItem_cases k a inv q Hq)
    as [[Hlt ->] | (Hle & Hok & Hheld & Hgone & Hothers & Hground & _)].
  - cbn [fst snd]. repeat split; try discriminate; try (intros; lra); try reflexivity.
    symmetry. apply not_true_iff_false. rewrite Qle_bool_iff. lra.
  - rewrite Hok. split; [symmetry; now apply Qle_bool_iff |].
    split; [split; [intros; lra | reflexivity] |].
    split; [discriminate |].
    split; [intros _; split; [lra | intros Hz; apply Hgone; lra] |].
    split; assumption.
Qed.

Lemma addItem_fits k a env inv q :
  Js.has k itemData = true ->
  Js.orElse (Js.get k (items inv)) (Fin 0) = Fin q ->
  q < 99 -> q + a <= 99 ->
  addItem k (Fin a) env inv = (true, setItems (Js.set k (Fin (q + a)) (items inv)) inv).
Proof.
  intros Hknown Hq Hroom Hfits. unfold addItem, maxStackSize. rewrite Hknown, Hq.
  cbn [negb].
  cbn [Num.sub Num.leb Num.gtb Num.ltb Num.add]. unfold Qltb.
  assert (E1 : Qle_bool (99 - q) 0 = false).
  { apply not_true_iff_false. rewrite Qle_bool_iff. lra. }
  assert (E2 : Qle_bool a (99 - q) = true) by (apply Qle_bool_iff; lra).
  now rewrite E1, E2.
Qed.

(** X18.  Adding an amount that fits and removing it again leaves every count as
    it was, and the ground untouched; in between [hasItem] confirms the
    amount. *)
Theorem add_then_remove (k : string) (a : Q) (env : Env) (inv : t) :
  is_Some (Js.get k itemData) ->
  0 <= held k inv ->
  0 < a ->
  held k inv + a <= 99 ->
  let added := snd (addItem k (Fin a) env inv) in
  let r := removeItem k (Fin a) added in
  hasItem k (Fin a) added = true
  /\ fst r = true
  /\ (forall k', held k' (snd r) == held k' inv)
  /\ groundItems (snd r) = groundItems inv.
Proof.
  intros Hknown Hpos Ha Hfits added r.
  destruct (orElse_number (Js.get k (items inv))) as [q Hq].
  pose proof (count_held k inv q Hq) as Hc. rewrite Hc in *.
  assert (Hadded : added = setItems (Js.set k (Fin (q + a)) (items inv)) inv).
  { subst added. rewrite (addItem_fits k a env inv q); auto using known_has. lra. }
  assert (Hq' : exists q', Js.orElse (Js.get k (items added)) (Fin 0) = Fin q'
                           /\ q' == q + a).
  { rewrite Hadded. cbn [items setItems]. rewrite get_set_eq. cbn.
    destruct (Qeq_bool (q + a) 0) eqn:E.
    - apply Qeq_bool_iff in E. lra.
    - now exists (q + a). }
  destruct Hq' as (q' & Hq' & Hqq).
  assert (Hhas : hasItem k (Fin a) added = true).
  { unfold hasItem, Num.geb. rewrite Hq'. apply Qle_bool_iff. lra. }
  split; [exact Hhas |]. subst r.
  destruct (removeItem_cases k a added q' Hq')
    as [[Hlt _] | (Hle & Hok & Hheld & _ & Hothers & Hground & _)]; [lra |].
  split; [exact Hok |]. split.
  - intros k'. destruct (String.eqb k' k) eqn:E.
    + apply String.eqb_eq in E. subst k'. rewrite Hheld, Hc. lra.
    + apply String.eqb_neq in E.
      rewrite (held_items k' added _ (Hothers k' E)).
      rewrite Hadded. rewrite (held_items k' inv (setItems _ inv)); [reflexivity |].
      cbn [items setItems]. now apply get_set_ne.
  - rewrite Hground, Hadded. reflexivity.
Qed.

(** *** Picking up *)

Lemma lying_insert k l : forall j item item',
  l !! j = Some item ->
  lying k (<[j := item']> l) == lying k l - share k item + share k item'.
Proof.
  induction l as [| x l IH]; intros [| j] item item' Hj; cbn in Hj; try discriminate.
  - injection Hj as ->. cbn [lying]. change (<[0%nat := item']> (item :: l)) with (item' :: l).
    cbn [lying]. ring.
  - change (<[S j := item']> (x :: l)) with (x :: <[j := item']> l).
    cbn [lying]. rewrite (IH j item item' Hj). ring.
Qed.

Lemma lying_delete k l : forall j item,
  l !! j = Some item ->
  lying k (base.delete j l) == lying k l - share k item.
Proof.
  induction l as [| x l IH]; intros [| j] item Hj; cbn in Hj; try discriminate.
  - injection Hj as ->. change (base.delete 0%nat (item :: l)) with l.
    cbn [lying]. ring.
  - change (base.delete (S j) (x :: l)) with (x :: base.delete j l).
    cbn [lying]. rewrite (IH j item Hj). ring.
Qed.

Lemma setAmount_same item a : amount item = Fin a -> setAmount (Fin a) item = item.
Proof. destruct item. cbn. now intros ->. Qed.

(** What one pickup does: the whole item goes to the stack and leaves the
    ground, or the stack is full afterwards and the rest stays. *)
Lemma attemptPickup_spec j inv item a :
  groundItems inv !! j = Some item ->
  amount item = Fin a ->
  0 <= a ->
  let inv' := attemptPickup j inv in
  (forall k, total k inv' == total k inv)
  /\ (forall k, held k inv <= held k inv')
  /\ (forall k, k <> itemType item -> Js.get k (items inv') = Js.get k (items inv))
  /\ (forall kv, In kv (items inv') ->
        In kv (items inv)
        \/ (fst kv = itemType item
            /\ exists q, snd kv = Fin q /\ held (itemType item) inv <= q /\ q <= 99))
  /\ (groundItems inv' = base.delete j (groundItems inv)
      \/ exists a',
           0 <= a' /\ a' <= a
           /\ groundItems inv' = <[j := setAmount (Fin a') item]> (groundItems inv)
           /\ 99 <= held (itemType item) inv').
Proof.
  intros Hj Ha Hpos inv'. subst inv'. unfold attemptPickup, getRoomFor, maxStackSize.
  rewrite Hj.
  destruct (orElse_number (Js.get (itemType item) (items inv))) as [q Hq].
  pose proof (count_held _ inv q Hq) as Hc.
  assert (Hcq : held (itemType item) inv == q) by now rewrite Hc.
  rewrite Hq, Ha. cbn [Num.sub Num.leb Js.min Num.add].
  destruct (Qle_bool (99 - q) 0) eqn:Efull.
  - apply Qle_bool_iff in Efull.
    assert (Hsame : forall k, held k (setRandomCalls (S (randomCalls inv)) inv) = held k inv)
      by reflexivity.
    split; [intros k; reflexivity |]. split; [intros k; rewrite Hsame; lra |].
    split; [reflexivity |]. split; [intros kv Hin; now left |].
    right. exists a. repeat split; try lra.
    + cbn [groundItems setRandomCalls]. rewrite setAmount_same by exact Ha.
      symmetry. now apply list_insert_id.
    + rewrite Hsame. lra.
  - apply not_true_iff_false in Efull. rewrite Qle_bool_iff in Efull.
    assert (Hheld : forall u k inv1,
               items inv1 = Js.set (itemType item) (Fin (q + u)) (items inv) ->
               held k inv1 == held k inv
                              + (if String.eqb k (itemType item) then u else 0)).
    { intros u k inv1 Hitems. destruct (String.eqb k (itemType item)) eqn:E.
      - apply String.eqb_eq in E. subst k.
        unfold held at 1, getItemCount. rewrite Hitems, get_set_eq. cbn.
        destruct (Qeq_bool (q + u) 0) eqn:Ez.
        + apply Qeq_bool_iff in Ez. lra.
        + lra.
      - apply String.eqb_neq in E.
        rewrite (held_items k inv inv1); [ring |].
        rewrite Hitems. now apply get_set_ne. }
    destruct (Qle_bool a (99 - q)) eqn:Eall.
    + apply Qle_bool_iff in Eall. cbn [amount setAmount Num.sub Num.leb].
      assert (Ez : Qle_bool (a - a) 0 = true) by (apply Qle_bool_iff; lra).
      rewrite Ez. set (inv1 := mkInventory _ _ _ _).
      assert (Hheld1 := fun k => Hheld a k inv1 eq_refl).
      split; [| split; [| split; [| split; [| now left]]]].
      * intros k. unfold total, onGround. cbn [groundItems inv1].
        rewrite (Hheld1 k), (lying_delete k _ j item Hj).
        unfold share, amountOf. rewrite Ha.
        destruct (String.eqb k (itemType item)); ring.
      * intros k. rewrite (Hheld1 k).
        destruct (String.eqb k (itemType item)); lra.
      * intros k Hne. cbn [items]. now apply get_set_ne.
      * intros kv Hin. cbn [items] in Hin.
        apply In_set in Hin as [-> | Hin]; [right | now left].
        cbn [fst snd]. split; [reflexivity |]. exists (q + a). repeat split; lra.
    + apply not_true_iff_false in Eall. rewrite Qle_bool_iff in Eall.
      cbn [amount setAmount Num.sub Num.leb].
      assert (Ez : Qle_bool (a - (99 - q)) 0 = false).
      { apply not_true_iff_false. rewrite Qle_bool_iff. lra. }
      rewrite Ez. set (inv1 := mkInventory _ _ _ _).
      assert (Hheld1 := fun k => Hheld (99 - q) k inv1 eq_refl).
      split; [| split; [| split; [| split]]].
      * intros k. unfold total, onGround. cbn [groundItems inv1].
        rewrite (Hheld1 k), (lying_insert k _ j item _ Hj).
        unfold share, amountOf. cbn [itemType amount setAmount]. rewrite Ha.
        destruct (String.eqb k (itemType item)); ring.
      * intros k. rewrite (Hheld1 k).
        destruct (String.eqb k (itemType item)); lra.
      * intros k Hne. cbn [items]. now apply get_set_ne.
      * intros kv Hin. cbn [items] in Hin.
        apply In_set in Hin as [-> | Hin]; [right | now left].
        cbn [fst snd]. split; [reflexivity |]. exists (q + (99 - q)).
        repeat split; lra.
      * right. exists (a - (99 - q)). repeat split; try lra.
        rewrite (Hheld1 (itemType item)), String.eqb_refl. lra.
Qed.

Lemma delete_insert_same {A : Type} (l : list A) : forall i x,
  base.delete i (<[i := x]> l) = base.delete i l.
Proof.
  induction l as [| y l IH]; intros [| i] x; try reflexivity.
  change (y :: base.delete i (<[i := x]> l) = y :: base.delete i l). now rewrite IH.
Qed.

Lemma insert_insert_same {A : Type} (l : list A) : forall i x y,
  <[i := y]> (<[i := x]> l) = <[i := y]> l.
Proof.
  induction l as [| z l IH]; intros [| i] x y; try reflexivity.
  change (z :: <[i := y]> (<[i := x]> l) = z :: <[i := y]> l). now rewrite IH.
Qed.

(** What the loop of [updateGroundItems] does with one item. *)
Lemma visitGroundItem_spec i dt p inv item a :
  groundItems inv !! i = Some item ->
  amount item = Fin a ->
  0 <= a ->
  let inv' := visitGroundItem i dt p inv in
  (forall k, total k inv' == total k inv)
  /\ (forall k, held k inv <= held k inv')
  /\ (forall kv, In kv (items inv') ->
        In kv (items inv)
        \/ (fst kv = itemType item
            /\ exists q, snd kv = Fin q /\ held (itemType item) inv <= q /\ q <= 99))
  /\ (groundItems inv' = base.delete i (groundItems inv)
      \/ exists item',
           groundItems inv' = <[i := item']> (groundItems inv)
           /\ itemType item' = itemType item
           /\ position item' = position item
           /\ (exists a', amount item' = Fin a' /\ 0 <= a' /\ a' <= a)
           /\ (inReach p item -> 99 <= held (itemType item) inv')).
Proof.
  intros Hi Ha Hpos inv'. subst inv'. unfold visitGroundItem. rewrite Hi.
  set (item1 := setBobTimer _ item).
  set (inv1 := setGroundItems (<[i := item1]> (groundItems inv)) inv).
  assert (Hlt : (i < length (groundItems inv))%nat) by (eapply lookup_lt_Some; eauto).
  assert (Hi1 : groundItems inv1 !! i = Some item1).
  { subst inv1. cbn [groundItems setGroundItems]. now apply list_lookup_insert_eq. }
  assert (Htotal1 : forall k, total k inv1 == total k inv).
  { intros k. unfold total, onGround. subst inv1. cbn [groundItems setGroundItems].
    rewrite (lying_insert k _ i item item1 Hi).
    change (held k (setGroundItems _ inv)) with (held k inv).
    unfold share, amountOf. subst item1. cbn [itemType amount setBobTimer]. ring. }
  assert (Hheld1 : forall k, held k inv1 = held k inv) by reflexivity.
  cbn [position setBobTimer item1].
  destruct (Num.ltb (distanceTo p (position item)) pickupRange) eqn:Hreach.
  - destruct (attemptPickup_spec i inv1 item1 a Hi1 Ha Hpos)
      as (Htotal & Hmono & _ & Hitems & Hground).
    split; [intros k; now rewrite Htotal, Htotal1 |].
    split; [intros k; rewrite <- Hheld1; apply Hmono |].
    split; [exact Hitems |].
    destruct Hground as [Hdel | (a' & Ha0 & Ha1 & Hins & Hfull)].
    + left. rewrite Hdel. subst inv1. cbn [groundItems setGroundItems].
      apply delete_insert_same.
    + right. exists (setAmount (Fin a') item1). rewrite Hins. subst inv1.
      cbn [groundItems setGroundItems]. rewrite insert_insert_same.
      repeat split; try reflexivity.
      * exists a'. now repeat split.
      * intros _. exact Hfull.
  - split; [exact Htotal1 |]. split; [intros k; rewrite Hheld1; lra |].
    split; [intros kv Hin; now left |].
    right. exists item1. repeat split.
    + exists a. repeat split; [exact Ha | exact Hpos | lra].
    + intros Hin. unfold inReach in Hin. apply ltb_lt in Hin. congruence.
Qed.

Lemma held_nonneg k inv : stacksWithin inv -> 0 <= held k inv /\ held k inv <= 99.
Proof.
  intros Hs. unfold held, getItemCount.
  destruct (Js.get k (items inv)) as [v |] eqn:Hg; cbn; [| lra].
  apply get_In in Hg. unfold stacksWithin in Hs. rewrite List.Forall_forall in Hs.
  destruct (Hs _ Hg) as (q & Hv & H0 & H99). cbn [snd] in Hv. subst v.
  destruct (Qeq_bool q 0); lra.
Qed.

(** The three facts that every operation of the inventory keeps. *)
Lemma visitGroundItem_invariant i dt p inv :
  stacksWithin inv /\ groundAmounts inv /\ knownTypes inv ->
  let inv' := visitGroundItem i dt p inv in
  stacksWithin inv' /\ groundAmounts inv' /\ knownTypes inv'.
Proof.
  intros (Hs & Hg & Hk1 & Hk2) inv'. subst inv'.
  destruct (groundItems inv !! i) as [item |] eqn:Hi;
    [| unfold visitGroundItem; rewrite Hi; repeat split; assumption].
  pose proof Hg as Hg0. unfold groundAmounts in Hg0. rewrite List.Forall_forall in Hg0.
  assert (Hin : In item (groundItems inv)).
  { apply list_elem_of_In. eapply list_elem_of_lookup_2. exact Hi. }
  destruct (Hg0 item Hin) as (a & Ha & Hpos).
  pose proof Hk2 as Hk0. rewrite List.Forall_forall in Hk0. specialize (Hk0 item Hin).
  destruct (visitGroundItem_spec i dt p inv item a Hi Ha Hpos)
    as (_ & _ & Hitems & Hground).
  destruct (held_nonneg (itemType item) inv Hs) as [Hh0 _].
  assert (Hground' :
            Forall (fun it => exists a, amount it = Fin a /\ 0 <= a)
                   (groundItems (visitGroundItem i dt p inv))
            /\ Forall (fun it => Js.has (itemType it) itemData = true)
                      (groundItems (visitGroundItem i dt p inv))).
  { destruct Hground as [-> | (item' & -> & Hty & _ & (a' & Ha' & Hpos' & _) & _)].
    - split; now apply Forall_delete.
    - split; apply Forall_insert; try assumption.
      + exists a'. now split.
      + now rewrite Hty. }
  split; [| split; [apply Hground' | split; [| apply Hground']]].
  - unfold stacksWithin. apply List.Forall_forall. intros kv Hkv.
    destruct (Hitems kv Hkv) as [Hold | (_ & q & Hq & Hlow & Hhigh)].
    + unfold stacksWithin in Hs. rewrite List.Forall_forall in Hs. now apply Hs.
    + exists q. repeat split; [exact Hq | lra | exact Hhigh].
  - apply List.Forall_forall. intros kv Hkv.
    destruct (Hitems kv Hkv) as [Hold | (Hty & _)].
    + rewrite List.Forall_forall in Hk1. now apply Hk1.
    + now rewrite Hty.
Qed.

Lemma updateGroundItemsFrom_invariant n dt p : forall inv,
  stacksWithin inv /\ groundAmounts inv /\ knownTypes inv ->
  let inv' := updateGroundItemsFrom n dt p inv in
  stacksWithin inv' /\ groundAmounts inv' /\ knownTypes inv'.
Proof.
  induction n as [| i IH]; intros inv Hinv; cbn [updateGroundItemsFrom]; [exact Hinv |].
  apply IH. now apply visitGroundItem_invariant.
Qed.

Lemma updateGroundItemsFrom_spec n dt p : forall inv,
  (n <= length (groundItems inv))%nat ->
  groundAmounts inv ->
  (forall j item, (n <= j)%nat -> groundItems inv !! j = Some item ->
                  inReach p item -> 99 <= held (itemType item) inv) ->
  let inv' := updateGroundItemsFrom n dt p inv in
  (forall k, total k inv' == total k inv)
  /\ (forall k, held k inv <= held k inv')
  /\ groundAmounts inv'
  /\ (length (groundItems inv') <= length (groundItems inv))%nat
  /\ (forall j item, groundItems inv' !! j = Some item ->
                     inReach p item -> 99 <= held (itemType item) inv').
Proof.
  induction n as [| i IH]; intros inv Hlen Hg Hdone; cbn [updateGroundItemsFrom].
  - repeat split; try reflexivity; try assumption.
    + intros k. lra.
    + intros j item Hj. apply (Hdone j); [lia | exact Hj].
  - destruct (groundItems inv !! i) as [item |] eqn:Hi;
      [| apply lookup_ge_None in Hi; lia].
    pose proof Hg as Hg0. unfold groundAmounts in Hg0. rewrite List.Forall_forall in Hg0.
    assert (Hin : In item (groundItems inv)).
    { apply list_elem_of_In. eapply list_elem_of_lookup_2. exact Hi. }
    destruct (Hg0 item Hin) as (a & Ha & Hpos).
    destruct (visitGroundItem_spec i dt p inv item a Hi Ha Hpos)
      as (Htotal & Hmono & _ & Hground).
    set (inv1 := visitGroundItem i dt p inv) in *.
    assert (Hg1 : groundAmounts inv1).
    { unfold groundAmounts.
      destruct Hground as [-> | (item' & -> & _ & _ & (a' & Ha' & Hpos' & _) & _)].
      - now apply Forall_delete.
      - apply Forall_insert; [exact Hg |]. exists a'. now split. }
    assert (Hlen1 : (i <= length (groundItems inv1))%nat
                    /\ (length (groundItems inv1) <= length (groundItems inv))%nat).
    { destruct Hground as [-> | (item' & -> & _)].
      - pose proof (length_delete (groundItems inv) i (mk_is_Some _ _ Hi)). lia.
      - rewrite length_insert. lia. }
    assert (Hdone1 : forall j it, (i <= j)%nat -> groundItems inv1 !! j = Some it ->
                       inReach p it -> 99 <= held (itemType it) inv1).
    { intros j it Hij Hj Hreach.
      destruct Hground as [Hdel | (item' & Hins & Hty & Hposn & _ & Hfull)].
      - rewrite Hdel in Hj. rewrite list_lookup_delete_ge in Hj by exact Hij.
        pose proof (Hdone (S j) it ltac:(lia) Hj Hreach) as Hold.
        pose proof (Hmono (itemType it)). lra.
      - rewrite Hins in Hj. destruct (Nat.eq_dec i j) as [<- | Hne].
        + rewrite list_lookup_insert_eq in Hj by (eapply lookup_lt_Some; eauto).
          injection Hj as <-. rewrite Hty. apply Hfull.
          unfold inReach in *. now rewrite <- Hposn.
        + rewrite list_lookup_insert_ne in Hj by exact Hne.
          pose proof (Hdone j it ltac:(lia) Hj Hreach) as Hold.
          pose proof (Hmono (itemType it)). lra. }
    destruct (IH inv1 (proj1 Hlen1) Hg1 Hdone1) as (Ht & Hm & Hg' & Hl' & Hd').
    split; [intros k; now rewrite Ht, Htotal |].
    split; [intros k; specialize (Hm k); specialize (Hmono k); lra |].
    split; [exact Hg' |]. split; [lia | exact Hd'].
Qed.

(** X20.  One pass of [updateGroundItems] with the player at [playerPos], on
    ground amounts that are numbers and not negative.  Nothing is lost or
    made: for every item type, stack and ground together hold what they held
    before.  No stack shrinks and no item appears on the ground.  And what
    is in reach and fits is picked up: an item that is still on the ground
    within pickup range afterwards is of a type whose stack is full. *)
Theorem updateGroundItems_picks_up
    (deltaTime : number) (env : Env) (inv : t) (playerPos : Vector3) :
  player env = Some playerPos ->
  groundAmounts inv ->
  let inv' := updateGroundItems deltaTime env inv in
  (forall k, total k inv' == total k inv)
  /\ (forall k, held k inv <= held k inv')
  /\ (length (groundItems inv') <= length (groundItems inv))%nat
  /\ groundAmounts inv'
  /\ (forall item, In item (groundItems inv') -> inReach playerPos item ->
                   99 <= held (itemType item) inv').
Proof.
  intros Hp Hg inv'. subst inv'. unfold updateGroundItems. rewrite Hp.
  destruct (updateGroundItemsFrom_spec (length (groundItems inv)) deltaTime playerPos inv
              (Nat.le_refl _) Hg) as (Ht & Hm & Hg' & Hl & Hd).
  { intros j item Hj Hlook. apply lookup_lt_Some in Hlook. lia. }
  repeat split; try assumption.
  intros item Hin Hreach. apply list_elem_of_In in Hin.
  apply list_elem_of_lookup_1 in Hin as [j Hj]. now apply (Hd j).
Qed.

(** *** What every operation keeps *)

Lemma stacksWithin_set k v inv :
  stacksWithin inv -> 0 <= v -> v <= 99 ->
  stacksWithin (setItems (Js.set k (Fin v) (items inv)) inv).
Proof.
  intros Hs H0 H99. unfold stacksWithin in *. rewrite List.Forall_forall in *.
  intros kv Hin. cbn [items setItems] in Hin.
  apply In_set in Hin as [-> | Hin]; [| now apply Hs].
  exists v. now repeat split.
Qed.

Lemma knownItems_set k v inv :
  Js.has k itemData = true ->
  Forall (fun kv : string * number => Js.has (fst kv) itemData = true) (items inv) ->
  Forall (fun kv : string * number => Js.has (fst kv) itemData = true)
         (Js.set k v (items inv)).
Proof.
  intros Hk Hs. rewrite List.Forall_forall in *. intros kv Hin.
  apply In_set in Hin as [-> | Hin]; [exact Hk | now apply Hs].
Qed.

Lemma dropItemOnGround_invariant k a env inv :
  0 <= a ->
  stacksWithin inv /\ groundAmounts inv /\ knownTypes inv ->
  let inv' := dropItemOnGround k (Fin a) env inv in
  stacksWithin inv' /\ groundAmounts inv' /\ knownTypes inv'.
Proof.
  intros Ha (Hs & Hg & Hk1 & Hk2) inv'. subst inv'.
  destruct (dropItemOnGround_spec k a env inv) as (Hitems & _ & Hyes & Hno).
  unfold stacksWithin, groundAmounts, knownTypes. rewrite Hitems.
  destruct (isRunning env && isKnown k) eqn:E.
  - apply andb_true_iff in E as [Hr Hkn].
    apply isRunning_running in Hr. apply isKnown_known in Hkn.
    destruct (Hyes Hr Hkn) as (item & -> & Hty & Hamt).
    repeat split; try assumption.
    + apply Forall_app. split; [exact Hg |]. apply Forall_cons. split; [| constructor].
      exists a. now split.
    + apply Forall_app. split; [exact Hk2 |]. apply Forall_cons. split; [| constructor].
      now rewrite Hty.
  - rewrite Hno; [now repeat split |].
    intros [Hr Hkn]. apply isRunning_running in Hr. apply isKnown_known in Hkn.
    rewrite Hr, Hkn in E. discriminate.
Qed.

Lemma removeItem_invariant k a inv :
  0 <= a ->
  stacksWithin inv /\ groundAmounts inv /\ knownTypes inv ->
  let inv' := snd (removeItem k (Fin a) inv) in
  stacksWithin inv' /\ groundAmounts inv' /\ knownTypes inv'.
Proof.
  intros Ha (Hs & Hg & Hk1 & Hk2) inv'. subst inv'.
  destruct (orElse_number (Js.get k (items inv))) as [q Hq].
  pose proof (held_nonneg k inv Hs) as [Hq0 Hq99].
  rewrite (count_held k inv q Hq) in Hq0, Hq99.
  destruct (removeItem_cases k a inv q Hq)
    as [[_ ->] | (Hle & _ & _ & _ & _ & Hground & Hitems)];
    [now repeat split |].
  unfold stacksWithin, groundAmounts, knownTypes. rewrite Hground.
  repeat split; try assumption.
  - apply List.Forall_forall. intros kv Hin.
    destruct (Hitems kv Hin) as [Hold | [-> _]].
    + unfold stacksWithin in Hs. rewrite List.Forall_forall in Hs. now apply Hs.
    + exists (q - a). cbn [snd]. repeat split; lra.
  - apply List.Forall_forall. intros kv Hin.
    destruct (Hitems kv Hin) as [Hold | [-> Hnz]].
    + rewrite List.Forall_forall in Hk1. now apply Hk1.
    + cbn [fst]. destruct (Js.get k (items inv)) as [v |] eqn:Hget.
      * apply get_In in Hget. rewrite List.Forall_forall in Hk1.
        exact (Hk1 _ Hget).
      * cbn in Hq. injection Hq as <-. exfalso. apply Hnz. lra.
Qed.

Lemma inventory_step_invariant a inv :
  amountsNonnegative (fst a) ->
  stacksWithin inv /\ groundAmounts inv /\ knownTypes inv ->
  stacksWithin (step a inv) /\ groundAmounts (step a inv) /\ knownTypes (step a inv).
Proof.
  destruct a as [act env]. cbn [fst]. intros Hact Hinv. pose proof Hinv as (Hs & Hg & Hk).
  destruct act as [k amt | k amt | amt | slot | k amt x z | dt]; cbn [step].
  - (* addItem *)
    destruct amt as [a |]; [| contradiction]. cbn in Hact.
    unfold addItem, maxStackSize.
    destruct (Js.has k itemData) eqn:Hknown; [| exact Hinv]. cbn [negb].
    destruct (orElse_number (Js.get k (items inv))) as [q Hq].
    pose proof (held_nonneg k inv Hs) as [Hq0 Hq99].
    rewrite (count_held k inv q Hq) in Hq0, Hq99. rewrite Hq.
    cbn [Num.sub Num.leb Num.gtb Num.ltb Num.add]. unfold Qltb.
    destruct (Qle_bool (99 - q) 0) eqn:Efull; cbn [snd].
    + now apply dropItemOnGround_invariant.
    + apply not_true_iff_false in Efull. rewrite Qle_bool_iff in Efull.
      destruct (Qle_bool a (99 - q)) eqn:Efits; cbn [negb snd].
      * apply Qle_bool_iff in Efits. split; [| split; [exact Hg | split]].
        -- apply stacksWithin_set; [exact Hs | lra | lra].
        -- apply knownItems_set; [exact Hknown | apply Hk].
        -- apply Hk.
      * apply not_true_iff_false in Efits. rewrite Qle_bool_iff in Efits.
        apply dropItemOnGround_invariant; [lra |].
        split; [| split; [exact Hg | split]].
        -- apply stacksWithin_set; [exact Hs | lra | lra].
        -- apply knownItems_set; [exact Hknown | apply Hk].
        -- apply Hk.
  - (* removeItem *)
    destruct amt as [a |]; [| contradiction]. now apply removeItem_invariant.
  - (* dropSelectedItem *)
    unfold dropSelectedItem, getSelectedItem.
    destruct (items inv !! selectedSlot inv) as [[ty count] |] eqn:Hsel; [| exact Hinv].
    assert (Hin : In (ty, count) (items inv)).
    { apply list_elem_of_In. eapply list_elem_of_lookup_2. exact Hsel. }
    pose proof Hs as Hs0. unfold stacksWithin in Hs0. rewrite List.Forall_forall in Hs0.
    destruct (Hs0 _ Hin) as (c & Hc & Hc0 & _). cbn [snd] in Hc. subst count.
    assert (Hd : exists d, match amt with
                           | Some a => Js.min a (Fin c)
                           | None => Fin c
                           end = Fin d /\ 0 <= d).
    { destruct amt as [[a |] |]; cbn in Hact; try contradiction.
      - cbn [Js.min]. destruct (Qle_bool a c); eexists; split; try reflexivity; lra.
      - exists c. now split. }
    destruct Hd as (d & -> & Hd0).
    pose proof (removeItem_invariant ty d inv Hd0 Hinv) as Hrem.
    destruct (removeItem ty (Fin d) inv) as [removed inv1]. cbn [snd] in Hrem.
    destruct removed; [now apply dropItemOnGround_invariant | exact Hrem].
  - exact Hinv.
  - (* createGroundItem *)
    destruct amt as [a |]; [| contradiction]. cbn in Hact.
    destruct (createGroundItem_spec k a x z env inv) as (Hitems & _ & Hyes & Hno).
    destruct (isKnown k && world env) eqn:E.
    + apply andb_true_iff in E as [Hkn Hw]. apply isKnown_known in Hkn.
      unfold stacksWithin, groundAmounts, knownTypes.
      rewrite Hitems, (Hyes (conj Hkn Hw)). destruct Hk as [Hk1 Hk2].
      repeat split; try assumption.
      * apply Forall_app. split; [exact Hg |]. apply Forall_cons. split; [| constructor].
        exists a. now split.
      * apply Forall_app. split; [exact Hk2 |]. apply Forall_cons. split; [| constructor].
        exact Hkn.
    + rewrite Hno; [exact Hinv |]. intros [Hkn Hw]. apply isKnown_known in Hkn.
      rewrite Hkn, Hw in E. discriminate.
  - (* updateGroundItems *)
    unfold updateGroundItems. destruct (player env) as [p |]; [| exact Hinv].
    now apply updateGroundItemsFrom_invariant.
Qed.

Lemma inventory_run_invariant acts : forall inv,
  Forall (fun a : Action * Env => amountsNonnegative (fst a)) acts ->
  stacksWithin inv /\ groundAmounts inv /\ knownTypes inv ->
  stacksWithin (run acts inv) /\ groundAmounts (run acts inv) /\ knownTypes (run acts inv).
Proof.
  induction acts as [| a acts IH]; intros inv Hacts Hinv; cbn [run]; [exact Hinv |].
  apply Forall_cons in Hacts as [Ha Hacts]. apply IH; [exact Hacts |].
  now apply inventory_step_invariant.
Qed.

Lemma inventory_empty_invariant :
  stacksWithin empty /\ groundAmounts empty /\ knownTypes empty.
Proof. repeat split; constructor. Qed.

(** X19.  Starting from the empty inventory, whatever is added, removed, dropped,
    created on the ground and picked up, in amounts that are numbers and not
    negative: every stack holds between 0 and 99, every amount on the ground
    is a number that is not negative, and every stack and every item on the
    ground is of an item type for which [itemData] holds something, as its
    own key or under a name it inherits. *)
Theorem stacks_within_bounds (acts : list (Action * Env)) :
  Forall (fun a : Action * Env => amountsNonnegative (fst a)) acts ->
  let inv := run acts empty in
  (forall k, 0 <= held k inv /\ held k inv <= 99)
  /\ groundAmounts inv
  /\ knownTypes inv.
Proof.
  intros Hacts inv.
  destruct (inventory_run_invariant acts empty Hacts inventory_empty_invariant)
    as (Hs & Hg & Hk).
  split; [intros k; now apply held_nonneg | now split].
Qed.

(** X21.  Dropping from the selected slot loses nothing.  From the empty
    inventory, after any operations with amounts that are not negative, and
    with the game running: [dropSelectedItem] (of an amount, or of all)
    leaves, for every item type, stack and ground together as they were;
    other stacks are not touched, the stack of the selected type does not
    grow, and with no item in the selected slot nothing happens. *)
Theorem dropSelectedItem_conserves
    (acts : list (Action * Env)) (amount : option number) (env : Env) :
  Forall (fun a : Action * Env => amountsNonnegative (fst a)) acts ->
  amountsNonnegative (DropSelected amount) ->
  running env ->
  let inv := run acts empty in
  let inv' := dropSelectedItem amount env inv in
  (forall k, total k inv' == total k inv)
  /\ (getSelectedItem inv = None -> inv' = inv)
  /\ (forall ty count, getSelectedItem inv = Some (ty, count) ->
        held ty inv' <= held ty inv
        /\ forall k, k <> ty -> held k inv' = held k inv /\ onGround k inv' == onGround k inv).
Proof.
  intros Hacts Hact Hrun inv inv'.
  destruct (inventory_run_invariant acts empty Hacts inventory_empty_invariant)
    as (Hs & Hg & Hk1 & Hk2).
  fold inv in Hs, Hg, Hk1, Hk2. subst inv'. unfold dropSelectedItem.
  destruct (getSelectedItem inv) as [[ty count] |] eqn:Hsel;
    [| repeat split; try reflexivity; discriminate].
  assert (Hin : In (ty, count) (items inv)).
  { apply list_elem_of_In. eapply list_elem_of_lookup_2. exact Hsel. }
  pose proof Hs as Hs0. unfold stacksWithin in Hs0. rewrite List.Forall_forall in Hs0.
  destruct (Hs0 _ Hin) as (c & Hc & Hc0 & _). cbn [snd] in Hc. subst count.
  assert (Hknown : Js.has ty itemData = true).
  { rewrite List.Forall_forall in Hk1. exact (Hk1 _ Hin). }
  assert (Hd : exists d, match amount with
                         | Some a => Js.min a (Fin c)
                         | None => Fin c
                         end = Fin d /\ 0 <= d).
  { destruct amount as [[a |] |]; cbn in Hact; try contradiction.
    - cbn [Js.min]. destruct (Qle_bool a c); eexists; split; try reflexivity; lra.
    - exists c. now split. }
  destruct Hd as (d & -> & Hd0).
  destruct (orElse_number (Js.get ty (items inv))) as [q Hq].
  pose proof (count_held ty inv q Hq) as Hheld.
  assert (Hhq : held ty inv == q) by now rewrite Hheld.
  destruct (removeItem_cases ty d inv q Hq)
    as [[_ ->] | (Hle & Hok & Hheld' & _ & Hothers & Hground & _)].
  - split; [reflexivity |]. split; [discriminate |].
    intros ty' count' [= <- <-]. split; [lra |]. intros k _. split; reflexivity.
  - destruct (removeItem ty (Fin d) inv) as [removed inv1]. cbn [fst snd] in *.
    subst removed.
    assert (Hdropped : amountDropped ty d env = d).
    { unfold amountDropped.
      now rewrite (proj2 (isRunning_running env) Hrun), (proj2 (isKnown_known ty) Hknown). }
    split; [| split; [discriminate |]].
    + intros k. unfold total.
      rewrite held_dropItemOnGround, onGround_dropItemOnGround, Hdropped.
      unfold onGround at 1. rewrite Hground. fold (onGround k inv).
      destruct (String.eqb k ty) eqn:E.
      * apply String.eqb_eq in E. subst k. rewrite Hheld'. lra.
      * apply String.eqb_neq in E. rewrite (held_items k inv inv1 (Hothers k E)). ring.
    + intros ty' count' [= <- <-]. split.
      * rewrite held_dropItemOnGround, Hheld'. lra.
      * intros k Hne. split.
        -- rewrite held_dropItemOnGround. apply held_items. now apply Hothers.
        -- rewrite onGround_dropItemOnGround. apply String.eqb_neq in Hne.
           rewrite Hne. unfold onGround. rewrite Hground. ring.
Qed.

End InventoryStacks.


(** * The player and the running game *)

Section PlayerHealth.

Import Player.
Context `{Runtime}.

(** A hit changes the health and the queue of callbacks only. *)
Lemma takeDamage_frame damage p :
  position (fst (takeDamage damage p)) = position p
  /\ lastAttackTime (fst (takeDamage damage p)) = lastAttackTime p
  /\ lastGatherTime (fst (takeDamage damage p)) = lastGatherTime p
  /\ nearestResource (fst (takeDamage damage p)) = nearestResource p
  /\ maxHealth (fst (takeDamage damage p)) = maxHealth p
  /\ randomCalls (fst (takeDamage damage p)) = randomCalls p.
Proof. unfold takeDamage. destruct (Num.leb _ _); cbn; repeat split. Qed.

(** One hit: the health that is left, whether it ended in [die()], and
    what else it changes, which is the queue of callbacks when it did. *)
Lemma takeDamage_health d p h :
  health p = Fin h ->
  let left := if Qltb (h - d) 0 then 0 else h - d in
  health (fst (takeDamage (Fin d) p)) = Fin left
  /\ snd (takeDamage (Fin d) p) = Qle_bool left 0
  /\ timers (fst (takeDamage (Fin d) p))
     = timers p ++ (if Qle_bool left 0 then [(respawnDelay, Respawn)] else [])
  /\ position (fst (takeDamage (Fin d) p)) = position p
  /\ maxHealth (fst (takeDamage (Fin d) p)) = maxHealth p
  /\ randomCalls (fst (takeDamage (Fin d) p)) = randomCalls p.
Proof.
  intros Hh left. subst left. unfold takeDamage. rewrite Hh. cbn [Num.sub Num.ltb].
  destruct (Qltb (h - d) 0); cbn [Num.leb];
    match goal with |- context [Qle_bool ?x 0] => destruct (Qle_bool x 0) end;
    cbn; repeat split; try reflexivity; now rewrite app_nil_r.
Qed.

Lemma takeDamages_health ds : forall p h,
  health p = Fin h -> 0 <= h -> Forall (fun d => 0 <= d) ds ->
  exists h',
    health (takeDamages (map Fin ds) p) = Fin h'
    /\ 0 <= h'
    /\ (sumOf ds <= h -> h' == h - sumOf ds)
    /\ (h <= sumOf ds -> h' == 0).
Proof.
  induction ds as [| d ds IH]; intros p h Hh Hpos Hds; cbn [map takeDamages sumOf].
  - exists h. repeat split; try assumption; intros; lra.
  - apply Forall_cons in Hds as [Hd Hds].
    assert (Hsum : 0 <= sumOf ds).
    { clear -Hds. induction Hds as [| x l Hx _ IHl]; cbn [sumOf]; lra. }
    destruct (takeDamage_health d p h Hh) as [Hh1 _].
    destruct (Qltb (h - d) 0) eqn:E.
    + apply Qltb_lt in E.
      destruct (IH _ 0 Hh1 ltac:(lra) Hds) as (h' & Hh' & Hpos' & Hhi & Hlo).
      exists h'. split; [exact Hh' |]. split; [exact Hpos' |].
      split; intros Hle; [lra | apply Hlo; lra].
    + apply not_true_iff_false in E. rewrite Qltb_lt in E.
      destruct (IH _ (h - d) Hh1 ltac:(lra) Hds) as (h' & Hh' & Hpos' & Hhi & Hlo).
      exists h'. split; [exact Hh' |]. split; [exact Hpos' |].
      split; intros Hle; [rewrite Hhi by lra; ring | apply Hlo; lra].
Qed.

(** What a callback of the player leaves of the health. *)
Lemma runCallback_health cb p :
  health (runCallback cb p) = match cb with
                              | Respawn => maxHealth p
                              | Spawn => health p
                              end
  /\ maxHealth (runCallback cb p) = maxHealth p
  /\ timers (runCallback cb p) = timers p.
Proof.
  unfold runCallback. destruct cb;
    match goal with |- context [findSpawnPosition ?n] =>
      destruct (findSpawnPosition n) as [pos n']
    end; cbn; repeat split.
Qed.

(** Time that passes changes the place and the health of the player, and
    its queue of callbacks, and nothing else of it. *)
Lemma runCallback_frame cb p :
  lastAttackTime (runCallback cb p) = lastAttackTime p
  /\ lastGatherTime (runCallback cb p) = lastGatherTime p
  /\ nearestResource (runCallback cb p) = nearestResource p
  /\ maxHealth (runCallback cb p) = maxHealth p.
Proof.
  unfold runCallback. destruct cb;
    match goal with |- context [findSpawnPosition ?n] =>
      destruct (findSpawnPosition n) as [pos n']
    end; cbn; repeat split.
Qed.

Lemma runCallbacks_frame (due : list (Z * Callback)) : forall q,
  let q' := fold_left (fun q tc => runCallback (snd tc) q) due q in
  lastAttackTime q' = lastAttackTime q
  /\ lastGatherTime q' = lastGatherTime q
  /\ nearestResource q' = nearestResource q
  /\ maxHealth q' = maxHealth q.
Proof.
  induction due as [| tc due IH]; intros q; cbn [fold_left]; [repeat split |].
  destruct (IH (runCallback (snd tc) q)) as (E1 & E2 & E3 & E4).
  destruct (runCallback_frame (snd tc) q) as (F1 & F2 & F3 & F4).
  cbv zeta. rewrite E1, E2, E3, E4. now repeat split.
Qed.

Lemma advance_frame dt p :
  lastAttackTime (advance dt p) = lastAttackTime p
  /\ lastGatherTime (advance dt p) = lastGatherTime p
  /\ nearestResource (advance dt p) = nearestResource p
  /\ maxHealth (advance dt p) = maxHealth p.
Proof.
  unfold advance. cbv zeta.
  match goal with |- context [fold_left _ ?due ?q] =>
    destruct (runCallbacks_frame due q) as (E1 & E2 & E3 & E4)
  end.
  cbv zeta in E1, E2, E3, E4. rewrite E1, E2, E3, E4. repeat split.
Qed.

(** One pending respawn, and time passing. *)
Lemma advance_one_respawn dt left p :
  timers p = [(left, Respawn)] ->
  ((Z.of_N dt < left)%Z ->
   health (advance dt p) = health p
   /\ position (advance dt p) = position p
   /\ timers (advance dt p) = [((left - Z.of_N dt)%Z, Respawn)])
  /\ ((left <= Z.of_N dt)%Z ->
      health (advance dt p) = maxHealth p /\ timers (advance dt p) = []).
Proof.
  intros Ht. unfold advance. rewrite Ht. cbn [map List.filter fst snd]. split; intros Hdt.
  - assert (E1 : (left - Z.of_N dt <=? 0)%Z = false) by (apply Z.leb_gt; lia).
    assert (E2 : (0 <? left - Z.of_N dt)%Z = true) by (apply Z.ltb_lt; lia).
    rewrite E1, E2. cbn. repeat split.
  - assert (E1 : (left - Z.of_N dt <=? 0)%Z = true) by (apply Z.leb_le; lia).
    assert (E2 : (0 <? left - Z.of_N dt)%Z = false) by (apply Z.ltb_ge; lia).
    rewrite E1, E2. cbn [fold_left snd].
    destruct (runCallback_health Respawn (setTimers [] p)) as (-> & _ & ->).
    split; reflexivity.
Qed.

(** X22.  The player's health under damage.  Hits that follow one another,
    with no callback of the player running in between, and whose damages
    are not negative, leave the health that was there less their sum, and 0
    when the sum is larger: the health never goes below 0 and does not rise.
    A hit ends in [die()] exactly when it leaves no health, which includes
    every hit on a player whose health is 0 already, and [die()] sets one
    more callback, 3000 ms ahead.  When that is the only callback pending,
    the health stays at 0 while less than 3000 ms pass, and is the maximal
    health again once 3000 ms have passed. *)
Theorem player_health_under_damage (ds : list Q) (p : t) (h : Q) :
  health p = Fin h ->
  0 <= h ->
  Forall (fun d => 0 <= d) ds ->
  (exists h',
      health (takeDamages (map Fin ds) p) = Fin h'
      /\ (sumOf ds <= h -> h' == h - sumOf ds)
      /\ (h <= sumOf ds -> h' == 0))
  /\ forall d, 0 <= d ->
       let hit := takeDamage (Fin d) p in
       (snd hit = true <-> h <= d)
       /\ timers (fst hit)
          = timers p ++ (if snd hit then [(respawnDelay, Respawn)] else [])
       /\ (h <= d -> timers p = [] ->
           forall dt : N,
             ((Z.of_N dt < respawnDelay)%Z ->
              exists z, health (advance dt (fst hit)) = Fin z /\ z == 0)
             /\ ((respawnDelay <= Z.of_N dt)%Z ->
                 health (advance dt (fst hit)) = maxHealth p
                 /\ timers (advance dt (fst hit)) = [])).
Proof.
  intros Hh Hpos Hds. split.
  - destruct (takeDamages_health ds p h Hh Hpos Hds) as (h' & Hh' & _ & Hhi & Hlo).
    now exists h'.
  - intros d Hd hit. subst hit.
    destruct (takeDamage_health d p h Hh) as (Hleft & Hdied & Htimers & _ & Hmax & _).
    cbv zeta in Hleft, Hdied, Htimers.
    assert (Hiff : snd (takeDamage (Fin d) p) = true <-> h <= d).
    { rewrite Hdied, Qle_bool_iff. destruct (Qltb (h - d) 0) eqn:E.
      - apply Qltb_lt in E. split; intros; lra.
      - apply not_true_iff_false in E. rewrite Qltb_lt in E. split; intros; lra. }
    split; [exact Hiff |]. split; [now rewrite Hdied |].
    intros Hle Hnone dt.
    assert (Hone : timers (fst (takeDamage (Fin d) p)) = [(respawnDelay, Respawn)]).
    { rewrite Htimers, Hnone, <- Hdied, (proj2 Hiff Hle). reflexivity. }
    destruct (advance_one_respawn dt respawnDelay _ Hone) as [Hbefore Hafter].
    split; intros Hdt.
    + destruct (Hbefore Hdt) as (-> & _). rewrite Hleft. eexists. split; [reflexivity |].
      destruct (Qltb (h - d) 0) eqn:E; [reflexivity |].
      apply not_true_iff_false in E. rewrite Qltb_lt in E. lra.
    + destruct (Hafter Hdt) as (-> & ->). now rewrite Hmax.
Qed.

End PlayerHealth.

Section Gathering.

Import Game.
Context `{Runtime}.

(** *** Tools *)

(** The multipliers of [getGatheringBonuses] are numbers: the amount
    multiplier between 1 and 2, the speed multiplier between 1 and 2.5. *)
Lemma getGatheringBonuses_range resourceType inv :
  exists a s,
    Player.amountMultiplier (Player.getGatheringBonuses resourceType inv) = Fin a
    /\ Player.speedMultiplier (Player.getGatheringBonuses resourceType inv) = Fin s
    /\ 1 <= a /\ a <= 2 /\ 1 <= s /\ s <= 25 # 10.
Proof.
  unfold Player.getGatheringBonuses, Inventory.getSelectedTool.
  destruct (Inventory.getSelectedItem inv) as [[ty count] |];
    [| exists 1, 1; cbn; repeat split; lra].
  destruct (Js.get ty Inventory.itemData) as [data |] eqn:Hdata;
    [| exists 1, 1; cbn; repeat split; lra].
  apply get_In in Hdata. unfold Inventory.itemData in Hdata. cbn [In] in Hdata.
  repeat (destruct Hdata as [[= <- <-] | Hdata];
          [cbn [Inventory.type Inventory.gatherBonus Js.get];
           try (exists 1, 1; cbn; repeat split; lra);
           try (destruct (String.eqb resourceType _);
                cbn; eexists _, _; repeat split; lra) |]).
  destruct Hdata.
Qed.

Lemma getResourceDrop_known ty drop :
  ResourceSystem.getResourceDrop ty = Some drop ->
  is_Some (Js.get (ResourceSystem.dropType drop) Inventory.itemData)
  /\ exists b, ResourceSystem.amount drop = Fin b /\ 1 <= b /\ b <= 2.
Proof.
  unfold ResourceSystem.getResourceDrop.
  repeat destruct (String.eqb ty _); intros [= <-]; cbn;
    (split; [now eexists | eexists; split; [reflexivity | split; vm_compute; discriminate]]).
Qed.

(** *** Gathering *)

Lemma setResourceSystem_same g : setResourceSystem (resourceSystem g) g = g.
Proof. now destruct g. Qed.

Lemma floor_at_least_one x : 1 <= x -> 1 <= inject_Z (Qfloor x).
Proof.
  intros Hx. apply Qfloor_resp_le in Hx.
  change (Qfloor 1) with 1%Z in Hx.
  change 1 with (inject_Z 1). now rewrite <- Zle_Qle.
Qed.

(** X23.  A gather of the player goes to the inventory.  With a node in
    [nearestResource]: nothing happens while the cooldown (500 ms divided by
    the speed multiplier of the selected tool) has not passed, or when the
    node is depleted.  Otherwise the node loses the damage of a gather, and
    what [gatherResource] returns, at least 1 of the node's resource, is
    added to the inventory in full: stack and ground together gain exactly
    that amount, nothing else changes in the inventory, and
    [lastGatherTime] becomes the time of the call. *)
Theorem gathered_goes_to_inventory
    (now : number) (g : t) (i : nat) (node : ResourceSystem.ResourceNode) :
  Player.nearestResource (player g) = Some i ->
  ResourceSystem.resourceNodes (resourceSystem g) !! i = Some node ->
  let bonuses :=
    Player.getGatheringBonuses (ResourceSystem.type node) (inventory g) in
  let m := Player.amountMultiplier bonuses in
  let cooldown := Js.div Player.gatherCooldown (Player.speedMultiplier bonuses) in
  let tooSoon := Num.lt (Num.sub now (Player.lastGatherTime (player g))) cooldown in
  let g' := attemptGather now g in
  (tooSoon \/ ResourceSystem.canGather node = false -> g' = g)
  /\ (~ tooSoon -> ResourceSystem.canGather node = true ->
      (exists node',
          ResourceSystem.resourceNodes (resourceSystem g') !! i = Some node'
          /\ ResourceSystem.health node' =
               (ResourceSystem.health node - ResourceSystem.damageDealt m)%Z)
      /\ creatureSystem g' = creatureSystem g
      /\ match ResourceSystem.getResourceDrop (ResourceSystem.type node) with
         | Some drop =>
             Player.lastGatherTime (player g') = now
             /\ exists n,
                  Num.floor (Num.mul (ResourceSystem.amount drop) m) = Fin n
                  /\ 1 <= n
                  /\ forall k,
                       Inventory.total k (inventory g') ==
                         Inventory.total k (inventory g)
                         + (if String.eqb k (ResourceSystem.dropType drop) then n else 0)
         | None => player g' = player g /\ inventory g' = inventory g
         end).
Proof.
  intros Hnearest Hnode bonuses m cooldown tooSoon g'.
  subst g'. unfold attemptGather. rewrite Hnearest, Hnode. fold bonuses m cooldown.
  destruct (Num.ltb (Num.sub now (Player.lastGatherTime (player g))) cooldown) eqn:Hsoon.
  - apply ltb_lt in Hsoon. split; [reflexivity |]. intros Hno. contradiction.
  - apply not_true_iff_false in Hsoon. rewrite ltb_lt in Hsoon. fold tooSoon in Hsoon.
    split.
    + intros [Hyes | Hdepleted]; [contradiction |].
      rewrite (gatherResource_depleted i m _ node Hnode Hdepleted).
      apply setResourceSystem_same.
    + intros _ Hgatherable.
      destruct (gatherResource_gatherable i m _ node Hnode Hgatherable) as [Hnode' Hdrop].
      destruct (ResourceSystem.gatherResource i m (resourceSystem g)) as [rs resource].
      cbn [fst snd] in Hnode', Hdrop. subst resource.
      destruct (ResourceSystem.getResourceDrop (ResourceSystem.type node))
        as [drop |] eqn:Hbase; cbn [resourceSystem creatureSystem player inventory
                                      setResourceSystem].
      * split; [eexists; split; [exact Hnode' | reflexivity] |].
        split; [reflexivity |]. split; [reflexivity |].
        destruct (getResourceDrop_known _ _ Hbase) as (Hknown & b & Hb & Hb1 & _).
        destruct (getGatheringBonuses_range (ResourceSystem.type node) (inventory g))
          as (a & s & Ha & _ & Ha1 & _).
        fold bonuses in Ha. fold m in Ha. rewrite Hb, Ha. cbn [Num.mul Num.floor].
        eexists. split; [reflexivity |].
        split; [apply floor_at_least_one; nra |].
        cbn [ResourceSystem.dropType ResourceSystem.amount].
        destruct (addItem_cases (ResourceSystem.dropType drop)
                    (inject_Z (Qfloor (b * a))) (inventoryEnv now g) (inventory g))
          as (_ & Hadd).
        destruct (Hadd (known_has _ _ Hknown)) as (_ & _ & _ & _ & Hsame & _ & Hothers).
        intros k. destruct (String.eqb k (ResourceSystem.dropType drop)) eqn:E.
        -- apply String.eqb_eq in E. subst k. apply Hsame.
           split; [now eexists | reflexivity].
        -- apply String.eqb_neq in E. rewrite (Hothers k E). ring.
      * split; [eexists; split; [exact Hnode' | reflexivity] |].
        repeat split.
Qed.

End Gathering.

Section Combat.

Import CreatureSystem Game.
Context `{Runtime}.

(** *** What the creature system's calls do to the game *)

Lemma newEvents_app (cs cs' : CreatureSystem.t) new :
  trace (effects cs') = new ++ trace (effects cs) ->
  newEvents cs cs' = map snd (rev new).
Proof.
  intros Htr. unfold newEvents. rewrite Htr, length_app, Nat.add_sub.
  now rewrite take_app_length.
Qed.

Lemma deliver_frame now g ev :
  resourceSystem (deliver now g ev) = resourceSystem g
  /\ creatureSystem (deliver now g ev) = creatureSystem g
  /\ Inventory.items (inventory (deliver now g ev)) = Inventory.items (inventory g)
  /\ Inventory.selectedSlot (inventory (deliver now g ev))
     = Inventory.selectedSlot (inventory g)
  /\ Player.position (player (deliver now g ev)) = Player.position (player g)
  /\ Player.lastAttackTime (player (deliver now g ev)) = Player.lastAttackTime (player g)
  /\ Player.lastGatherTime (player (deliver now g ev)) = Player.lastGatherTime (player g)
  /\ Player.nearestResource (player (deliver now g ev))
     = Player.nearestResource (player g).
Proof.
  destruct ev; cbn [deliver]; try (repeat split; reflexivity).
  - cbn [resourceSystem creatureSystem inventory player setInventory].
    destruct (createGroundItem_frame itemType amount x z (inventoryEnv now g)
                (inventory g)) as (Hi & Hs & _).
    repeat split; assumption.
  - destruct (takeDamage_frame damage (player g)) as (Hpos & Hla & Hlg & Hn & _).
    destruct (Player.takeDamage damage (player g)) as [p died]. cbn [fst] in *.
    repeat split; assumption.
Qed.

Lemma deliverAll_frame now evs : forall g,
  resourceSystem (deliverAll now evs g) = resourceSystem g
  /\ creatureSystem (deliverAll now evs g) = creatureSystem g
  /\ Inventory.items (inventory (deliverAll now evs g)) = Inventory.items (inventory g)
  /\ Inventory.selectedSlot (inventory (deliverAll now evs g))
     = Inventory.selectedSlot (inventory g)
  /\ Player.position (player (deliverAll now evs g)) = Player.position (player g)
  /\ Player.lastAttackTime (player (deliverAll now evs g))
     = Player.lastAttackTime (player g)
  /\ Player.lastGatherTime (player (deliverAll now evs g))
     = Player.lastGatherTime (player g)
  /\ Player.nearestResource (player (deliverAll now evs g))
     = Player.nearestResource (player g).
Proof.
  unfold deliverAll.
  induction evs as [| ev evs IH]; intros g; cbn [fold_left]; [repeat split |].
  destruct (IH (deliver now g ev)) as (-> & -> & -> & -> & -> & -> & -> & ->).
  apply deliver_frame.
Qed.

(** Calls that are not [takeDamage] leave the player alone. *)
Lemma deliverAll_player now evs : forall g,
  Forall (fun ev => match ev with PlayerTakeDamage _ => False | _ => True end) evs ->
  player (deliverAll now evs g) = player g /\ deaths (deliverAll now evs g) = deaths g.
Proof.
  unfold deliverAll.
  induction evs as [| ev evs IH]; intros g Hevs; cbn [fold_left]; [now split |].
  apply Forall_cons in Hevs as [Hev Hevs].
  destruct (IH (deliver now g ev) Hevs) as [-> ->].
  destruct ev; cbn [deliver]; try (split; reflexivity). contradiction.
Qed.

(** Calls that are not [createGroundItem] leave the inventory alone. *)
Lemma deliverAll_inventory now evs : forall g,
  Forall (fun ev => match ev with CreateGroundItem _ _ _ _ => False | _ => True end) evs ->
  inventory (deliverAll now evs g) = inventory g.
Proof.
  unfold deliverAll.
  induction evs as [| ev evs IH]; intros g Hevs; cbn [fold_left]; [reflexivity |].
  apply Forall_cons in Hevs as [Hev Hevs].
  rewrite (IH (deliver now g ev) Hevs).
  destruct ev; cbn [deliver]; try reflexivity; try contradiction.
  now destruct (Player.takeDamage damage (player g)).
Qed.

(** *** The calls a hit makes *)

Lemma hitTimes_app l1 l2 : hitTimes (l1 ++ l2) = hitTimes l1 ++ hitTimes l2.
Proof.
  induction l1 as [| [tm ev] l1 IH]; cbn [app hitTimes]; [reflexivity |].
  destruct ev; cbn; now rewrite ?IH.
Qed.

Lemma droppedItems_In ty a items :
  In (ty, a) (CreatureLife.droppedItems items) ->
  exists tm x z, In (tm, CreateGroundItem ty a x z) items.
Proof.
  induction items as [| [tm ev] items IH]; cbn [CreatureLife.droppedItems]; [easy |].
  destruct ev; try (intros Hin; destruct (IH Hin) as (tm' & x' & z' & Hin');
                    exists tm', x', z'; now right).
  intros [[= <- <-] | Hin].
  - exists tm, x, z. now left.
  - destruct (IH Hin) as (tm' & x' & z' & Hin'). exists tm', x', z'. now right.
Qed.

(** What a hit on a live creature adds to the trace: the damage line, then,
    if the hit kills, the death line and the loot, which lies where the
    creature died. *)
Lemma damageCreature_events c damage attacker env e :
  isDead c = false ->
  let r := damageCreature c damage attacker env e in
  exists loot,
    trace (snd r)
    = loot ++ (now env, TookDamage (id c) damage (Num.sub (health c) damage)) :: trace e
    /\ Forall (fun te : number * Event =>
                 match snd te with
                 | CreateGroundItem _ _ x z =>
                     x = vx (position c) /\ z = vz (position c)
                 | Died _ => True
                 | _ => False
                 end) loot
    /\ (isDead (fst r) = false -> loot = [])
    /\ (isDead (fst r) = true -> randomInUnitInterval -> inventoryPresent env = true ->
        forall d, In d (Species.dropItems (speciesData c)) ->
                  Num.le (Fin 1) (Species.chance d) ->
                  In (now env,
                      CreateGroundItem (Species.itemType d) (Species.itemAmount d)
                                       (vx (position c)) (vz (position c))) loot).
Proof.
  intros Hlive r. subst r. unfold damageCreature. rewrite Hlive. cbv zeta.
  destruct (reactToDamage_frame attacker (setHealth (Num.sub (health c) damage) c))
    as (Hid & Hsp & Hh & Hd & Hp & _).
  cbn [id speciesData health isDead position setHealth] in Hid, Hsp, Hh, Hd, Hp.
  set (c2 := reactToDamage attacker (setHealth (Num.sub (health c) damage) c)) in *.
  rewrite Hh. cbn [id health setHealth].
  destruct (Num.leb (Num.sub (health c) damage) (Fin 0)) eqn:Hkill.
  - cbn [killCreature fst snd isDead setHealth setIsDead]. unfold dropLoot.
    cbn [speciesData setHealth setIsDead id]. rewrite Hsp, Hid.
    destruct (dropLootFrom_spec (Species.dropItems (speciesData c))
                (setHealth (Fin 0) (setIsDead true c2)) env
                (emit env (Died (id c))
                      (emit env (TookDamage (id c) damage (Num.sub (health c) damage)) e)))
      as (items & Htr & _ & _ & _ & _ & Hall & Hsure).
    exists (items ++ [(now env, Died (id c))]).
    rewrite Htr. cbn [emit trace]. split; [now rewrite <- app_assoc |].
    cbn [position setHealth setIsDead] in Hall. rewrite Hp in Hall.
    split; [| split; [discriminate |]].
    + apply Forall_app. split; [| repeat constructor].
      eapply Forall_impl; [exact Hall |].
      intros te (ty & a & ->). cbn. now split.
    + intros _ Hrand Hinv d Hin Hchance. apply in_app_iff. left.
      specialize (Hsure Hrand Hinv d Hin Hchance).
      apply droppedItems_In in Hsure as (tm & x & z & Hte).
      rewrite List.Forall_forall in Hall.
      destruct (Hall _ Hte) as (ty & a & Heq).
      injection Heq as -> _ _ -> ->. exact Hte.
  - cbn [fst snd emit trace]. exists []. cbn [app]. split; [reflexivity |].
    split; [constructor |]. split; [reflexivity |].
    intros Hdead. congruence.
Qed.

(** *** Ground items made for the creature system *)

Lemma deliver_ground now g ev item :
  In item (Inventory.groundItems (inventory g)) ->
  In item (Inventory.groundItems (inventory (deliver now g ev))).
Proof.
  intros Hin. destruct ev; cbn [deliver]; try exact Hin.
  - cbn [inventory setInventory].
    destruct (createGroundItem_frame itemType amount x z (inventoryEnv now g)
                (inventory g)) as (_ & _ & (new & ->) & _).
    apply in_app_iff. now left.
  - now destruct (Player.takeDamage damage (player g)).
Qed.

Lemma deliverAll_ground now evs : forall g item,
  In item (Inventory.groundItems (inventory g)) ->
  In item (Inventory.groundItems (inventory (deliverAll now evs g))).
Proof.
  unfold deliverAll.
  induction evs as [| ev evs IH]; intros g item Hin; cbn [fold_left]; [exact Hin |].
  apply IH. now apply deliver_ground.
Qed.

(** Every ground item that the creature system asks for, of a defined item
    type, is on the ground afterwards, half a unit above the terrain. *)
Lemma deliverAll_creates now evs : forall g ty a x z,
  In (CreateGroundItem ty a x z) evs ->
  is_Some (Js.get ty Inventory.itemData) ->
  exists item,
    In item (Inventory.groundItems (inventory (deliverAll now evs g)))
    /\ Inventory.itemType item = ty
    /\ Inventory.amount item = a
    /\ Inventory.position item = mkVector3 x (Num.add (getHeightAt x z) (Fin 0.5)) z.
Proof.
  induction evs as [| ev evs IH]; intros g ty a x z Hin Hknown; [destruct Hin |].
  destruct Hin as [-> | Hin].
  - change (deliverAll now (CreateGroundItem ty a x z :: evs) g)
      with (deliverAll now evs (deliver now g (CreateGroundItem ty a x z))).
    cbn [deliver].
    destruct (createGroundItem_frame ty a x z (inventoryEnv now g) (inventory g))
      as (_ & _ & _ & Hnew).
    specialize (Hnew (known_has _ _ Hknown) eq_refl).
    eexists. split.
    + apply deliverAll_ground. cbn [inventory setInventory]. rewrite Hnew.
      apply in_app_iff. right. now left.
    + repeat split.
  - change (deliverAll now (ev :: evs) g) with (deliverAll now evs (deliver now g ev)).
    now apply IH.
Qed.

(** *** The player's attack *)

Lemma closest_target pos maxDistance s i :
  getClosestCreature pos maxDistance s = Some i ->
  exists c,
    creatures s !! i = Some c
    /\ isDead c = false
    /\ Num.lt (distanceTo pos (position c)) maxDistance
    /\ forall j c', creatures s !! j = Some c' -> isDead c' = false ->
         ~ Num.lt (distanceTo pos (position c')) (distanceTo pos (position c)).
Proof.
  unfold getClosestCreature. intros Hsome.
  destruct (closestFrom_spec isDead position pos (creatures s) 0 None maxDistance)
    as [[Hr _] | (k & c & Hr & Hk & Hlive & Hltk & Hmin)]; rewrite Hr in Hsome;
    [discriminate |].
  injection Hsome as <-. cbn [Nat.add]. exists c. repeat split; try assumption.
  - now apply ltb_lt.
  - intros j c' Hj Hlive' Hlt. apply ltb_lt in Hlt.
    rewrite (Hmin j c' Hj Hlive') in Hlt. discriminate.
Qed.

Lemma hitDamage_values inv :
  exists d,
    Player.hitDamage inv = Fin d
    /\ (d == 10 \/ d == 15 \/ d == 12)
    /\ d == match Inventory.getSelectedTool inv with
            | Some data =>
                match Inventory.toolType data with
                | Some Inventory.axe => 15
                | Some Inventory.pickaxe => 12
                | _ => 10
                end
            | None => 10
            end.
Proof.
  unfold Player.hitDamage, Player.attackDamage.
  destruct (Inventory.getSelectedTool inv) as [data |];
    [| exists 10; split; [reflexivity | split; [left |]; reflexivity]].
  destruct (Inventory.toolType data) as [[| |] |]; cbn [Num.mul]; eexists;
    (split; [reflexivity |]).
  - split; [right; right |]; reflexivity.
  - split; [right; left |]; reflexivity.
  - split; [left |]; reflexivity.
  - split; [left |]; reflexivity.
Qed.

(** What [attemptAttack] leaves when it hits the creature at index [i]. *)
Lemma attemptAttack_hit now g i c :
  Num.ltb (Num.sub now (Player.lastAttackTime (player g))) Player.attackCooldown = false ->
  getClosestCreature (Player.position (player g)) Player.attackRange (creatureSystem g)
    = Some i ->
  creatures (creatureSystem g) !! i = Some c ->
  isDead c = false ->
  let r := damageCreature c (Player.hitDamage (inventory g)) (Some thePlayer)
                          (creatureEnv now g) (effects (creatureSystem g)) in
  exists loot,
    trace (snd r)
    = loot ++ (now, TookDamage (id c) (Player.hitDamage (inventory g))
                               (Num.sub (health c) (Player.hitDamage (inventory g))))
           :: trace (effects (creatureSystem g))
    /\ attemptAttack now g =
         deliverAll now
           (TookDamage (id c) (Player.hitDamage (inventory g))
                       (Num.sub (health c) (Player.hitDamage (inventory g)))
            :: map snd (rev loot))
           (mkGame (Player.setLastAttackTime now (player g)) (resourceSystem g)
                   (inventory g)
                   (mkSystem (<[i := fst r]> (creatures (creatureSystem g))) (snd r))
                   (deaths g))
    /\ Forall (fun te : number * Event =>
                 match snd te with
                 | CreateGroundItem _ _ x z =>
                     x = vx (position c) /\ z = vz (position c)
                 | Died _ => True
                 | _ => False
                 end) loot
    /\ (isDead (fst r) = false -> loot = [])
    /\ (isDead (fst r) = true -> randomInUnitInterval ->
        forall d, In d (Species.dropItems (speciesData c)) ->
                  Num.le (Fin 1) (Species.chance d) ->
                  In (now,
                      CreateGroundItem (Species.itemType d) (Species.itemAmount d)
                                       (vx (position c)) (vz (position c))) loot).
Proof.
  intros Hcool Htarget Hc Hlive r.
  destruct (damageCreature_events c (Player.hitDamage (inventory g)) (Some thePlayer)
              (creatureEnv now g) (effects (creatureSystem g)) Hlive)
    as (loot & Htr & Hall & Hnone & Hsure).
  fold r in Htr, Hnone, Hsure. cbn [CreatureSystem.now creatureEnv] in Htr, Hsure.
  exists loot. split; [exact Htr |]. split; [| split; [exact Hall | split; [exact Hnone |]]].
  - unfold attemptAttack. rewrite Hcool, Htarget.
    assert (Hcs : damageCreatureAt i (Player.hitDamage (inventory g)) (Some thePlayer)
                    (creatureEnv now g) (creatureSystem g)
                  = mkSystem (<[i := fst r]> (creatures (creatureSystem g))) (snd r)).
    { unfold damageCreatureAt. rewrite Hc. fold r. now destruct r. }
    rewrite Hcs. f_equal.
    rewrite (newEvents_app _ _ (loot ++ [(now,
                TookDamage (id c) (Player.hitDamage (inventory g))
                           (Num.sub (health c) (Player.hitDamage (inventory g))))])).
    + now rewrite rev_app_distr.
    + cbn [effects]. rewrite Htr. now rewrite <- app_assoc.
  - intros Hdead Hrand. now apply Hsure.
Qed.

(** X24.  The player's attack.  While less than 1000 ms have passed since the
    last hit, or when no live creature is strictly within 3 units, nothing
    changes (and the cooldown is not used up).  Otherwise exactly one
    creature is hit: the nearest live one, with a damage of 10, or 15 with an
    axe and 12 with a pickaxe selected, and with the player as the attacker;
    [lastAttackTime] becomes the time of the call.  The player's health, the
    resource nodes and the stacks of the inventory are not touched, and no
    ground item is lost. *)
Theorem attemptAttack_spec (now : number) (g : t) :
  let p := player g in
  let tooSoon :=
    Num.lt (Num.sub now (Player.lastAttackTime p)) Player.attackCooldown in
  let target :=
    getClosestCreature (Player.position p) Player.attackRange (creatureSystem g) in
  let g' := attemptAttack now g in
  (tooSoon \/ target = None -> g' = g)
  /\ (~ tooSoon -> forall i, target = Some i ->
      exists c d,
        creatures (creatureSystem g) !! i = Some c
        /\ isDead c = false
        /\ Num.lt (distanceTo (Player.position p) (position c)) Player.attackRange
        /\ (forall j c', creatures (creatureSystem g) !! j = Some c' ->
              isDead c' = false ->
              ~ Num.lt (distanceTo (Player.position p) (position c'))
                       (distanceTo (Player.position p) (position c)))
        /\ Player.hitDamage (inventory g) = Fin d
        /\ (d == 10 \/ d == 15 \/ d == 12)
        /\ d == match Inventory.getSelectedTool (inventory g) with
                | Some data =>
                    match Inventory.toolType data with
                    | Some Inventory.axe => 15
                    | Some Inventory.pickaxe => 12
                    | _ => 10
                    end
                | None => 10
                end
        /\ creatures (creatureSystem g') =
             <[i := fst (damageCreature c (Fin d) (Some thePlayer) (creatureEnv now g)
                                        (effects (creatureSystem g)))]>
               (creatures (creatureSystem g))
        /\ player g' = Player.setLastAttackTime now p
        /\ deaths g' = deaths g
        /\ resourceSystem g' = resourceSystem g
        /\ Inventory.items (inventory g') = Inventory.items (inventory g)
        /\ (forall item, In item (Inventory.groundItems (inventory g)) ->
                         In item (Inventory.groundItems (inventory g')))).
Proof.
  intros p tooSoon target g'. subst g' tooSoon target p.
  destruct (Num.ltb (Num.sub now (Player.lastAttackTime (player g)))
                    Player.attackCooldown) eqn:Hcool.
  - split.
    + intros _. unfold attemptAttack. now rewrite Hcool.
    + intros Hno. exfalso. apply Hno. now apply ltb_lt.
  - assert (Hnot : ~ Num.lt (Num.sub now (Player.lastAttackTime (player g)))
                            Player.attackCooldown).
    { intros Hyes. apply ltb_lt in Hyes. congruence. }
    split.
    + intros [Hyes | Hnone]; [contradiction |].
      unfold attemptAttack. now rewrite Hcool, Hnone.
    + intros _ i Htarget.
      destruct (closest_target _ _ _ _ Htarget) as (c & Hc & Hlive & Hnear & Hmin).
      destruct (hitDamage_values (inventory g)) as (d & Hd & Hvalues & Htool).
      destruct (attemptAttack_hit now g i c Hcool Htarget Hc Hlive)
        as (loot & _ & -> & Hall & _).
      exists c, d. rewrite <- Hd.
      split; [exact Hc |]. split; [exact Hlive |]. split; [exact Hnear |].
      split; [exact Hmin |]. split; [reflexivity |]. split; [exact Hvalues |].
      split; [exact Htool |].
      match goal with |- context [deliverAll now ?evs ?g1] =>
        destruct (deliverAll_frame now evs g1) as (Hrs & Hcs & Hitems & _);
        destruct (deliverAll_player now evs g1) as [Hp Hdeaths];
        pose proof (deliverAll_ground now evs g1) as Hground
      end.
      { constructor; [exact I |].
        apply List.Forall_forall. intros ev Hin. apply in_map_iff in Hin as (te & <- & Hin).
        apply in_rev in Hin. rewrite List.Forall_forall in Hall.
        specialize (Hall te Hin). now destruct (snd te). }
      rewrite Hcs, Hp, Hdeaths, Hrs, Hitems.
      split; [reflexivity |]. split; [reflexivity |]. split; [reflexivity |].
      split; [reflexivity |]. split; [reflexivity |].
      intros item Hin. now apply Hground.
Qed.

(** *** Loot *)

Lemma registry_drops_known sp d :
  In sp initializeSpecies ->
  In d (Species.dropItems sp) ->
  is_Some (Js.get (Species.itemType d) Inventory.itemData).
Proof.
  unfold initializeSpecies. cbn [In].
  intros Hsp Hd.
  repeat (destruct Hsp as [<- | Hsp];
          [cbn [Species.dropItems In] in Hd;
           repeat (destruct Hd as [<- | Hd]; [now eexists |]); destruct Hd |]).
  destruct Hsp.
Qed.

(** X25.  A kill by the player leaves the loot on the ground.  When the hit of
    [attemptAttack] takes the last health of its target, a creature of a
    registered species, the target is dead with health 0 afterwards; what
    lay on the ground still lies there; and for every entry of the species'
    drop table with chance 1 or more there is an item of that type and
    amount on the ground where the creature died, half a unit above the
    terrain. *)
Theorem kill_leaves_loot (now : number) (g : t) (i : nat) (c : Creature) :
  randomInUnitInterval ->
  ~ Num.lt (Num.sub now (Player.lastAttackTime (player g))) Player.attackCooldown ->
  getClosestCreature (Player.position (player g)) Player.attackRange (creatureSystem g)
    = Some i ->
  creatures (creatureSystem g) !! i = Some c ->
  In (speciesData c) initializeSpecies ->
  Num.le (Num.sub (health c) (Player.hitDamage (inventory g))) (Fin 0) ->
  let g' := attemptAttack now g in
  (exists c',
      creatures (creatureSystem g') !! i = Some c'
      /\ isDead c' = true /\ health c' = Fin 0)
  /\ (forall item, In item (Inventory.groundItems (inventory g)) ->
                   In item (Inventory.groundItems (inventory g')))
  /\ (forall d, In d (Species.dropItems (speciesData c)) ->
                Num.le (Fin 1) (Species.chance d) ->
                exists item,
                  In item (Inventory.groundItems (inventory g'))
                  /\ Inventory.itemType item = Species.itemType d
                  /\ Inventory.amount item = Species.itemAmount d
                  /\ Inventory.position item =
                       mkVector3 (vx (position c))
                                 (Num.add (getHeightAt (vx (position c)) (vz (position c)))
                                          (Fin 0.5))
                                 (vz (position c))).
Proof.
  intros Hrand Hcool Htarget Hc Hreg Hkill g'. subst g'.
  assert (Hcool' : Num.ltb (Num.sub now (Player.lastAttackTime (player g)))
                           Player.attackCooldown = false).
  { apply not_true_iff_false. now rewrite ltb_lt. }
  destruct (closest_target _ _ _ _ Htarget) as (c0 & Hc0 & Hlive & _).
  rewrite Hc in Hc0. injection Hc0 as <-.
  destruct (attemptAttack_hit now g i c Hcool' Htarget Hc Hlive)
    as (loot & _ & -> & _ & _ & Hsure).
  set (r := damageCreature c (Player.hitDamage (inventory g)) (Some thePlayer)
                           (creatureEnv now g) (effects (creatureSystem g))) in *.
  assert (Hr : fst r = setHealth (Fin 0)
                         (setIsDead true
                            (reactToDamage (Some thePlayer)
                               (setHealth (Num.sub (health c)
                                                   (Player.hitDamage (inventory g))) c)))).
  { subst r. rewrite damageCreature_live by exact Hlive.
    apply leb_le in Hkill. now rewrite Hkill. }
  assert (Hdead : isDead (fst r) = true) by now rewrite Hr.
  match goal with |- context [deliverAll now ?l ?g0] =>
    set (evs := l); set (g1 := g0)
  end.
  split; [| split].
  - destruct (deliverAll_frame now evs g1) as (_ & -> & _).
    subst g1. cbn [creatureSystem creatures]. exists (fst r).
    split; [| split; [exact Hdead | now rewrite Hr]].
    apply list_lookup_insert_eq. eapply lookup_lt_Some. exact Hc.
  - intros item Hin. now apply deliverAll_ground.
  - intros d Hd Hchance.
    apply (deliverAll_creates now evs g1).
    + subst evs. right. apply in_map_iff.
      exists (now, CreateGroundItem (Species.itemType d) (Species.itemAmount d)
                     (vx (position c)) (vz (position c))).
      split; [reflexivity |]. apply in_rev. rewrite rev_involutive.
      now apply Hsure.
    + now apply (registry_drops_known (speciesData c)).
Qed.

(** *** The cooldown of the player's attack *)

Lemma updateCreature_hitTimes c dt env e :
  hitTimes (trace (snd (updateCreature c dt env e))) = hitTimes (trace e).
Proof.
  unfold updateCreature.
  set (c1 := tickStateTimer c dt). set (d := distanceTo _ _).
  assert (Hgen : forall r : Creature * Effects,
             hitTimes (trace (snd r)) = hitTimes (trace e) ->
             hitTimes (trace (snd (let (c2, e2) := r in (applyMovement c2 dt, e2))))
             = hitTimes (trace e)).
  { now intros [c2 e2]. }
  destruct (state c1); apply Hgen.
  - unfold updateIdle, mathRandom.
    repeat match goal with |- context [if ?b then _ else _] => destruct b end;
      reflexivity.
  - unfold updateWander, pickWanderTarget, mathRandom.
    destruct (_ && _); [reflexivity |].
    destruct (wanderTarget c1) as [w |] eqn:Hw; cbn.
    + destruct (Num.ltb _ _); cbn; [| rewrite Hw]; reflexivity.
    + reflexivity.
  - unfold updateChase.
    repeat match goal with |- context [if ?b then _ else _] => destruct b end;
      reflexivity.
  - unfold updateAttack, performAttack.
    repeat match goal with |- context [if ?b then _ else _] => destruct b end;
      reflexivity.
  - reflexivity.
Qed.

Lemma updateFrom_hitTimes cs dt env : forall e,
  hitTimes (trace (snd (updateFrom cs dt env e))) = hitTimes (trace e).
Proof.
  induction cs as [| c cs IH]; intros e; cbn [updateFrom]; [reflexivity |].
  destruct (isDead c).
  - specialize (IH e). now destruct (updateFrom cs dt env e).
  - pose proof (updateCreature_hitTimes c dt env e) as Hc.
    destruct (updateCreature c dt env e) as [c' e1]. cbn [snd] in Hc.
    specialize (IH e1). destruct (updateFrom cs dt env e1). cbn [snd] in *. congruence.
Qed.

Lemma findSpawnPositionFrom_trace k : forall e,
  trace (snd (findSpawnPositionFrom k e)) = trace e.
Proof.
  induction k as [| k IH]; intros e; cbn [findSpawnPositionFrom]; [reflexivity |].
  destruct (onLand _); [reflexivity |]. now rewrite IH.
Qed.

Lemma spawnRandomCreature_hitTimes env cs e :
  hitTimes (trace (snd (spawnRandomCreature env cs e))) = hitTimes (trace e).
Proof.
  unfold spawnRandomCreature, mathRandom, findSpawnPosition.
  set (e1 := mkEffects (S (randomCalls e)) (trace e)).
  pose proof (findSpawnPositionFrom_trace 20 e1) as Htr.
  destruct (findSpawnPositionFrom 20 e1) as [[pos |] e2]; cbn [snd] in Htr.
  - destruct (selectSpecies _ _ _) as [sp |]; cbn; now rewrite Htr.
  - cbn. now rewrite Htr.
Qed.

Lemma attemptGather_frame now g :
  creatureSystem (attemptGather now g) = creatureSystem g
  /\ Player.lastAttackTime (player (attemptGather now g))
     = Player.lastAttackTime (player g).
Proof.
  unfold attemptGather.
  destruct (Player.nearestResource (player g)) as [i |]; [| now split].
  destruct (ResourceSystem.resourceNodes (resourceSystem g) !! i) as [node |];
    [| now split].
  destruct (Num.ltb _ _); [now split |].
  destruct (ResourceSystem.gatherResource _ _ _) as [rs [drop |]]; now split.
Qed.

(** What a step of the game does to the hits logged and to
    [lastAttackTime]: nothing, or one hit at the time of the step, no less
    than the cooldown after the last one. *)
Lemma step_hits a g :
  let tr := fun g => trace (effects (creatureSystem g)) in
  (hitTimes (tr (step a g)) = hitTimes (tr g)
   /\ Player.lastAttackTime (player (step a g)) = Player.lastAttackTime (player g))
  \/ (exists now,
        hitTimes (tr (step a g)) = now :: hitTimes (tr g)
        /\ Player.lastAttackTime (player (step a g)) = now
        /\ ~ Num.lt (Num.sub now (Player.lastAttackTime (player g)))
                    Player.attackCooldown).
Proof.
  intros tr. subst tr.
  destruct a as [pos | slot | key now | now | dt now | dt now | dt | i | now];
    cbn [step]; try (left; now split).
  - (* gathering *)
    left. unfold updateResourceGathering.
    destruct (ResourceSystem.getClosestNode _ _ _); [destruct key |];
      try (now split).
    destruct (attemptGather_frame now
                (setPlayer (Player.setNearestResource (Some n) (player g)) g))
      as [-> ->].
    now split.
  - (* the attack *)
    destruct (Num.ltb (Num.sub now (Player.lastAttackTime (player g)))
                      Player.attackCooldown) eqn:Hcool;
      [left; unfold attemptAttack; rewrite Hcool; now split |].
    destruct (getClosestCreature (Player.position (player g)) Player.attackRange
                                 (creatureSystem g)) as [i |] eqn:Htarget;
      [| left; unfold attemptAttack; rewrite Hcool, Htarget; now split].
    destruct (closest_target _ _ _ _ Htarget) as (c & Hc & Hlive & _).
    destruct (attemptAttack_hit now g i c Hcool Htarget Hc Hlive)
      as (loot & Htr & -> & Hall & _).
    right. exists now.
    match goal with |- context [deliverAll now ?l ?g0] =>
      destruct (deliverAll_frame now l g0) as (_ & -> & _ & _ & _ & -> & _)
    end.
    cbn [creatureSystem effects player Player.lastAttackTime Player.setLastAttackTime].
    split; [| split; [reflexivity |]].
    + rewrite Htr, hitTimes_app. cbn [hitTimes].
      assert (Hloot : hitTimes loot = []).
      { clear -Hall. induction Hall as [| [tm ev] l Hev _ IH]; [reflexivity |].
        cbn [snd] in Hev. destruct ev; cbn [hitTimes]; try contradiction; exact IH. }
      now rewrite Hloot.
    + intros Hlt. apply ltb_lt in Hlt. congruence.
  - (* the creatures' update *)
    left. unfold updateCreatures.
    match goal with |- context [deliverAll now ?l ?g0] =>
      destruct (deliverAll_frame now l g0) as (_ & -> & _ & _ & _ & -> & _)
    end.
    cbn [creatureSystem setCreatureSystem player]. split; [| reflexivity].
    unfold update.
    pose proof (updateFrom_hitTimes (creatures (creatureSystem g)) dt
                  (creatureEnv now g) (effects (creatureSystem g))) as Hu.
    now destruct (updateFrom _ _ _ _).
  - (* time passes *)
    left. cbn [creatureSystem setResourceSystem setPlayer player]. split; [reflexivity |].
    apply advance_frame.
  - (* the removal of a dead creature *)
    left. cbn [creatureSystem setCreatureSystem player]. split; [| reflexivity].
    unfold fadeOutDone. destruct (creatures (creatureSystem g) !! i) as [c |];
      [destruct (isDead c) |]; reflexivity.
  - (* a replacement spawn *)
    left. cbn [creatureSystem setCreatureSystem player CreatureSystem.step].
    split; [| reflexivity].
    pose proof (spawnRandomCreature_hitTimes (creatureEnv now g)
                  (creatures (creatureSystem g)) (effects (creatureSystem g))) as Hs.
    now destruct (spawnRandomCreature _ _ _).
Qed.

Lemma run_hits acts first : forall g,
  apartBy Player.attackCooldown (hitTimes (trace (effects (creatureSystem g)))) ->
  Player.lastAttackTime (player g)
  = match hitTimes (trace (effects (creatureSystem g))) with
    | newest :: _ => newest
    | [] => first
    end ->
  apartBy Player.attackCooldown
          (hitTimes (trace (effects (creatureSystem (run acts g)))))
  /\ Player.lastAttackTime (player (run acts g))
     = match hitTimes (trace (effects (creatureSystem (run acts g)))) with
       | newest :: _ => newest
       | [] => first
       end.
Proof.
  induction acts as [| a acts IH]; intros g Hapart Hlast; cbn [run]; [now split |].
  destruct (step_hits a g) as [[Ht Hl] | (now & Ht & Hl & Hcool)]; cbv zeta in Ht;
    apply IH; rewrite ?Ht, ?Hl; try assumption; try reflexivity.
  destruct (hitTimes (trace (effects (creatureSystem g)))) as [| newest older];
    [exact I |].
  cbn [apartBy]. split; [| exact Hapart]. now rewrite <- Hlast.
Qed.

(** X26.  The player hits at most once per cooldown.  Through anything that
    happens in the running game, and however often the attack key is down,
    between two successive hits on creatures no less than 1000 ms pass, and
    [lastAttackTime] is the time of the newest hit (its initial value if
    there was none). *)
Theorem player_attack_cadence (acts : list Action) (g0 : t) :
  hitTimes (trace (effects (creatureSystem g0))) = [] ->
  let g := run acts g0 in
  let times := hitTimes (trace (effects (creatureSystem g))) in
  apartBy Player.attackCooldown times
  /\ Player.lastAttackTime (player g) = match times with
                                        | newest :: _ => newest
                                        | [] => Player.lastAttackTime (player g0)
                                        end.
Proof.
  intros Hnone g times.
  apply (run_hits acts (Player.lastAttackTime (player g0)) g0); rewrite Hnone;
    [exact I | reflexivity].
Qed.

(** *** The creatures' attacks *)

Lemma damagesOf_app l1 l2 : damagesOf (l1 ++ l2) = damagesOf l1 ++ damagesOf l2.
Proof.
  induction l1 as [| ev l1 IH]; cbn [app damagesOf]; [reflexivity |].
  destruct ev; cbn; now rewrite ?IH.
Qed.

Lemma deliverAll_takes_damage now evs : forall g,
  player (deliverAll now evs g) = Player.takeDamages (damagesOf evs) (player g).
Proof.
  unfold deliverAll.
  induction evs as [| ev evs IH]; intros g; cbn [fold_left]; [reflexivity |].
  rewrite IH. destruct ev; cbn [deliver damagesOf Player.takeDamages]; try reflexivity.
  now destruct (Player.takeDamage damage (player g)).
Qed.

(** What a tick adds to the trace, the player being there: nothing, or the
    attack line and the call of [takeDamage] with the damage of the
    species. *)
Lemma updateCreature_events c dt env e :
  playerPresent env = true ->
  trace (snd (updateCreature c dt env e)) = trace e
  \/ trace (snd (updateCreature c dt env e))
     = (now env, PlayerTakeDamage (Species.damage (speciesData c)))
         :: (now env, Attacks (id c) (Species.damage (speciesData c))) :: trace e.
Proof.
  intros Hplayer. unfold updateCreature.
  destruct (tickStateTimer_attack c dt) as [Hsp _].
  assert (Hid : id (tickStateTimer c dt) = id c).
  { unfold tickStateTimer.
    repeat match goal with |- context [if ?b then _ else _] => destruct b end;
      reflexivity. }
  set (c1 := tickStateTimer c dt) in *. set (d := distanceTo _ _).
  assert (Hgen : forall r : Creature * Effects,
             trace (snd r) = trace e ->
             trace (snd (let (c2, e2) := r in (applyMovement c2 dt, e2))) = trace e).
  { now intros [c2 e2]. }
  destruct (state c1).
  - left. apply Hgen. unfold updateIdle, mathRandom.
    repeat match goal with |- context [if ?b then _ else _] => destruct b end;
      reflexivity.
  - left. apply Hgen. unfold updateWander, pickWanderTarget, mathRandom.
    destruct (_ && _); [reflexivity |].
    destruct (wanderTarget c1) as [w |] eqn:Hw; cbn.
    + destruct (Num.ltb _ _); cbn; [| rewrite Hw]; reflexivity.
    + reflexivity.
  - left. apply Hgen. unfold updateChase.
    repeat match goal with |- context [if ?b then _ else _] => destruct b end;
      reflexivity.
  - unfold updateAttack, performAttack. rewrite Hplayer.
    cbn [speciesData id setRotation setVelocityXZ setVelocity]. rewrite Hsp, Hid.
    destruct (Num.gtb d _); [now left |].
    destruct (Num.gtb _ _); [right | left]; reflexivity.
  - left. apply Hgen. reflexivity.
Qed.

Lemma updateFrom_events cs dt env : forall e,
  playerPresent env = true ->
  exists new,
    trace (snd (updateFrom cs dt env e)) = new ++ trace e
    /\ length (damagesOf (map snd new)) = length (attackTimes new)
    /\ Forall (fun te : number * Event =>
                 match snd te with
                 | PlayerTakeDamage damage | Attacks _ damage =>
                     exists c, In c cs /\ isDead c = false
                               /\ damage = Species.damage (speciesData c)
                 | _ => False
                 end) new.
Proof.
  induction cs as [| c cs IH]; intros e Hplayer; cbn [updateFrom].
  - exists []. repeat split. constructor.
  - destruct (isDead c) eqn:Hdead.
    + destruct (IH e Hplayer) as (new & Htr & Hlen & Hall).
      exists new. destruct (updateFrom cs dt env e) as [cs' e']. cbn [snd] in *.
      repeat split; try assumption.
      eapply Forall_impl; [exact Hall |]. intros [tm ev] Hev. cbn [snd] in *.
      destruct ev; try contradiction;
        destruct Hev as (c0 & Hin & Hrest); exists c0; (split; [now right | exact Hrest]).
    + pose proof (updateCreature_events c dt env e Hplayer) as Hc.
      destruct (updateCreature c dt env e) as [c' e1]. cbn [snd] in Hc.
      destruct (IH e1 Hplayer) as (new & Htr & Hlen & Hall).
      destruct (updateFrom cs dt env e1) as [cs' e']. cbn [snd] in *.
      assert (Hall' : Forall (fun te : number * Event =>
                 match snd te with
                 | PlayerTakeDamage damage | Attacks _ damage =>
                     exists c0, In c0 (c :: cs) /\ isDead c0 = false
                               /\ damage = Species.damage (speciesData c0)
                 | _ => False
                 end) new).
      { eapply Forall_impl; [exact Hall |]. intros [tm ev] Hev. cbn [snd] in *.
        destruct ev; try contradiction;
          destruct Hev as (c0 & Hin & Hrest); exists c0;
          (split; [now right | exact Hrest]). }
      destruct Hc as [Hc | Hc]; rewrite Hc in Htr.
      * exists new. repeat split; assumption.
      * exists (new ++ [(now env, PlayerTakeDamage (Species.damage (speciesData c)));
                        (now env, Attacks (id c) (Species.damage (speciesData c)))]).
        split; [now rewrite <- app_assoc |]. split.
        -- rewrite map_app, damagesOf_app, !length_app.
           assert (Hatt : forall l1 l2, attackTimes (l1 ++ l2)
                                        = attackTimes l1 ++ attackTimes l2).
           { intros l1 l2. induction l1 as [| [tm ev] l1 IHl]; cbn [app attackTimes];
               [reflexivity |]. destruct ev; cbn; now rewrite ?IHl. }
           rewrite Hatt, length_app. cbn. lia.
        -- apply Forall_app. split; [exact Hall' |].
           repeat constructor; cbn [snd]; exists c; (split; [now left | now split]).
Qed.

(** X27.  The creatures' attacks reach the player.  In one update of the creature
    system within the running game, every call of [performAttack] calls
    [takeDamage] once, with the damage of the species of a live creature;
    the player ends as these calls leave it, in their order; and neither the
    inventory nor the resource nodes change. *)
Theorem creature_attacks_reach_player (deltaTime now : number) (g : t) :
  let cs := update deltaTime (creatureEnv now g) (creatureSystem g) in
  let damages := damagesOf (newEvents (creatureSystem g) cs) in
  let g' := updateCreatures deltaTime now g in
  creatureSystem g' = cs
  /\ player g' = Player.takeDamages damages (player g)
  /\ length damages
     = (length (attackTimes (trace (effects cs)))
        - length (attackTimes (trace (effects (creatureSystem g)))))%nat
  /\ Forall (fun damage =>
               exists c, In c (creatures (creatureSystem g)) /\ isDead c = false
                         /\ damage = Species.damage (speciesData c)) damages
  /\ inventory g' = inventory g
  /\ resourceSystem g' = resourceSystem g.
Proof.
  intros cs damages g'. subst g' damages. unfold updateCreatures. fold cs.
  destruct (updateFrom_events (creatures (creatureSystem g)) deltaTime
              (creatureEnv now g) (effects (creatureSystem g)) eq_refl)
    as (new & Htr & Hlen & Hall).
  assert (Hcs : trace (effects cs) = new ++ trace (effects (creatureSystem g))).
  { subst cs. unfold update. now destruct (updateFrom _ _ _ _). }
  assert (Hatt : forall l1 l2, attackTimes (l1 ++ l2) = attackTimes l1 ++ attackTimes l2).
  { intros l1 l2. induction l1 as [| [tm ev] l1 IHl]; cbn [app attackTimes];
      [reflexivity |]. destruct ev; cbn; now rewrite ?IHl. }
  assert (Hdam : forall l : list (number * Event),
             length (damagesOf (map snd (rev l))) = length (damagesOf (map snd l))).
  { intros l. induction l as [| [tm ev] l IHl]; [reflexivity |].
    cbn [rev map]. rewrite map_app, damagesOf_app, length_app, IHl.
    destruct ev; cbn; lia. }
  rewrite (newEvents_app _ _ new Hcs).
  destruct (deliverAll_frame now (map snd (rev new)) (setCreatureSystem cs g))
    as (Hrs & Hcs' & _).
  split; [exact Hcs' |].
  split; [exact (deliverAll_takes_damage now _ (setCreatureSystem cs g)) |].
  split; [| split; [| split; [| exact Hrs]]].
  - rewrite Hdam, Hlen, Hcs, Hatt, length_app. lia.
  - apply List.Forall_forall. intros damage Hin.
    assert (Hev : In (PlayerTakeDamage damage) (map snd (rev new))).
    { clear -Hin. induction (map snd (rev new)) as [| ev l IH]; [destruct Hin |].
      destruct ev; cbn [damagesOf] in Hin; try (right; now apply IH).
      destruct Hin as [-> | Hin]; [now left | right; now apply IH]. }
    apply in_map_iff in Hev as ([tm ev] & Heq & Hte). cbn [snd] in Heq. subst ev.
    apply in_rev in Hte. rewrite List.Forall_forall in Hall.
    exact (Hall _ Hte).
  - rewrite deliverAll_inventory; [reflexivity |].
    apply List.Forall_forall. intros ev Hin.
    apply in_map_iff in Hin as ([tm ev'] & Heq & Hte). cbn [snd] in Heq. subst ev'.
    apply in_rev in Hte. rewrite List.Forall_forall in Hall.
    specialize (Hall _ Hte). cbn [snd] in Hall. now destruct ev.
Qed.

End Combat.


(** * The inventory and the game on concrete inputs *)

Section InventoryOnConcreteInputs.

Import Inventory.

Lemma wood_known : is_Some (Js.get "wood"%string itemData).
Proof. now eexists. Qed.

Lemma woodcutting_nonnegative :
  Forall (fun a : Action * Env => amountsNonnegative (fst a)) Play.woodcutting.
Proof.
  unfold Play.woodcutting.
  repeat apply List.Forall_cons; try apply List.Forall_nil; cbn [fst amountsNonnegative];
    try exact I; vm_compute; discriminate.
Qed.

Lemma add_then_remove_witness :
  let added := snd (addItem (H := Demo.calm) "wood" (Fin 3) (Play.here 1000) empty) in
  let r := removeItem "wood" (Fin 3) added in
  hasItem "wood" (Fin 3) added = true
  /\ fst r = true
  /\ held "wood" (snd r) == 0
  /\ groundItems (snd r) = [].
Proof.
  intros added r.
  destruct (add_then_remove (H := Demo.calm) "wood" 3 (Play.here 1000) empty wood_known
              ltac:(vm_compute; discriminate) ltac:(vm_compute; reflexivity)
              ltac:(vm_compute; discriminate))
    as (Hhas & Hok & Hheld & Hground).
  split; [exact Hhas |]. split; [exact Hok |].
  split; [exact (Hheld "wood"%string) | exact Hground].
Defined.

Lemma stacks_within_bounds_witness :
  let inv := run (H := Demo.calm) Play.woodcutting empty in
  0 <= held "wood" inv /\ held "wood" inv <= 99 /\ groundAmounts inv.
Proof.
  intros inv.
  destruct (stacks_within_bounds (H := Demo.calm) Play.woodcutting
              woodcutting_nonnegative) as (Hheld & Hground & _).
  destruct (Hheld "wood"%string) as [Hlow Hhigh].
  split; [exact Hlow |]. split; [exact Hhigh | exact Hground].
Defined.

(** [itemData] holds something under the name [constructor], which it
    inherits: an item of that type is added and stacked, and is made on the
    ground.  Under the name [sand] it holds nothing: that item is refused. *)
Example addItem_of_an_inherited_name :
  addItem (H := Demo.calm) "constructor" (Fin 1) (Play.here 1000) empty
    = (true, mkInventory [("constructor"%string, Fin (0 + 1))] 0 [] 0)
  /\ map itemType
         (groundItems (createGroundItem (H := Demo.calm) "constructor" (Fin 2) (Fin 4)
                                        (Fin 8) (Play.here 1000) empty))
     = ["constructor"%string]
  /\ addItem (H := Demo.calm) "sand" (Fin 1) (Play.here 1000) empty = (false, empty)
  /\ createGroundItem (H := Demo.calm) "sand" (Fin 2) (Fin 4) (Fin 8) (Play.here 1000)
                      empty
     = empty.
Proof. repeat split; reflexivity. Qed.

Lemma updateGroundItems_picks_up_witness :
  let inv := Play.woodOnGround in
  let inv' := updateGroundItems (H := Demo.calm) (Fin 0.016) (Play.here 4000) inv in
  groundAmounts inv
  /\ total "wood" inv' == total "wood" inv
  /\ held "wood" inv <= held "wood" inv'
  /\ (length (groundItems inv') <= length (groundItems inv))%nat.
Proof.
  intros inv inv'.
  assert (Hground : groundAmounts inv).
  { unfold groundAmounts. vm_compute groundItems.
    repeat constructor. exists 21. split; [reflexivity | vm_compute; discriminate]. }
  destruct (updateGroundItems_picks_up (H := Demo.calm) (Fin 0.016) (Play.here 4000) inv
              Demo.origin eq_refl Hground) as (Htotal & Hmono & Hlen & _).
  split; [exact Hground |]. split; [exact (Htotal "wood"%string) |].
  split; [exact (Hmono "wood"%string) | exact Hlen].
Defined.

Lemma dropSelectedItem_conserves_witness :
  let inv := run (H := Demo.calm) Play.woodcutting empty in
  let inv' := dropSelectedItem (H := Demo.calm) (Some (Fin 10)) (Play.here 5000) inv in
  running (Play.here 5000)
  /\ total "wood" inv' == total "wood" inv.
Proof.
  intros inv inv'.
  assert (Hrun : running (Play.here 5000)) by (split; [now eexists | reflexivity]).
  destruct (dropSelectedItem_conserves (H := Demo.calm) Play.woodcutting (Some (Fin 10))
              (Play.here 5000) woodcutting_nonnegative
              ltac:(vm_compute; discriminate) Hrun) as (Htotal & _).
  split; [exact Hrun | exact (Htotal "wood"%string)].
Defined.

(** 120 wood at once fill the stack to 99 and leave 21 on the ground; with
    the stack at 49 the player walks over them and has 70. *)
Example wood_overflows_and_is_picked_up :
  let inv := snd (addItem (H := Demo.calm) "wood" (Fin 120) (Play.here 1000) empty) in
  getItemCount "wood" inv = Fin 99
  /\ map amount (groundItems inv) = [Fin 21]
  /\ getItemCount "wood"
       (updateGroundItems (H := Demo.calm) (Fin 0.016) (Play.here 4000)
                          Play.woodOnGround) = Fin 70
  /\ groundItems (updateGroundItems (H := Demo.calm) (Fin 0.016) (Play.here 4000)
                                    Play.woodOnGround) = [].
Proof. vm_compute. repeat split. Qed.

End InventoryOnConcreteInputs.

Section GameOnConcreteInputs.

Import Game.

Lemma player_health_under_damage_witness :
  let p := Player.health (Player.takeDamages [Fin 30; Fin 80] Player.initial) in
  let dead := fst (Player.takeDamage (Fin 100) (Game.player (Play.gameWith Species.wolf))) in
  (exists h', p = Fin h' /\ h' == 0)
  /\ Player.health (Player.advance (H := Demo.calm) 3000 dead) = Fin 100.
Proof.
  intros p dead. split.
  - destruct (player_health_under_damage (H := Demo.calm) [30; 80] Player.initial 100
                eq_refl ltac:(vm_compute; discriminate)
                ltac:(repeat constructor; vm_compute; discriminate))
      as [(h' & Hh & _ & Hzero) _].
    exists h'. split; [exact Hh | apply Hzero; vm_compute; discriminate].
  - destruct (player_health_under_damage (H := Demo.calm) []
                (Game.player (Play.gameWith Species.wolf)) 100
                eq_refl ltac:(vm_compute; discriminate) ltac:(constructor))
      as [_ Hhit].
    destruct (Hhit 100 ltac:(vm_compute; discriminate)) as (_ & _ & Hrespawn).
    destruct (Hrespawn ltac:(vm_compute; discriminate) eq_refl 3000%N) as [_ Hback].
    exact (proj1 (Hback ltac:(vm_compute; discriminate))).
Defined.

Lemma gathered_goes_to_inventory_witness :
  let g' := attemptGather (H := Demo.calm) (Fin 1000) Play.game in
  (exists node',
      ResourceSystem.resourceNodes (resourceSystem g') !! 0%nat = Some node'
      /\ ResourceSystem.health node' = 3%Z)
  /\ Player.lastGatherTime (player g') = Fin 1000
  /\ exists n,
       1 <= n
       /\ Inventory.total "wood" (inventory g')
          == Inventory.total "wood" (inventory Play.game) + n.
Proof.
  intros g'.
  destruct (gathered_goes_to_inventory (H := Demo.calm) (Fin 1000) Play.game 0
              (ResourceSystem.mkNode "tree" (mkVector3 (Fin 3) (Fin 0) (Fin 0)) 5 5 true
                                     60000 None) eq_refl eq_refl) as [_ Hgather].
  destruct Hgather as (Hnode & _ & Hdrop).
  { vm_compute. intros Hlt. discriminate Hlt. }
  { reflexivity. }
  change (ResourceSystem.getResourceDrop "tree")
    with (Some (ResourceSystem.mkDrop "wood" (Num.ofZ 1))) in Hdrop.
  destruct Hdrop as (Hlast & n & _ & Hn & Htotal).
  split; [exact Hnode |]. split; [exact Hlast |].
  exists n. split; [exact Hn | exact (Htotal "wood"%string)].
Defined.

Lemma calm_random : CreatureSystem.randomInUnitInterval (H := Demo.calm).
Proof. intros n. exists 0. repeat split; vm_compute; congruence. Qed.

Lemma kill_leaves_loot_witness :
  let g' := attemptAttack (H := Demo.calm) (Fin 1000) Play.game in
  (exists c',
      CreatureSystem.creatures (creatureSystem g') !! 0%nat = Some c'
      /\ CreatureSystem.isDead c' = true /\ CreatureSystem.health c' = Fin 0)
  /\ exists item,
       In item (Inventory.groundItems (inventory g'))
       /\ Inventory.itemType item = "meat"%string
       /\ Inventory.amount item = Fin 1
       /\ Inventory.position item = mkVector3 (Fin 0) (Fin 0.5) (Fin 0).
Proof.
  intros g'.
  destruct (kill_leaves_loot (H := Demo.calm) (Fin 1000) Play.game 0
              (Demo.fresh Species.rabbit) calm_random) as (Hdead & _ & Hloot).
  - vm_compute. intros Hlt. discriminate Hlt.
  - vm_compute. reflexivity.
  - reflexivity.
  - left. reflexivity.
  - vm_compute. discriminate.
  - split; [exact Hdead |].
    destruct (Hloot (Species.mkDropItem "meat" (Fin 1) (Fin 1)))
      as (item & Hin & Hty & Hamt & Hpos).
    + left. reflexivity.
    + vm_compute. discriminate.
    + exists item. split; [exact Hin |]. split; [exact Hty |].
      split; [exact Hamt | exact Hpos].
Defined.

Lemma player_attack_cadence_witness :
  let g := run (H := Demo.calm) Play.threeAttacks (Play.gameWith Species.wolf) in
  let times := hitTimes (CreatureSystem.trace
                           (CreatureSystem.effects (creatureSystem g))) in
  apartBy Player.attackCooldown times
  /\ Player.lastAttackTime (player g) = match times with
                                        | newest :: _ => newest
                                        | [] => Fin 0
                                        end.
Proof.
  exact (player_attack_cadence (H := Demo.calm) Play.threeAttacks
           (Play.gameWith Species.wolf) eq_refl).
Defined.

(** With a stone axe the player hits for 15: the wolf (health 40) is hit at
    1000 and at 2100, not at 1500, and has 10 left. *)
Example wolf_hunt :
  let g := run (H := Demo.calm) Play.threeAttacks (Play.gameWith Species.wolf) in
  hitTimes (CreatureSystem.trace (CreatureSystem.effects (creatureSystem g)))
  = [Fin 2100; Fin 1000]
  /\ map (fun c => Num.leb (CreatureSystem.health c) (Fin 10)
                     && Num.geb (CreatureSystem.health c) (Fin 10))
         (CreatureSystem.creatures (creatureSystem g)) = [true].
Proof. vm_compute. split; reflexivity. Qed.

(** Two wolves in the attack state next to the player take 10 each from
    the player's health in one update. *)
Example two_wolves_attack :
  let g := setCreatureSystem
             (CreatureSystem.mkSystem [Demo.wolfAttacking; Demo.wolfAttacking]
                                      Demo.noEffects) Play.game in
  Player.health (player (updateCreatures (H := Demo.calm) (Fin 0.016) (Fin 5000) g))
  = Fin 80.
Proof. vm_compute. reflexivity. Qed.

End GameOnConcreteInputs.


(** * The world's resource nodes *)

Section GeneratedWorld.

Import ResourceSystem Environment.
Context `{Runtime} `{Terrain}.







End GeneratedWorld.

Section WorldOnConcreteInputs.

Import ResourceSystem Environment.


(** On flat land every attempt places a node: 40 trees, 30 rocks and 50
    plants, in this order. *)
Example flat_world_is_full :
  map type (resourceNodes (resourceSystem Play.world))
  = repeat "tree"%string 40 ++ repeat "rock"%string 30 ++ repeat "plant"%string 50.
Proof. vm_compute. reflexivity. Qed.

End WorldOnConcreteInputs.
